(** * Upbit-Bitget trading bot: the detection-and-dispatch core

    A shallow embedding of the Go sources
      - package [models], type [Position]       (module [Models]),
      - [safeGo] of [main.go] and [safeGoTE] of
        [services/trading_engine.go]           (module [Supervisor]),
      - [services/upbit_monitor.go]             (module [UpbitMonitor]),
      - [services/trading_engine.go]            (module [TradingEngine]),
    with the properties the specification states about them.

    Conventions.  Go's [float64] is Rocq's primitive binary64 [float]; Go's
    [int]/[int64] is a [Z] with the two's-complement wrap-around written
    out ([wrap64]); a [time.Time] is a [Z] count of nanoseconds and a
    [time.Duration] an [int64] count of nanoseconds; a Go [string] is a
    [string] of bytes; a [map[string]bool] used as a set is a [gset string]. *)

From Stdlib Require Import ZArith List Bool Lia Floats Ascii String.
From stdpp Require Import base list gmap strings pretty.

Local Open Scope Z_scope.
Set Warnings "-clear-no-such-hyp".

(** ** Machine integers *)

(** The value an [int64] computation wraps around to. *)
Definition wrap64 (z : Z) : Z := (z + 2 ^ 63) mod 2 ^ 64 - 2 ^ 63.

Definition MaxInt64 : Z := 2 ^ 63 - 1.
Definition MinInt64 : Z := - 2 ^ 63.

(** [time.Second] and [time.Minute], in nanoseconds. *)
Definition Second : Z := 1000000000.
Definition Minute : Z := 60 * Second.

(** [float64(n)] for an integer [n]: the nearest binary64 value. *)
Definition float64_of_int (n : Z) : float :=
  SF2Prim (binary_normalize prec emax n 0 false).

Lemma wrap64_small z : MinInt64 <= z <= MaxInt64 -> wrap64 z = z.
Proof.
  unfold wrap64, MinInt64, MaxInt64. intros H.
  rewrite Z.mod_small; lia.
Qed.

Lemma wrap64_range z : MinInt64 <= wrap64 z <= MaxInt64.
Proof.
  unfold wrap64, MinInt64, MaxInt64.
  pose proof (Z.mod_pos_bound (z + 2 ^ 63) (2 ^ 64) ltac:(lia)). lia.
Qed.

(** ** Positions (package [models]) *)

Module Models.

Inductive PositionStatus : Set := PositionOpen | PositionClosed.

Definition PositionStatus_eqb (a b : PositionStatus) : bool :=
  match a, b with
  | PositionOpen, PositionOpen | PositionClosed, PositionClosed => true
  | _, _ => false
  end.

(** The fields of [models.User] the core reads. *)
Record User : Set := mkUser {
  UserKey : Z;               (* ID *)
  TelegramID : Z;            (* int64 *)
  TradeAmount : float;
  UserLeverage : Z;
  TakeProfitPercentage : float;
  IsActive : bool
}.

Record Position : Set := mkPosition {
  ID : Z;
  PositionID : string;
  UserID : Z;
  CoinSymbol : string;
  Symbol : string;
  EntryPrice : float;
  CurrentPrice : float;
  Quantity : float;
  Leverage : Z;              (* int *)
  TakeProfitPrice : float;
  CurrentPNL : float;
  ROE : float;
  Status : PositionStatus;
  OpenedAt : Z;
  ClosedAt : option Z;
  Owner : User               (* the preloaded User relation *)
}.

Definition set_CurrentPNL (v : float) (p : Position) : Position :=
  mkPosition (ID p) (PositionID p) (UserID p) (CoinSymbol p) (Symbol p)
    (EntryPrice p) (CurrentPrice p) (Quantity p) (Leverage p)
    (TakeProfitPrice p) v (ROE p) (Status p) (OpenedAt p) (ClosedAt p) (Owner p).

Definition set_ROE (v : float) (p : Position) : Position :=
  mkPosition (ID p) (PositionID p) (UserID p) (CoinSymbol p) (Symbol p)
    (EntryPrice p) (CurrentPrice p) (Quantity p) (Leverage p)
    (TakeProfitPrice p) (CurrentPNL p) v (Status p) (OpenedAt p) (ClosedAt p) (Owner p).

Definition set_CurrentPrice (v : float) (p : Position) : Position :=
  mkPosition (ID p) (PositionID p) (UserID p) (CoinSymbol p) (Symbol p)
    (EntryPrice p) v (Quantity p) (Leverage p)
    (TakeProfitPrice p) (CurrentPNL p) (ROE p) (Status p) (OpenedAt p) (ClosedAt p) (Owner p).

(** [position.Status = PositionClosed; position.ClosedAt = &now]. *)
Definition close_at (now : Z) (p : Position) : Position :=
  mkPosition (ID p) (PositionID p) (UserID p) (CoinSymbol p) (Symbol p)
    (EntryPrice p) (CurrentPrice p) (Quantity p) (Leverage p)
    (TakeProfitPrice p) (CurrentPNL p) (ROE p) PositionClosed (OpenedAt p) (Some now) (Owner p).

(** The margin [CalculatePNL] divides by:
    [(p.EntryPrice * p.Quantity) / float64(p.Leverage)]. *)
Definition margin (p : Position) : float :=
  ((EntryPrice p * Quantity p) / float64_of_int (Leverage p))%float.

(** [func (p *Position) CalculatePNL()]: the receiver after the call. *)
Definition CalculatePNL (p : Position) : Position :=
  if ((EntryPrice p <=? 0) || (CurrentPrice p <=? 0) || (Quantity p <=? 0))%float
  then p
  else
    let priceDiff := (CurrentPrice p - EntryPrice p)%float in
    let p1 := set_CurrentPNL (priceDiff * Quantity p)%float p in
    if (0 <? margin p1)%float
    then set_ROE ((CurrentPNL p1 / margin p1) * 100)%float p1
    else p1.

(** [func (p *Position) ShouldTakeProfit() bool]. *)
Definition ShouldTakeProfit (p : Position) : bool :=
  PositionStatus_eqb (Status p) PositionOpen
  && (TakeProfitPrice p <=? CurrentPrice p)%float.

(** The formulas of the specification, over binary64. *)
Definition spec_pnl (p : Position) : float :=
  ((CurrentPrice p - EntryPrice p) * Quantity p)%float.

Definition spec_roe (p : Position) : float :=
  (spec_pnl p / ((EntryPrice p * Quantity p) / float64_of_int (Leverage p)) * 100)%float.

(** A float is positive: [0 < x] as Go evaluates it (false on NaN). *)
Definition fpos (x : float) : Prop := (0 <? x)%float = true.

(** The recomputation as the specification words it, for one position. *)
Definition pnl_as_specified (p : Position) : Prop :=
  fpos (EntryPrice p) -> fpos (CurrentPrice p) -> fpos (Quantity p) ->
  0 < Leverage p ->
  CurrentPNL (CalculatePNL p) = spec_pnl p /\ ROE (CalculatePNL p) = spec_roe p.

Definition sample_user : User := mkUser 1 1001 100 10 200 true.

(** A position of 2 units bought at 100, now at 110, 10x leverage. *)
Definition sample_position : Position :=
  mkPosition 1 "ord-1" 1 "TOSHI" "TOSHIUSDT" 100 110 2 10 300 0 0
    PositionOpen 0 None sample_user.

(** A position whose entry price and quantity are both 2^-600: their
    product is below the smallest binary64 subnormal and rounds to 0. *)
Definition tiny_position : Position :=
  mkPosition 2 "ord-2" 1 "TOSHI" "TOSHIUSDT" 0x1p-600 1 0x1p-600 1 300 0 0
    PositionOpen 0 None sample_user.

(** A position with a zero entry price. *)
Definition unpriced_position : Position :=
  mkPosition 3 "ord-3" 1 "TOSHI" "TOSHIUSDT" 0 110 2 10 300 7 9
    PositionOpen 0 None sample_user.

(** *** Comparison facts on binary64 *)

Lemma fpos_not_le0 x : fpos x -> (x <=? 0)%float = false.
Proof.
  unfold fpos. rewrite ltb_spec, leb_spec.
  unfold SFltb, SFleb.
  change (Prim2SF 0) with (S754_zero false).
  destruct (Prim2SF x) as [s | s | | s m e]; simpl; try discriminate;
    destruct s; simpl; intros H; try discriminate; reflexivity.
Qed.

Lemma float_neq (x y : float) : Prim2SF x <> Prim2SF y -> x <> y.
Proof. intros H ->. now apply H. Qed.

Lemma CalculatePNL_guarded p :
  ((EntryPrice p <=? 0) || (CurrentPrice p <=? 0) || (Quantity p <=? 0))%float = true ->
  CalculatePNL p = p.
Proof. unfold CalculatePNL. now intros ->. Qed.

Lemma CalculatePNL_live p :
  ((EntryPrice p <=? 0) || (CurrentPrice p <=? 0) || (Quantity p <=? 0))%float = false ->
  CalculatePNL p =
    let p1 := set_CurrentPNL (spec_pnl p) p in
    if (0 <? margin p)%float then set_ROE (spec_roe p) p1 else p1.
Proof. unfold CalculatePNL. now intros ->. Qed.

Lemma positive_passes_guard p :
  fpos (EntryPrice p) -> fpos (CurrentPrice p) -> fpos (Quantity p) ->
  ((EntryPrice p <=? 0) || (CurrentPrice p <=? 0) || (Quantity p <=? 0))%float = false.
Proof.
  intros HE HC HQ.
  now rewrite (fpos_not_le0 _ HE), (fpos_not_le0 _ HC), (fpos_not_le0 _ HQ).
Qed.

(** With a margin that is not positive only the P&L is written. *)
Lemma CalculatePNL_no_margin p :
  fpos (EntryPrice p) -> fpos (CurrentPrice p) -> fpos (Quantity p) ->
  (0 <? margin p)%float = false ->
  CalculatePNL p = set_CurrentPNL (spec_pnl p) p.
Proof.
  intros HE HC HQ Hm.
  rewrite CalculatePNL_live by now apply positive_passes_guard.
  cbv zeta. now rewrite Hm.
Qed.

(** The recomputation writes [CurrentPNL] and [ROE] and nothing else. *)
Lemma CalculatePNL_frame p :
  let p' := CalculatePNL p in
  ID p' = ID p /\ PositionID p' = PositionID p /\ UserID p' = UserID p /\
  CoinSymbol p' = CoinSymbol p /\ Symbol p' = Symbol p /\
  EntryPrice p' = EntryPrice p /\ CurrentPrice p' = CurrentPrice p /\
  Quantity p' = Quantity p /\ Leverage p' = Leverage p /\
  TakeProfitPrice p' = TakeProfitPrice p /\ Status p' = Status p /\
  OpenedAt p' = OpenedAt p /\ ClosedAt p' = ClosedAt p /\ Owner p' = Owner p.
Proof.
  cbv zeta. unfold CalculatePNL.
  destruct ((EntryPrice p <=? 0) || (CurrentPrice p <=? 0) || (Quantity p <=? 0))%float.
  - repeat split.
  - cbv zeta. destruct (0 <? margin _)%float; repeat split.
Qed.

(** C9, as amended: for a position whose entry price, current price,
    quantity and leverage are positive and whose margin
    [(EntryPrice * Quantity) / Leverage], as computed in binary64, is
    positive, the recomputation sets
    [CurrentPNL = (CurrentPrice - EntryPrice) * Quantity] and
    [ROE = CurrentPNL / ((EntryPrice * Quantity) / Leverage) * 100]. *)
Theorem CalculatePNL_sets_pnl_and_roe (p : Position) :
  fpos (EntryPrice p) -> fpos (CurrentPrice p) -> fpos (Quantity p) ->
  0 < Leverage p ->
  fpos (margin p) ->
  CurrentPNL (CalculatePNL p) = spec_pnl p /\
  ROE (CalculatePNL p) = spec_roe p /\
  ROE (CalculatePNL p)
    = (CurrentPNL (CalculatePNL p) / margin p * 100)%float.
Proof.
  intros HE HC HQ _ Hm.
  rewrite CalculatePNL_live by now apply positive_passes_guard.
  cbv zeta. unfold fpos in Hm. rewrite Hm. simpl.
  repeat split.
Qed.

Lemma CalculatePNL_sets_pnl_and_roe_witness :
  CurrentPNL (CalculatePNL sample_position) = 20%float /\
  ROE (CalculatePNL sample_position) = 100%float.
Proof.
  destruct (CalculatePNL_sets_pnl_and_roe sample_position) as (Hp & Hr & _);
    try reflexivity.
  rewrite Hp, Hr. split; reflexivity.
Defined.

(** C9, as stated, fails where the margin underflows: all four inputs
    are positive, the margin is computed as 0, the guard [margin > 0]
    skips the assignment and [ROE] keeps its old value 0, where the
    formula gives +infinity. *)
Lemma CalculatePNL_roe_underflow : ~ pnl_as_specified tiny_position.
Proof.
  unfold pnl_as_specified. intros H.
  destruct H as [_ H]; try reflexivity.
  revert H. apply float_neq. vm_compute. discriminate.
Qed.

(** C10: when [EntryPrice <= 0], [CurrentPrice <= 0] or [Quantity <= 0]
    the recomputation returns before any assignment or division: the
    position, [CurrentPNL] and [ROE] included, is left as it was. *)
Theorem CalculatePNL_noop (p : Position) :
  (EntryPrice p <=? 0)%float = true \/
  (CurrentPrice p <=? 0)%float = true \/
  (Quantity p <=? 0)%float = true ->
  CalculatePNL p = p.
Proof.
  intros H. apply CalculatePNL_guarded.
  destruct H as [-> | [-> | ->]]; rewrite ?orb_true_r; reflexivity.
Qed.

Lemma CalculatePNL_noop_witness :
  CalculatePNL unpriced_position = unpriced_position /\
  CurrentPNL (CalculatePNL unpriced_position) = 7%float /\
  ROE (CalculatePNL unpriced_position) = 9%float.
Proof.
  rewrite (CalculatePNL_noop unpriced_position).
  - repeat split.
  - left. reflexivity.
Defined.

(** X1: the recomputation is idempotent: it reads only the prices, the
    quantity and the leverage, none of which it writes, so a second
    call in a row leaves every field as the first call set it. *)
Theorem CalculatePNL_idempotent (p : Position) :
  CalculatePNL (CalculatePNL p) = CalculatePNL p.
Proof.
  destruct p as [i pid uid coin sym e c q l tp pnl roe st o cl ow].
  unfold CalculatePNL, margin, set_ROE, set_CurrentPNL. cbn.
  destruct ((e <=? 0) || (c <=? 0) || (q <=? 0))%float eqn:G; cbn.
  - now rewrite G.
  - destruct (0 <? e * q / float64_of_int l)%float eqn:M; cbn; rewrite G; cbn;
      rewrite M; reflexivity.
Qed.

End Models.

(** ** Supervisors ([safeGo] of main.go, [safeGoTE] of trading_engine.go) *)

Module Supervisor.

(** How one call of the supervised [fn] ends.  A task is a function from
    the number of the run to its outcome: [fn] is a closure over mutable
    state, so successive runs need not end alike. *)
Inductive outcome : Set :=
| Returns      (* fn() returns *)
| Panics       (* fn() panics *)
| Blocks.      (* fn() never returns: the goroutine stays inside it *)

Definition task : Set := nat -> outcome.

(** What the supervising goroutine does, in order. *)
Inductive event : Set :=
| Run (k : nat)            (* fn() is called, for the k-th time (from 0) *)
| LogPanic                 (* "PANIC RECOVERED in ..." *)
| LogRestart               (* "Restarting ... in 10 seconds..." *)
| Sleep (d : Z)            (* time.Sleep(d) *)
| LogCompleted.            (* "... completed normally" *)

(** Where the supervising goroutine is when the observation ends. *)
Inductive status : Set :=
| Exited       (* the goroutine left its loop and ended *)
| InTask       (* it is inside a call of fn that never returns *)
| Looping.     (* it is about to start the next iteration *)

(** The body of one iteration of [safeGo]'s loop: the inner closure with
    its deferred recover.  [None] when [fn] blocks, else the events and
    the value of [shouldRestart] when the closure has returned. *)
Definition safeGo_iteration (fn : task) (k : nat) : list event * option bool :=
  match fn k with
  | Returns => ([Run k; LogCompleted], Some false)
  | Panics => ([Run k; LogPanic; LogRestart; Sleep (10 * Second)], Some true)
  | Blocks => ([Run k], None)
  end.

(** [safeGo]'s goroutine, observed for at most [fuel] iterations:
    [for { ...; if !shouldRestart { break } }]. *)
Fixpoint safeGo (fuel : nat) (fn : task) (k : nat) : list event * status :=
  match fuel with
  | O => ([], Looping)
  | S fuel' =>
    match safeGo_iteration fn k with
    | (evs, None) => (evs, InTask)
    | (evs, Some false) => (evs, Exited)
    | (evs, Some true) =>
      let (rest, st) := safeGo fuel' fn (S k) in (evs ++ rest, st)
    end
  end.

(** The body of one iteration of [safeGoTE]'s loop.  Both [return]
    statements, the one in the deferred function and the one after
    [fn()], leave the inner closure only: the closure hands nothing to
    the loop around it.  [false] when [fn] blocks. *)
Definition safeGoTE_iteration (fn : task) (k : nat) : list event * bool :=
  match fn k with
  | Returns => ([Run k; LogCompleted], true)
  | Panics => ([Run k; LogPanic; LogRestart; Sleep (10 * Second)], true)
  | Blocks => ([Run k], false)
  end.

(** [safeGoTE]'s goroutine, observed for at most [fuel] iterations:
    [for { func() { ... }() }], a loop without [break]. *)
Fixpoint safeGoTE (fuel : nat) (fn : task) (k : nat) : list event * status :=
  match fuel with
  | O => ([], Looping)
  | S fuel' =>
    match safeGoTE_iteration fn k with
    | (evs, false) => (evs, InTask)
    | (evs, true) =>
      let (rest, st) := safeGoTE fuel' fn (S k) in (evs ++ rest, st)
    end
  end.

(** The number of calls of [fn] in a trace. *)
Fixpoint runs (evs : list event) : nat :=
  match evs with
  | [] => O
  | Run _ :: evs' => S (runs evs')
  | _ :: evs' => runs evs'
  end.

(** The events of one contained panic. *)
Definition panic_round (k : nat) : list event :=
  [Run k; LogPanic; LogRestart; Sleep (10 * Second)].

(** [n] contained panics in a row, from run [k] on. *)
Fixpoint panic_rounds (n k : nat) : list event :=
  match n with
  | O => []
  | S n' => panic_round k ++ panic_rounds n' (S k)
  end.

(** [n] normal completions in a row, from run [k] on. *)
Fixpoint completed_rounds (n k : nat) : list event :=
  match n with
  | O => []
  | S n' => [Run k; LogCompleted] ++ completed_rounds n' (S k)
  end.

(** A task that returns at once, every time: for instance the closure
    [handleNewCoin] hands to [safeGoTE], once its trade is placed. *)
Definition returning_task : task := fun _ => Returns.

(** A task that panics twice and then returns. *)
Definition flaky_task : task := fun k => if (k <? 2)%nat then Panics else Returns.

(** The time a trace spends in [time.Sleep]. *)
Fixpoint slept (evs : list event) : Z :=
  match evs with
  | [] => 0
  | Sleep d :: evs' => d + slept evs'
  | _ :: evs' => slept evs'
  end.

(** *** [safeGo] restarts on panic only *)

Lemma safeGo_return fuel fn k :
  fn k = Returns ->
  safeGo (S fuel) fn k = ([Run k; LogCompleted], Exited).
Proof. intros H. simpl. unfold safeGo_iteration. now rewrite H. Qed.

Lemma safeGo_panic fuel fn k :
  fn k = Panics ->
  safeGo (S fuel) fn k =
    (panic_round k ++ fst (safeGo fuel fn (S k)), snd (safeGo fuel fn (S k))).
Proof.
  intros H. simpl. unfold safeGo_iteration. rewrite H.
  now destruct (safeGo fuel fn (S k)).
Qed.

(** A task that panics [n] times and then returns is run [n + 1] times
    by [safeGo], with a 10 second pause after each panic, and the
    goroutine then ends: whatever the task would do on a further run, no
    further run happens. *)
Lemma safeGo_restarts_on_panic_only n : forall fn k fuel,
  (forall i, (i < n)%nat -> fn (k + i)%nat = Panics) ->
  fn (k + n)%nat = Returns ->
  (n < fuel)%nat ->
  safeGo fuel fn k = (panic_rounds n k ++ [Run (k + n)%nat; LogCompleted], Exited).
Proof.
  induction n as [|n IH]; intros fn k fuel Hp Hr Hf.
  - destruct fuel as [|fuel]; [lia|].
    rewrite Nat.add_0_r in *. now rewrite safeGo_return.
  - destruct fuel as [|fuel]; [lia|].
    rewrite safeGo_panic
      by (specialize (Hp O ltac:(lia)); now rewrite Nat.add_0_r in Hp).
    rewrite (IH fn (S k) fuel).
    + simpl. repeat f_equal; lia.
    + intros i Hi. replace (S k + i)%nat with (k + S i)%nat by lia.
      apply Hp. lia.
    + now replace (S k + n)%nat with (k + S n)%nat by lia.
    + lia.
Qed.

Example safeGo_flaky :
  safeGo 5 flaky_task 0
  = ([Run 0; LogPanic; LogRestart; Sleep 10000000000;
      Run 1; LogPanic; LogRestart; Sleep 10000000000;
      Run 2; LogCompleted]%nat, Exited).
Proof. reflexivity. Qed.

Example safeGoTE_flaky :
  safeGoTE 5 flaky_task 0
  = ([Run 0; LogPanic; LogRestart; Sleep 10000000000;
      Run 1; LogPanic; LogRestart; Sleep 10000000000;
      Run 2; LogCompleted; Run 3; LogCompleted; Run 4; LogCompleted]%nat,
     Looping).
Proof. reflexivity. Qed.

Lemma runs_app a b : runs (a ++ b) = (runs a + runs b)%nat.
Proof.
  induction a as [|e a IH]; [reflexivity|].
  destruct e; simpl; now rewrite ?IH.
Qed.

(** *** [safeGoTE] restarts always *)

Lemma safeGoTE_return fuel fn k :
  fn k = Returns ->
  safeGoTE (S fuel) fn k =
    ([Run k; LogCompleted] ++ fst (safeGoTE fuel fn (S k)),
     snd (safeGoTE fuel fn (S k))).
Proof.
  intros H. simpl. unfold safeGoTE_iteration. rewrite H.
  now destruct (safeGoTE fuel fn (S k)).
Qed.

Lemma safeGoTE_panic fuel fn k :
  fn k = Panics ->
  safeGoTE (S fuel) fn k =
    (panic_round k ++ fst (safeGoTE fuel fn (S k)), snd (safeGoTE fuel fn (S k))).
Proof.
  intros H. simpl. unfold safeGoTE_iteration. rewrite H.
  now destruct (safeGoTE fuel fn (S k)).
Qed.

(** After a normal return [safeGoTE] calls the task again. *)
Lemma safeGoTE_runs_again_after_return fuel fn k :
  fn k = Returns ->
  exists rest,
    fst (safeGoTE (S (S fuel)) fn k) = [Run k; LogCompleted; Run (S k)] ++ rest.
Proof.
  intros H. rewrite safeGoTE_return by assumption. cbn [fst].
  simpl. unfold safeGoTE_iteration.
  destruct (fn (S k)); [| |now eexists];
    destruct (safeGoTE fuel fn (S (S k))); now eexists.
Qed.

(** [safeGoTE]'s goroutine never leaves its loop. *)
Lemma safeGoTE_never_exits fuel : forall fn k, snd (safeGoTE fuel fn k) <> Exited.
Proof.
  induction fuel as [|fuel IH]; intros fn k; simpl; [discriminate|].
  unfold safeGoTE_iteration.
  destruct (fn k); simpl; try discriminate;
    specialize (IH fn (S k)); now destruct (safeGoTE fuel fn (S k)).
Qed.

Lemma safeGoTE_returning fuel : forall k,
  safeGoTE fuel returning_task k = (completed_rounds fuel k, Looping).
Proof.
  induction fuel as [|fuel IH]; intros k; [reflexivity|].
  rewrite safeGoTE_return by reflexivity. now rewrite IH.
Qed.

Lemma runs_completed_rounds n : forall k, runs (completed_rounds n k) = n.
Proof.
  induction n as [|n IH]; intros k; [reflexivity|].
  simpl. now rewrite IH.
Qed.

(** C1, on a panic, holds for both supervisors: the panic is contained,
    logged, followed by a 10 second sleep and a fresh call of [fn]. *)
Lemma both_restart_after_panic fuel fn k :
  fn k = Panics ->
  fst (safeGo (S (S fuel)) fn k)
    = panic_round k ++ fst (safeGo (S fuel) fn (S k)) /\
  fst (safeGoTE (S (S fuel)) fn k)
    = panic_round k ++ fst (safeGoTE (S fuel) fn (S k)) /\
  hd_error (fst (safeGo (S fuel) fn (S k))) = Some (Run (S k)) /\
  hd_error (fst (safeGoTE (S fuel) fn (S k))) = Some (Run (S k)).
Proof.
  intros H. rewrite safeGo_panic, safeGoTE_panic by assumption.
  repeat split; simpl.
  - unfold safeGo_iteration. destruct (fn (S k)); try reflexivity.
    now destruct (safeGo fuel fn (S (S k))).
  - unfold safeGoTE_iteration. destruct (fn (S k)); try reflexivity;
      now destruct (safeGoTE fuel fn (S (S k))).
Qed.

(** C1 fails for [safeGoTE]: a task that returns normally is logged as
    completed and then called again, at once and without end.  Observed
    for [n] iterations, the supervisor has called it [n] times and is
    still looping; after the first normal return the next event is the
    second call. *)
Theorem safeGoTE_reruns_returned_task (n : nat) :
  runs (fst (safeGoTE n returning_task 0)) = n /\
  snd (safeGoTE n returning_task 0) = Looping /\
  safeGoTE 3 returning_task 0
    = ([Run 0; LogCompleted; Run 1; LogCompleted; Run 2; LogCompleted]%nat, Looping) /\
  safeGo 3 returning_task 0 = ([Run 0%nat; LogCompleted], Exited).
Proof.
  rewrite safeGoTE_returning. simpl fst. simpl snd.
  rewrite runs_completed_rounds. repeat split.
Qed.

Lemma runs_panic_rounds n : forall k, runs (panic_rounds n k) = n.
Proof.
  induction n as [|n IH]; intros k; [reflexivity|].
  simpl. now rewrite IH.
Qed.

Lemma slept_panic_rounds n : forall k,
  slept (panic_rounds n k) = Z.of_nat n * (10 * Second).
Proof.
  induction n as [|n IH]; intros k; [reflexivity|].
  cbn [panic_rounds panic_round app slept]. rewrite IH. lia.
Qed.

Lemma safeGo_panicking n : forall fn k,
  (forall i, (i < n)%nat -> fn (k + i)%nat = Panics) ->
  safeGo n fn k = (panic_rounds n k, Looping).
Proof.
  induction n as [|n IH]; intros fn k Hp; [reflexivity|].
  rewrite safeGo_panic
    by (specialize (Hp O ltac:(lia)); now rewrite Nat.add_0_r in Hp).
  rewrite IH; [reflexivity|].
  intros i Hi. replace (S k + i)%nat with (k + S i)%nat by lia. apply Hp. lia.
Qed.

Lemma safeGoTE_panicking n : forall fn k,
  (forall i, (i < n)%nat -> fn (k + i)%nat = Panics) ->
  safeGoTE n fn k = (panic_rounds n k, Looping).
Proof.
  induction n as [|n IH]; intros fn k Hp; [reflexivity|].
  rewrite safeGoTE_panic
    by (specialize (Hp O ltac:(lia)); now rewrite Nat.add_0_r in Hp).
  rewrite IH; [reflexivity|].
  intros i Hi. replace (S k + i)%nat with (k + S i)%nat by lia. apply Hp. lia.
Qed.

(** X2: neither supervisor limits or spaces out its restarts: a task
    whose first [n] runs all panic is run [n] times in [n] iterations,
    every panic followed by the same 10 second sleep, and the supervisor
    is still looping, ready to run it once more. *)
Theorem restarts_are_unbounded (n : nat) (fn : task) :
  (forall i, (i < n)%nat -> fn i = Panics) ->
  safeGo n fn 0 = (panic_rounds n 0, Looping) /\
  safeGoTE n fn 0 = (panic_rounds n 0, Looping) /\
  runs (panic_rounds n 0) = n /\
  slept (panic_rounds n 0) = Z.of_nat n * (10 * Second).
Proof.
  intros Hp.
  rewrite safeGo_panicking, safeGoTE_panicking by exact Hp.
  rewrite runs_panic_rounds, slept_panic_rounds. repeat split.
Qed.

Lemma restarts_are_unbounded_witness :
  safeGo 2 flaky_task 0 = (panic_rounds 2 0, Looping) /\
  slept (panic_rounds 2 0) = 20 * Second.
Proof.
  destruct (restarts_are_unbounded 2 flaky_task) as (H1 & _ & _ & H2).
  - intros i Hi. destruct i as [|[|i]]; [reflexivity | reflexivity | lia].
  - split; [exact H1 | exact H2].
Defined.

End Supervisor.

(** ** The feed poller ([services/upbit_monitor.go]) *)

Module UpbitMonitor.

Local Open Scope Z_scope.

(** *** Bytes and strings

    A title is a Go string, a sequence of bytes.  The two patterns of
    [extractCoinSymbols] name ASCII bytes only ([(], [)], [A-Z]) and
    RE2's [\b] is the ASCII word boundary, so every byte of a multi-byte
    UTF-8 rune acts as one non-word, non-letter character: matching byte
    by byte finds the same matches as matching rune by rune. *)

Definition is_upper (c : ascii) : bool :=
  let n := nat_of_ascii c in (65 <=? n)%nat && (n <=? 90)%nat.

Definition is_lower (c : ascii) : bool :=
  let n := nat_of_ascii c in (97 <=? n)%nat && (n <=? 122)%nat.

Definition is_digit (c : ascii) : bool :=
  let n := nat_of_ascii c in (48 <=? n)%nat && (n <=? 57)%nat.

(** A word character of [\b]: [0-9A-Za-z_]. *)
Definition is_word (c : ascii) : bool :=
  is_upper c || is_lower c || is_digit c || (nat_of_ascii c =? 95)%nat.

Definition is_space (c : ascii) : bool :=
  let n := nat_of_ascii c in ((9 <=? n)%nat && (n <=? 13)%nat) || (n =? 32)%nat.

Fixpoint take (n : nat) (s : string) : string :=
  match n, s with
  | S n', String c r => String c (take n' r)
  | _, _ => EmptyString
  end.

Fixpoint all_chars (f : ascii -> bool) (s : string) : bool :=
  match s with
  | EmptyString => true
  | String c r => f c && all_chars f r
  end.

Fixpoint count_chars (f : ascii -> bool) (s : string) : nat :=
  match s with
  | EmptyString => O
  | String c r => ((if f c then 1 else 0) + count_chars f r)%nat
  end.

(** The length of the longest prefix of [A-Z] bytes. *)
Fixpoint upper_run (s : string) : nat :=
  match s with
  | String c r => if is_upper c then S (upper_run r) else O
  | EmptyString => O
  end.

(** [strings.ToUpper], on ASCII. *)
Fixpoint ToUpper (s : string) : string :=
  match s with
  | EmptyString => EmptyString
  | String c r =>
    String (if is_lower c then ascii_of_nat (nat_of_ascii c - 32) else c) (ToUpper r)
  end.

Fixpoint trim_left (s : string) : string :=
  match s with
  | String c r => if is_space c then trim_left r else s
  | EmptyString => EmptyString
  end.

Fixpoint trim_right (s : string) : string :=
  match s with
  | EmptyString => EmptyString
  | String c r =>
    match trim_right r with
    | EmptyString => if is_space c then EmptyString else String c EmptyString
    | r' => String c r'
    end
  end.

(** [strings.TrimSpace], on ASCII white space. *)
Definition TrimSpace (s : string) : string := trim_right (trim_left s).

(** *** The two patterns

    A backtracking matcher tries a greedy repetition at its longest
    count first and then at each shorter one: [first_down ok lo k] is the
    first count from [k] down to [lo] at which the rest of the pattern,
    [ok], matches. *)
Fixpoint first_down (ok : nat -> bool) (lo k : nat) : option nat :=
  if (k <? lo)%nat then None
  else if ok k then Some k
  else match k with
       | O => None
       | S k' => first_down ok lo k'
       end.

Definition get_is (f : ascii -> bool) (n : nat) (s : string) : bool :=
  match String.get n s with
  | Some c => f c
  | None => false
  end.

(** Pattern 1, [\(([A-Z]+)\)], anchored at the head of [s]: the text of
    group 1 when it matches. *)
Definition match_paren (s : string) : option string :=
  match s with
  | String c r =>
    if (nat_of_ascii c =? 40)%nat then
      match first_down (fun k => get_is (fun d => (nat_of_ascii d =? 41)%nat) k r)
                       1 (upper_run r) with
      | Some k => Some (take k r)
      | None => None
      end
    else None
  | EmptyString => None
  end.

(** [\b] between two neighbouring bytes ([None] at either end of the text). *)
Definition word_boundary (before after : option ascii) : bool :=
  xorb (from_option is_word false before) (from_option is_word false after).

(** Pattern 2, [\b([A-Z]{2,10})\b], anchored at the head of [s], whose
    left neighbour is [prev]. *)
Definition match_word (prev : option ascii) (s : string) : option string :=
  if word_boundary prev (String.get 0 s) then
    match first_down
            (fun k => word_boundary (String.get (k - 1) s) (String.get k s))
            2 (Nat.min (upper_run s) 10) with
    | Some k => Some (take k s)
    | None => None
    end
  else None.

(** [re1.FindAllStringSubmatch(title, -1)], group 1 of every match:
    leftmost matches, none overlapping.  [skip] counts the bytes of the
    last match still to step over. *)
Fixpoint find_paren (skip : nat) (s : string) : list string :=
  match s with
  | EmptyString => []
  | String c r =>
    match skip with
    | S k => find_paren k r
    | O =>
      match match_paren s with
      | Some cap => cap :: find_paren (String.length cap + 1) r
      | None => find_paren O r
      end
    end
  end.

(** [re2.FindAllStringSubmatch(title, -1)], group 1 of every match. *)
Fixpoint find_word (prev : option ascii) (skip : nat) (s : string) : list string :=
  match s with
  | EmptyString => []
  | String c r =>
    match skip with
    | S k => find_word (Some c) k r
    | O =>
      match match_word prev s with
      | Some cap => cap :: find_word (Some c) (String.length cap - 1) r
      | None => find_word (Some c) O r
      end
    end
  end.

(** *** Validation and the stoplist *)

(** [isValidCoinSymbol]. *)
Definition isValidCoinSymbol (symbol : string) : bool :=
  if (String.length symbol <? 2)%nat || (10 <? String.length symbol)%nat then false
  else if all_chars (fun c => is_upper c || is_digit c) symbol
       then (Nat.div (String.length symbol) 2 <=? count_chars is_upper symbol)%nat
       else false.

Definition commonWords : list string :=
  ["FOR"; "THE"; "AND"; "WITH"; "MARKET";
   "SUPPORT"; "NEW"; "TRADING"; "KRW"; "USDT";
   "USD"; "BTC"; "ETH"; "ANNOUNCEMENT"].

(** [isCommonWord]. *)
Definition isCommonWord (word : string) : bool :=
  existsb (String.eqb word) commonWords.

(** [removeDuplicates]: the first occurrence of each symbol, in order. *)
Fixpoint removeDuplicates_from (seen : gset string) (symbols : list string) : list string :=
  match symbols with
  | [] => []
  | symbol :: rest =>
    if decide (symbol ∈ seen) then removeDuplicates_from seen rest
    else symbol :: removeDuplicates_from ({[symbol]} ∪ seen) rest
  end.

Definition removeDuplicates (symbols : list string) : list string :=
  removeDuplicates_from ∅ symbols.

(** The symbol built from one match: [ToUpper(TrimSpace(match[1]))]. *)
Definition symbol_of (cap : string) : string := ToUpper (TrimSpace cap).

(** The symbols the first loop appends. *)
Definition paren_symbols (title : string) : list string :=
  List.filter isValidCoinSymbol (map symbol_of (find_paren O title)).

(** The symbols the second loop appends. *)
Definition word_symbols (title : string) : list string :=
  List.filter (fun s => isValidCoinSymbol s && negb (isCommonWord s))
    (map symbol_of (find_word None O title)).

(** [extractCoinSymbols]. *)
Definition extractCoinSymbols (title : string) : list string :=
  removeDuplicates (paren_symbols title ++ word_symbols title).

(** *** [strconv.Atoi]

    Go's library function, on a 64-bit platform: an optional sign, then
    one or more decimal digits and nothing else; a value outside
    [int64] is an error. *)
Fixpoint digits_value (acc : Z) (s : string) : option Z :=
  match s with
  | EmptyString => Some acc
  | String c r =>
    if is_digit c
    then digits_value (10 * acc + (Z.of_nat (nat_of_ascii c) - 48)) r
    else None
  end.

Definition Atoi (s : string) : option Z :=
  match s with
  | EmptyString => None
  | String c r =>
    let neg := (nat_of_ascii c =? 45)%nat in
    let body := if neg || (nat_of_ascii c =? 43)%nat then r else s in
    match body with
    | EmptyString => None
    | _ =>
      match digits_value 0 body with
      | Some n =>
        let v := if neg then - n else n in
        if (MinInt64 <=? v) && (v <=? MaxInt64) then Some v else None
      | None => None
      end
    end
  end.

(** *** The monitor *)

Record Monitor : Type := mkMonitor {
  processedCoins : gset string;     (* map[string]bool, used as a set *)
  newCoinChannel : list string;     (* chan string, capacity 100 *)
  testCoinChannel : list string;    (* chan string, capacity 10 *)
  lastETag : string;
  lastModified : string;
  backoffUntil : Z;                 (* time.Time *)
  failureCount : Z                  (* int *)
}.

Definition newCoinCapacity : nat := 100.
Definition testCoinCapacity : nat := 10.

(** [NewUpbitMonitor]: nothing processed, empty channels, zero times. *)
Definition NewUpbitMonitor : Monitor := mkMonitor ∅ [] [] "" "" 0 0.

Definition set_processedCoins (v : gset string) (um : Monitor) : Monitor :=
  mkMonitor v (newCoinChannel um) (testCoinChannel um) (lastETag um)
    (lastModified um) (backoffUntil um) (failureCount um).

Definition set_newCoinChannel (v : list string) (um : Monitor) : Monitor :=
  mkMonitor (processedCoins um) v (testCoinChannel um) (lastETag um)
    (lastModified um) (backoffUntil um) (failureCount um).

Definition set_testCoinChannel (v : list string) (um : Monitor) : Monitor :=
  mkMonitor (processedCoins um) (newCoinChannel um) v (lastETag um)
    (lastModified um) (backoffUntil um) (failureCount um).

Definition set_validators (etag modified : string) (um : Monitor) : Monitor :=
  mkMonitor (processedCoins um) (newCoinChannel um) (testCoinChannel um)
    etag modified (backoffUntil um) (failureCount um).

Definition set_backoffUntil (v : Z) (um : Monitor) : Monitor :=
  mkMonitor (processedCoins um) (newCoinChannel um) (testCoinChannel um)
    (lastETag um) (lastModified um) v (failureCount um).

Definition set_failureCount (v : Z) (um : Monitor) : Monitor :=
  mkMonitor (processedCoins um) (newCoinChannel um) (testCoinChannel um)
    (lastETag um) (lastModified um) (backoffUntil um) v.

(** The two queues of the event bus. *)
Inductive queue : Set := NewCoinQueue | TestCoinQueue.

(** What a non-blocking send did with its value. *)
Inductive emission : Set :=
| Queued (q : queue) (payload : string)
| Dropped (q : queue) (payload : string).

(** [isNewCoin]. *)
Definition isNewCoin (symbol : string) (um : Monitor) : bool :=
  negb (bool_decide (symbol ∈ processedCoins um)).

(** [markCoinAsProcessed]. *)
Definition markCoinAsProcessed (symbol : string) (um : Monitor) : Monitor :=
  set_processedCoins ({[symbol]} ∪ processedCoins um) um.

(** [select { case um.newCoinChannel <- coin: ... default: ... }]. *)
Definition send_newCoin (coin : string) (um : Monitor) : Monitor * list emission :=
  if (length (newCoinChannel um) <? newCoinCapacity)%nat
  then (set_newCoinChannel (newCoinChannel um ++ [coin]) um, [Queued NewCoinQueue coin])
  else (um, [Dropped NewCoinQueue coin]).

Definition send_testCoin (testData : string) (um : Monitor) : Monitor * list emission :=
  if (length (testCoinChannel um) <? testCoinCapacity)%nat
  then (set_testCoinChannel (testCoinChannel um ++ [testData]) um,
        [Queued TestCoinQueue testData])
  else (um, [Dropped TestCoinQueue testData]).

(** The body of the loop over [coins] in [parseAnnouncements]. *)
Definition process_coin (coin : string) (um : Monitor) : Monitor * list emission :=
  if isNewCoin coin um
  then send_newCoin coin (markCoinAsProcessed coin um)
  else (um, []).

Fixpoint process_coins (coins : list string) (um : Monitor) : Monitor * list emission :=
  match coins with
  | [] => (um, [])
  | coin :: rest =>
    let (um1, out1) := process_coin coin um in
    let (um2, out2) := process_coins rest um1 in
    (um2, out1 ++ out2)
  end.

(** [InjectTestCoin]. *)
Definition InjectTestCoin (coinSymbol : string) (um : Monitor) : Monitor * list emission :=
  if bool_decide (coinSymbol ∈ processedCoins um) then (um, [])
  else send_newCoin coinSymbol (markCoinAsProcessed coinSymbol um).

(** [InjectTestCoinForUser]: [fmt.Sprintf("%s:%d", coinSymbol, userID)]
    goes to the test channel; the processed set is not consulted. *)
Definition InjectTestCoinForUser (coinSymbol : string) (userID : Z) (um : Monitor)
  : Monitor * list emission :=
  send_testCoin (coinSymbol ++ ":" ++ pretty userID)%string um.

(** [ClearProcessedCoins]. *)
Definition ClearProcessedCoins (um : Monitor) : Monitor := set_processedCoins ∅ um.

(** The dispatcher's receive on either channel. *)
Definition receive (q : queue) (um : Monitor) : Monitor :=
  match q with
  | NewCoinQueue => set_newCoinChannel (tail (newCoinChannel um)) um
  | TestCoinQueue => set_testCoinChannel (tail (testCoinChannel um)) um
  end.

(** *** Backoff *)

(** [handleError]: the light backoff, from the third failure in a row. *)
Definition handleError (now : Z) (um : Monitor) : Monitor :=
  let um1 := set_failureCount (wrap64 (failureCount um + 1)) um in
  if 3 <=? failureCount um1
  then set_backoffUntil (now + wrap64 (wrap64 (failureCount um1 * 30) * Second)) um1
  else um1.

(** [1 << uint(n)] on [int]: the shift count is the [uint64] of [n], the
    result wraps to [int64] (it is 0 from a count of 64 on). *)
Definition shl1 (n : Z) : Z := wrap64 (Z.shiftl 1 (n mod 2 ^ 64)).

(** [backoffMinutes] of [applyBackoff], for the incremented count. *)
Definition backoffMinutes (count : Z) : Z :=
  let m := shl1 (wrap64 (count - 1)) in
  if 10 <? m then 10 else m.

(** [applyBackoff]. *)
Definition applyBackoff (now : Z) (um : Monitor) : Monitor :=
  let um1 := set_failureCount (wrap64 (failureCount um + 1)) um in
  let backoffDuration := wrap64 (backoffMinutes (failureCount um1) * Minute) in
  set_backoffUntil (now + backoffDuration) um1.

(** What one poll got back. *)
Record response : Type := mkResponse {
  StatusCode : Z;
  RetryAfter : string;       (* resp.Header.Get("Retry-After"): "" when absent *)
  ETag : string;
  LastModified : string;
  Titles : option (list string)
    (* [None]: the body does not parse; else the trimmed text of every
       selected element, in document order *)
}.

Inductive fetch : Type :=
| FetchFailed                (* httpClient.Do returned an error *)
| Fetched (resp : response).

(** The [case 429] arm of [checkAnnouncements]. *)
Definition rate_limited (now : Z) (retryAfter : string) (um : Monitor) : Monitor :=
  if negb (String.eqb retryAfter "") then
    match Atoi retryAfter with
    | Some seconds =>
      if 0 <? seconds
      then set_backoffUntil (now + wrap64 (seconds * Second)) um
      else applyBackoff now um
    | None => applyBackoff now um
    end
  else applyBackoff now um.

Section Poller.

(** [isMarketSupportAnnouncement], the keyword test on the lower-cased
    title.  Nothing below depends on which titles it accepts. *)
Variable isMarketSupportAnnouncement : string -> bool.

(** The callback of [Each] in [parseAnnouncements], for one title. *)
Definition parse_title (title : string) (um : Monitor) : Monitor * list emission :=
  if String.eqb title "" then (um, [])
  else if isMarketSupportAnnouncement title
       then process_coins (extractCoinSymbols title) um
       else (um, []).

(** [parseAnnouncements]. *)
Fixpoint parseAnnouncements (titles : list string) (um : Monitor)
  : Monitor * list emission :=
  match titles with
  | [] => (um, [])
  | title :: rest =>
    let (um1, out1) := parse_title title um in
    let (um2, out2) := parseAnnouncements rest um1 in
    (um2, out1 ++ out2)
  end.

(** [checkAnnouncements].  [now] is the clock at the backoff test, [at_]
    the clock once the response (or the error) is in.  [http.NewRequest]
    is called with a constant method and URL and does not fail. *)
Definition checkAnnouncements (now at_ : Z) (f : fetch) (um : Monitor)
  : Monitor * list emission :=
  if now <? backoffUntil um then (um, [])
  else
    match f with
    | FetchFailed => (handleError at_ um, [])
    | Fetched resp =>
      if StatusCode resp =? 200 then
        let um1 := set_failureCount 0 um in
        let um2 :=
          set_validators
            (if String.eqb (ETag resp) "" then lastETag um1 else ETag resp)
            (if String.eqb (LastModified resp) "" then lastModified um1
             else LastModified resp) um1 in
        match Titles resp with
        | None => (handleError at_ um2, [])
        | Some titles => parseAnnouncements titles um2
        end
      else if StatusCode resp =? 304 then (set_failureCount 0 um, [])
      else if StatusCode resp =? 429 then (rate_limited at_ (RetryAfter resp) um, [])
      else if StatusCode resp =? 403 then (applyBackoff at_ um, [])
      else (handleError at_ um, [])
    end.

(** One thing that happens to the monitor: a poll, an injection, a
    receive by the dispatcher, or the administrative clear.  Each is one
    call, run to its end before the next: the poller is a single
    goroutine, the only caller of [parseAnnouncements], and the one
    injection the bot calls, [InjectTestCoinForUser], reads and writes
    neither the dedup set nor the production queue.  ([InjectTestCoin]
    and [ClearProcessedCoins] have no caller in the repository.) *)
Inductive operation : Type :=
| Poll (now at_ : Z) (f : fetch)
| Inject (coinSymbol : string)
| InjectForUser (coinSymbol : string) (userID : Z)
| Receive (q : queue)
| Clear.

Definition is_clear (o : operation) : bool :=
  match o with Clear => true | _ => false end.

Definition apply_operation (o : operation) (um : Monitor) : Monitor * list emission :=
  match o with
  | Poll now at_ f => checkAnnouncements now at_ f um
  | Inject coin => InjectTestCoin coin um
  | InjectForUser coin uid => InjectTestCoinForUser coin uid um
  | Receive q => (receive q um, [])
  | Clear => (ClearProcessedCoins um, [])
  end.

(** A session: operations one after another, with all they emitted. *)
Fixpoint session (ops : list operation) (um : Monitor) : Monitor * list emission :=
  match ops with
  | [] => (um, [])
  | o :: rest =>
    let (um1, out1) := apply_operation o um in
    let (um2, out2) := session rest um1 in
    (um2, out1 ++ out2)
  end.

End Poller.

(** The symbol list as the specification describes it: every symbol is
    valid, none is a stoplist word, none occurs twice. *)
Definition symbols_as_specified (title : string) : Prop :=
  (forall symbol, In symbol (extractCoinSymbols title) ->
     isValidCoinSymbol symbol = true /\ isCommonWord symbol = false) /\
  NoDup (extractCoinSymbols title).

(** *** Inputs and observations for the properties below *)

(** A 429 response without a [Retry-After] header. *)
Definition too_many_requests : response := mkResponse 429 "" "" "" None.

(** A 429 response with a [Retry-After] header. *)
Definition retry_after (value : string) : response := mkResponse 429 value "" "" None.

(** A classifier that accepts every title. *)
Definition any_title : string -> bool := fun _ => true.

(** [n] rate-limit responses in a row, each poll made at the first
    instant the previous backoff allows: the delay each one sets,
    [backoffUntil] minus the time of the response. *)
Fixpoint streak (n : nat) (t : Z) (um : Monitor) : list Z :=
  match n with
  | O => []
  | S n' =>
    let um' := fst (checkAnnouncements any_title t t (Fetched too_many_requests) um) in
    (backoffUntil um' - t) :: streak n' (backoffUntil um') um'
  end.

(** The delay the specification gives the [k]-th response of a streak
    (from 1): [min(2^(k-1), 10)] minutes. *)
Definition specified_delay (k : Z) : Z := Z.min (2 ^ (k - 1)) 10 * Minute.

(** The symbols a list of emissions put on the production queue. *)
Fixpoint queued_new (out : list emission) : list string :=
  match out with
  | [] => []
  | Queued NewCoinQueue symbol :: rest => symbol :: queued_new rest
  | _ :: rest => queued_new rest
  end.

(** What every operation but the clear does to the dedup set: it only
    grows, and each symbol put on the production queue was absent from
    the set before the operation, is in it afterwards, and is queued
    once. *)
Definition fresh_step (um : Monitor) (r : Monitor * list emission) : Prop :=
  processedCoins um ⊆ processedCoins (fst r) /\
  NoDup (queued_new (snd r)) /\
  forall symbol, symbol ∈ queued_new (snd r) ->
    (symbol ∉ processedCoins um) /\ (symbol ∈ processedCoins (fst r)).

(** All that was sent went to the production queue. *)
Definition on_production_queue (out : list emission) : Prop :=
  forall q payload, Queued q payload ∈ out -> q = NewCoinQueue.

(** The emission puts [symbol] on the event bus: as itself on the
    production queue, or scoped to a user on the test queue. *)
Definition emits (symbol : string) (e : emission) : Prop :=
  e = Queued NewCoinQueue symbol \/
  exists userID : Z, e = Queued TestCoinQueue (symbol ++ ":" ++ pretty userID)%string.

(** The dedup invariant as the specification words it: without a clear,
    a marked symbol stays marked and is never emitted onto the event bus
    again. *)
Definition never_reemitted_as_specified (cls : string -> bool)
    (ops : list operation) (um : Monitor) (symbol : string) : Prop :=
  forallb (fun o => negb (is_clear o)) ops = true ->
  symbol ∈ processedCoins um ->
  symbol ∈ processedCoins (fst (session cls ops um)) /\
  forall e, e ∈ snd (session cls ops um) -> ~ emits symbol e.

(** The monitor after its first poll has found [TOSHI]. *)
Definition toshi_seen : Monitor :=
  fst (checkAnnouncements (fun _ => true) 0 0
         (Fetched (mkResponse 200 "" "" "" (Some ["Market Support for Toshi(TOSHI)"%string])))
         NewUpbitMonitor).

(** A monitor whose production queue is full. *)
Definition congested : Monitor :=
  set_newCoinChannel (repeat "X"%string 100) NewUpbitMonitor.

Definition listing_page (title : string) : fetch :=
  Fetched (mkResponse 200 "" "" "" (Some [title])).

(** Neither channel holds more than its buffer. *)
Definition within_capacity (um : Monitor) : Prop :=
  (length (newCoinChannel um) <= newCoinCapacity)%nat /\
  (length (testCoinChannel um) <= testCoinCapacity)%nat.

(** What the dispatcher takes off the production queue in one operation:
    the head of the channel on a receive (nothing from an empty one,
    where the receive waits). *)
Definition delivered (o : operation) (um : Monitor) : list string :=
  match o with
  | Receive NewCoinQueue => firstn 1 (newCoinChannel um)
  | _ => []
  end.

(** The symbols the dispatcher has received, in order, over a session. *)
Fixpoint deliveries (cls : string -> bool) (ops : list operation) (um : Monitor)
  : list string :=
  match ops with
  | [] => []
  | o :: rest =>
    delivered o um ++ deliveries cls rest (fst (apply_operation cls o um))
  end.

(** The byte just before a position: the last byte of the text [pre]
    that precedes it, or [prev] when [pre] is empty. *)
Fixpoint last_byte (prev : option ascii) (pre : string) : option ascii :=
  match pre with
  | EmptyString => prev
  | String c r => last_byte (Some c) r
  end.

(** The text before (after) a token ends (starts) outside a word: it is
    empty or its last (first) byte is not a word character. *)
Definition ends_outside_word (pre : string) : Prop :=
  from_option is_word false (last_byte None pre) = false.

Definition starts_outside_word (post : string) : Prop :=
  from_option is_word false (String.get 0 post) = false.

(** What an operation does to the two channels. *)
Definition channel_step (um : Monitor) (r : Monitor * list emission) : Prop :=
  newCoinChannel (fst r) = newCoinChannel um ++ queued_new (snd r) /\
  testCoinChannel (fst r) = testCoinChannel um /\
  (within_capacity um -> within_capacity (fst r)).

(** *** Facts on bytes and strings *)

Lemma upper_not_space c : is_upper c = true -> is_space c = false.
Proof.
  unfold is_upper, is_space. cbv zeta. generalize (nat_of_ascii c). intros n H.
  apply andb_true_iff in H as [H1 H2]. apply Nat.leb_le in H1, H2.
  apply orb_false_iff. split.
  - apply andb_false_iff. right. apply Nat.leb_gt. lia.
  - apply Nat.eqb_neq. lia.
Qed.

Lemma upper_not_lower c : is_upper c = true -> is_lower c = false.
Proof.
  unfold is_upper, is_lower. cbv zeta. generalize (nat_of_ascii c). intros n H.
  apply andb_true_iff in H as [H1 H2]. apply Nat.leb_le in H1, H2.
  apply andb_false_iff. left. apply Nat.leb_gt. lia.
Qed.

Lemma upper_run_le s : (upper_run s <= String.length s)%nat.
Proof.
  induction s as [|c r IH]; simpl; [lia|]. destruct (is_upper c); lia.
Qed.

Lemma take_length k : forall s,
  (k <= String.length s)%nat -> String.length (take k s) = k.
Proof.
  induction k as [|k IH]; intros [|c r] H; simpl in *; try lia.
  rewrite IH; lia.
Qed.

Lemma take_upper k : forall s,
  (k <= upper_run s)%nat -> all_chars is_upper (take k s) = true.
Proof.
  induction k as [|k IH]; intros [|c r] H; simpl in *; try reflexivity; try lia.
  destruct (is_upper c) eqn:Hc; [|lia].
  simpl. apply IH. lia.
Qed.

Lemma first_down_bounds ok lo k : forall j,
  first_down ok lo k = Some j -> (lo <= j <= k)%nat.
Proof.
  induction k as [|k IH]; intros j; simpl.
  - destruct lo; simpl; [|discriminate].
    destruct (ok O); [|discriminate]. intros [= <-]. lia.
  - destruct (S k <? lo)%nat eqn:Hlo; [discriminate|].
    apply Nat.ltb_ge in Hlo.
    destruct (ok (S k)).
    + intros [= <-]. lia.
    + intros H. apply IH in H. lia.
Qed.

Lemma all_upper_count s :
  all_chars is_upper s = true -> count_chars is_upper s = String.length s.
Proof.
  induction s as [|c r IH]; simpl; [reflexivity|].
  intros H. apply andb_true_iff in H as [Hc Hr].
  rewrite Hc, IH by assumption. reflexivity.
Qed.

Lemma all_upper_trim_right s :
  all_chars is_upper s = true -> trim_right s = s.
Proof.
  induction s as [|c r IH]; simpl; [reflexivity|].
  intros H. apply andb_true_iff in H as [Hc Hr].
  rewrite IH by assumption.
  destruct r; [|reflexivity].
  now rewrite (upper_not_space _ Hc).
Qed.

Lemma all_upper_trim_left s :
  all_chars is_upper s = true -> trim_left s = s.
Proof.
  destruct s as [|c r]; simpl; [reflexivity|].
  intros H. apply andb_true_iff in H as [Hc _].
  now rewrite (upper_not_space _ Hc).
Qed.

Lemma all_upper_ToUpper s :
  all_chars is_upper s = true -> ToUpper s = s.
Proof.
  induction s as [|c r IH]; simpl; [reflexivity|].
  intros H. apply andb_true_iff in H as [Hc Hr].
  now rewrite (upper_not_lower _ Hc), IH.
Qed.

(** On a match of [[A-Z]+] trimming and upper-casing change nothing. *)
Lemma symbol_of_upper cap :
  all_chars is_upper cap = true -> symbol_of cap = cap.
Proof.
  intros H. unfold symbol_of, TrimSpace.
  now rewrite all_upper_trim_left, all_upper_trim_right, all_upper_ToUpper.
Qed.

(** *** What the patterns capture *)

Lemma match_paren_upper s cap :
  match_paren s = Some cap -> all_chars is_upper cap = true.
Proof.
  unfold match_paren. destruct s as [|c r]; [discriminate|].
  destruct (nat_of_ascii c =? 40)%nat; [|discriminate].
  destruct (first_down _ 1 (upper_run r)) as [k|] eqn:Hk; [|discriminate].
  intros [= <-]. apply first_down_bounds in Hk.
  apply take_upper. lia.
Qed.

Lemma match_word_upper prev s cap :
  match_word prev s = Some cap -> all_chars is_upper cap = true.
Proof.
  unfold match_word. destruct (word_boundary prev _); [|discriminate].
  destruct (first_down _ 2 _) as [k|] eqn:Hk; [|discriminate].
  intros [= <-]. apply first_down_bounds in Hk.
  apply take_upper. lia.
Qed.

(** Group 1 of pattern 2 has 2 to 10 bytes. *)
Lemma match_word_length prev s cap :
  match_word prev s = Some cap -> (2 <= String.length cap <= 10)%nat.
Proof.
  unfold match_word. destruct (word_boundary prev _); [|discriminate].
  destruct (first_down _ 2 _) as [k|] eqn:Hk; [|discriminate].
  intros [= <-]. apply first_down_bounds in Hk.
  pose proof (upper_run_le s).
  rewrite take_length; lia.
Qed.

Lemma find_paren_upper s : forall skip cap,
  In cap (find_paren skip s) -> all_chars is_upper cap = true.
Proof.
  induction s as [|c r IH]; intros skip cap; cbn [find_paren]; [intros []|].
  destruct skip as [|k]; [|apply IH].
  destruct (match_paren (String c r)) as [cap'|] eqn:Hm; [|apply IH].
  intros [<- | H]; [|now apply IH in H].
  now apply match_paren_upper in Hm.
Qed.

Lemma find_word_upper s : forall prev skip cap,
  In cap (find_word prev skip s) -> all_chars is_upper cap = true.
Proof.
  induction s as [|c r IH]; intros prev skip cap; cbn [find_word]; [intros []|].
  destruct skip as [|k]; [|apply IH].
  destruct (match_word prev (String c r)) as [cap'|] eqn:Hm; [|apply IH].
  intros [<- | H]; [|now apply IH in H].
  now apply match_word_upper in Hm.
Qed.

(** *** Validation *)

Lemma isValidCoinSymbol_length symbol :
  isValidCoinSymbol symbol = true -> (2 <= String.length symbol <= 10)%nat.
Proof.
  unfold isValidCoinSymbol.
  destruct (String.length symbol <? 2)%nat eqn:H2; [discriminate|].
  destruct (10 <? String.length symbol)%nat eqn:H10; [discriminate|].
  apply Nat.ltb_ge in H2, H10. lia.
Qed.

Lemma isValidCoinSymbol_chars symbol :
  isValidCoinSymbol symbol = true ->
  all_chars (fun c => is_upper c || is_digit c) symbol = true.
Proof.
  unfold isValidCoinSymbol.
  destruct (_ || _); [discriminate|].
  now destruct (all_chars _ symbol).
Qed.

(** The validity test counts letters against half the length rounded
    down: one letter among three characters passes. *)
Example isValidCoinSymbol_one_letter_of_three :
  isValidCoinSymbol "A12" = true /\ count_chars is_upper "A12" = 1%nat.
Proof. split; reflexivity. Qed.

Lemma isCommonWord_true word :
  isCommonWord word = true <-> In word commonWords.
Proof.
  unfold isCommonWord. rewrite existsb_exists. split.
  - intros (w & Hw & He). apply String.eqb_eq in He. now subst.
  - intros H. exists word. split; [assumption | apply String.eqb_refl].
Qed.

(** *** Deduplication within a title *)

Lemma removeDuplicates_from_In symbols : forall seen x,
  In x (removeDuplicates_from seen symbols) <-> In x symbols /\ x ∉ seen.
Proof.
  induction symbols as [|a rest IH]; intros seen x; simpl; [tauto|].
  destruct (decide (a ∈ seen)) as [Ha|Ha].
  - rewrite IH. split; [tauto|]. intros [[-> | H] Hx]; [contradiction | tauto].
  - simpl. rewrite IH. split.
    + intros [-> | [H Hx]]; [tauto|]. split; [tauto | set_solver].
    + intros [[-> | H] Hx]; [tauto|].
      destruct (decide (a = x)) as [-> | Hne]; [tauto|].
      right. split; [assumption | set_solver].
Qed.

Lemma removeDuplicates_from_NoDup symbols : forall seen,
  NoDup (removeDuplicates_from seen symbols).
Proof.
  induction symbols as [|a rest IH]; intros seen; simpl; [constructor|].
  destruct (decide (a ∈ seen)); [apply IH|].
  constructor; [|apply IH].
  rewrite list_elem_of_In, removeDuplicates_from_In. set_solver.
Qed.

Lemma removeDuplicates_In symbols x :
  In x (removeDuplicates symbols) <-> In x symbols.
Proof.
  unfold removeDuplicates. rewrite removeDuplicates_from_In. set_solver.
Qed.

Lemma paren_symbols_In title symbol :
  In symbol (paren_symbols title) ->
  In symbol (find_paren O title) /\ isValidCoinSymbol symbol = true.
Proof.
  unfold paren_symbols. rewrite filter_In, in_map_iff.
  intros [(cap & <- & Hcap) Hv].
  rewrite symbol_of_upper in * by now apply find_paren_upper in Hcap.
  tauto.
Qed.

Lemma word_symbols_In title symbol :
  In symbol (word_symbols title) ->
  In symbol (find_word None O title) /\
  isValidCoinSymbol symbol = true /\ isCommonWord symbol = false.
Proof.
  unfold word_symbols. rewrite filter_In, in_map_iff.
  intros [(cap & <- & Hcap) Hv].
  rewrite symbol_of_upper in * by now apply find_word_upper in Hcap.
  apply andb_true_iff in Hv as [Hv Hc]. apply negb_true_iff in Hc. tauto.
Qed.

Example extract_toshi :
  extractCoinSymbols "Market Support for Toshi(TOSHI) (KRW, USDT Market)" = ["TOSHI"].
Proof. vm_compute. reflexivity. Qed.

Example extract_bare :
  extractCoinSymbols "TOSHI and OPEN2 NEW listing: ABCDEFGHIJK, XY, Z, (ab) FOO_BAR BAZ"
  = ["TOSHI"; "XY"; "BAZ"].
Proof. vm_compute. reflexivity. Qed.

Example extract_parenthesized_stopword :
  extractCoinSymbols "Market Support for Tether(USDT)" = ["USDT"].
Proof. vm_compute. reflexivity. Qed.

(** C4, as amended: every symbol [extractCoinSymbols] returns has 2 to
    10 characters, all of them uppercase letters (so all of them are
    letters or digits and at least half are alphabetic), occurs once in
    the list, and is not a stoplist word unless the title holds it as a
    parenthesized token: the stoplist filters the bare-word pattern
    only. *)
Theorem extractCoinSymbols_sound (title symbol : string) :
  In symbol (extractCoinSymbols title) ->
  (2 <= String.length symbol <= 10)%nat /\
  all_chars is_upper symbol = true /\
  all_chars (fun c => is_upper c || is_digit c) symbol = true /\
  (String.length symbol <= 2 * count_chars is_upper symbol)%nat /\
  (isCommonWord symbol = false \/ In symbol (find_paren O title)) /\
  count_occ string_dec (extractCoinSymbols title) symbol = 1%nat /\
  NoDup (extractCoinSymbols title).
Proof.
  intros Hin.
  assert (Hnd : NoDup (extractCoinSymbols title))
    by apply removeDuplicates_from_NoDup.
  assert (Hocc : count_occ string_dec (extractCoinSymbols title) symbol = 1%nat).
  { apply NoDup_ListNoDup in Hnd.
    pose proof (proj1 (List.NoDup_count_occ string_dec _) Hnd symbol) as Hle.
    pose proof (proj1 (count_occ_In string_dec _ symbol) Hin). lia. }
  unfold extractCoinSymbols in Hin.
  apply removeDuplicates_In, in_app_or in Hin.
  assert (Hup : all_chars is_upper symbol = true /\
                isValidCoinSymbol symbol = true /\
                (isCommonWord symbol = false \/ In symbol (find_paren O title))).
  { destruct Hin as [H | H].
    - apply paren_symbols_In in H as [Hc Hv].
      repeat split; [now apply find_paren_upper in Hc | assumption | now right].
    - apply word_symbols_In in H as (Hc & Hv & Hw).
      repeat split; [now apply find_word_upper in Hc | assumption | now left]. }
  destruct Hup as (Hup & Hv & Hstop).
  pose proof (isValidCoinSymbol_length _ Hv).
  pose proof (isValidCoinSymbol_chars _ Hv).
  rewrite (all_upper_count _ Hup).
  repeat split; try assumption; lia.
Qed.

Lemma extractCoinSymbols_sound_witness :
  In "TOSHI"%string
     (extractCoinSymbols "Market Support for Toshi(TOSHI) (KRW, USDT Market)") /\
  isCommonWord "TOSHI" = false /\
  count_occ string_dec
    (extractCoinSymbols "Market Support for Toshi(TOSHI) (KRW, USDT Market)")
    "TOSHI"%string = 1%nat.
Proof.
  assert (H : In "TOSHI"%string
    (extractCoinSymbols "Market Support for Toshi(TOSHI) (KRW, USDT Market)"))
    by (vm_compute; left; reflexivity).
  split; [exact H|]. split; [reflexivity|].
  exact (proj1 (proj2 (proj2 (proj2 (proj2 (proj2
    (extractCoinSymbols_sound _ _ H))))))).
Defined.

(** C4, as stated, fails on the stoplist: the parenthesized pattern
    validates its token and appends it without consulting the stoplist,
    so ["Market Support for Tether(USDT)"] yields the stoplist word
    [USDT]. *)
Lemma extractCoinSymbols_returns_stopword :
  ~ symbols_as_specified "Market Support for Tether(USDT)".
Proof.
  intros [H _]. specialize (H "USDT"%string).
  destruct H as [_ H]; [vm_compute; left; reflexivity | discriminate H].
Qed.

(** *** Backoff under rate limiting *)

Lemma shl1_small n : 0 <= n <= 62 -> shl1 n = 2 ^ n.
Proof.
  intros H. unfold shl1.
  rewrite Z.mod_small by lia.
  rewrite Z.shiftl_mul_pow2, Z.mul_1_l by lia.
  apply wrap64_small. unfold MinInt64, MaxInt64.
  pose proof (Z.pow_le_mono_r 2 n 62 ltac:(lia) ltac:(lia)).
  pose proof (Z.pow_pos_nonneg 2 n ltac:(lia) ltac:(lia)).
  change (2 ^ 63) with (2 * 2 ^ 62). lia.
Qed.

(** Up to a count of 63 the shift is in range and the cap applies. *)
Lemma backoffMinutes_in_range count :
  1 <= count <= 63 -> backoffMinutes count = Z.min (2 ^ (count - 1)) 10.
Proof.
  intros H. unfold backoffMinutes.
  rewrite wrap64_small by (unfold MinInt64, MaxInt64; lia).
  rewrite shl1_small by lia.
  destruct (10 <? 2 ^ (count - 1)) eqn:Hc.
  - apply Z.ltb_lt in Hc. lia.
  - apply Z.ltb_ge in Hc. lia.
Qed.

(** At a count of 64 the shift yields [MinInt64], which the cap
    [backoffMinutes > 10] lets through; from 65 on it yields 0. *)
Lemma backoffMinutes_overflow :
  backoffMinutes 64 = MinInt64 /\ backoffMinutes 65 = 0 /\
  wrap64 (backoffMinutes 64 * Minute) = 0.
Proof. repeat split; vm_compute; reflexivity. Qed.

Lemma applyBackoff_in_range now um :
  0 <= failureCount um <= 62 ->
  failureCount (applyBackoff now um) = failureCount um + 1 /\
  backoffUntil (applyBackoff now um) = now + specified_delay (failureCount um + 1).
Proof.
  intros H. unfold applyBackoff, specified_delay. cbn [failureCount backoffUntil set_backoffUntil set_failureCount].
  rewrite wrap64_small by (unfold MinInt64, MaxInt64; lia).
  split; [reflexivity|].
  rewrite backoffMinutes_in_range by lia.
  rewrite wrap64_small; [reflexivity|].
  pose proof (Z.pow_pos_nonneg 2 (failureCount um + 1 - 1) ltac:(lia) ltac:(lia)).
  unfold MinInt64, MaxInt64, Minute, Second. lia.
Qed.

Lemma checkAnnouncements_429 cls now at_ um :
  backoffUntil um <= now ->
  checkAnnouncements cls now at_ (Fetched too_many_requests) um
  = (applyBackoff at_ um, []).
Proof.
  intros H. unfold checkAnnouncements.
  destruct (now <? backoffUntil um) eqn:Hb; [apply Z.ltb_lt in Hb; lia|].
  reflexivity.
Qed.

(** The first 63 rate-limit responses of a streak back off as
    specified: 1, 2, 4, 8, 10, 10, ... minutes. *)
Lemma streak_in_range n : forall t um,
  backoffUntil um <= t ->
  0 <= failureCount um ->
  failureCount um + Z.of_nat n <= 63 ->
  streak n t um
  = map (fun i => specified_delay (failureCount um + 1 + Z.of_nat i)) (seq 0 n).
Proof.
  induction n as [|n IH]; intros t um Hb H0 Hn; [reflexivity|].
  cbn [streak]. rewrite checkAnnouncements_429 by assumption. cbn [fst].
  destruct (applyBackoff_in_range t um ltac:(lia)) as [Hc Hu].
  rewrite Hu, IH by (rewrite ?Hc, ?Hu; unfold specified_delay, Minute, Second;
    pose proof (Z.pow_pos_nonneg 2 (failureCount um + 1 - 1) ltac:(lia) ltac:(lia)); lia).
  cbn [seq map]. f_equal.
  - replace (failureCount um + 1 + Z.of_nat 0) with (failureCount um + 1) by lia.
    lia.
  - rewrite <- seq_shift, map_map. apply map_ext. intros i. rewrite Hc.
    f_equal. lia.
Qed.

(** C5 fails from the 64th response of a streak on.  From a fresh
    monitor the delays are 1, 2, 4, 8 and then 59 times 10 minutes, as
    specified; the 64th response computes [1 << 63], a negative number
    the cap lets through, and the delay in nanoseconds wraps to 0, as it
    does for every later response: the poller stops backing off. *)
Theorem backoff_collapses_after_63_failures :
  streak 66 0 NewUpbitMonitor
  = map (fun m => m * Minute) ([1; 2; 4; 8] ++ repeat 10 59 ++ [0; 0; 0]) /\
  nth 63 (streak 66 0 NewUpbitMonitor) 0 = 0 /\
  specified_delay 64 = 10 * Minute /\
  failureCount
    (applyBackoff 0 (set_failureCount 63 NewUpbitMonitor)) = 64 /\
  backoffUntil
    (applyBackoff 0 (set_failureCount 63 NewUpbitMonitor)) = 0.
Proof. repeat split; vm_compute; reflexivity. Qed.

(** *** Retry-After *)

Lemma Atoi_nonempty s n : Atoi s = Some n -> String.eqb s "" = false.
Proof. destruct s; [discriminate | reflexivity]. Qed.

(** A [Retry-After] of 1 to 9223372036 seconds is honoured exactly,
    and the failure count is left alone. *)
Lemma rate_limited_honours now value seconds um :
  Atoi value = Some seconds ->
  0 < seconds <= 9223372036 ->
  rate_limited now value um = set_backoffUntil (now + seconds * Second) um.
Proof.
  intros Ha Hs. unfold rate_limited.
  rewrite (Atoi_nonempty _ _ Ha), Ha. cbn [negb].
  destruct (0 <? seconds) eqn:Hp; [|apply Z.ltb_ge in Hp; lia].
  rewrite wrap64_small; [reflexivity|].
  unfold MinInt64, MaxInt64, Second. lia.
Qed.

(** A missing, non-numeric or non-positive [Retry-After] falls back to
    the exponential backoff. *)
Lemma rate_limited_falls_back now value um :
  value = ""%string \/ Atoi value = None \/
  (exists n, Atoi value = Some n /\ n <= 0) ->
  rate_limited now value um = applyBackoff now um.
Proof.
  unfold rate_limited. intros [-> | [H | (n & H & Hn)]].
  - reflexivity.
  - rewrite H. now destruct (negb _).
  - rewrite H. destruct (negb _); [|reflexivity].
    destruct (0 <? n) eqn:Hp; [apply Z.ltb_lt in Hp; lia | reflexivity].
Qed.

Example retry_after_120 :
  fst (checkAnnouncements any_title 5 7 (Fetched (retry_after "120")) NewUpbitMonitor)
  = set_backoffUntil (7 + 120 * Second) NewUpbitMonitor.
Proof. vm_compute. reflexivity. Qed.

Example retry_after_unusable :
  Forall (fun v =>
    rate_limited 7 v NewUpbitMonitor = applyBackoff 7 NewUpbitMonitor)
    [""; "soon"; "0"; "-5"; "1.5"; "99999999999999999999"]%string.
Proof. repeat constructor. Qed.

(** C6 fails for a [Retry-After] above 9223372036 seconds: the
    header ["9223372037"] parses as a positive [int], the product with
    [time.Second] overflows [int64], and [backoffUntil] is set some 292
    years before the response instead of 9223372037 seconds after it. *)
Theorem retry_after_overflows :
  Atoi "9223372037" = Some 9223372037 /\
  backoffUntil
    (fst (checkAnnouncements any_title 0 0 (Fetched (retry_after "9223372037"))
            NewUpbitMonitor))
  = - 9223372036709551616 /\
  failureCount
    (fst (checkAnnouncements any_title 0 0 (Fetched (retry_after "9223372037"))
            NewUpbitMonitor))
  = 0 /\
  0 + 9223372037 * Second = 9223372037000000000.
Proof. repeat split; vm_compute; reflexivity. Qed.

(** *** The dedup set *)

Lemma queued_new_app a b : queued_new (a ++ b) = queued_new a ++ queued_new b.
Proof.
  induction a as [|e a IH]; [reflexivity|].
  destruct e as [[]|[]]; simpl; now rewrite ?IH.
Qed.

Lemma queued_new_In symbol out :
  symbol ∈ queued_new out <-> Queued NewCoinQueue symbol ∈ out.
Proof.
  induction out as [|e out IH]; simpl; [set_solver|].
  destruct e as [[] s|[] s]; rewrite ?elem_of_cons, IH; naive_solver.
Qed.

Lemma fresh_step_silent um um' :
  processedCoins um ⊆ processedCoins um' -> fresh_step um (um', []).
Proof.
  intros H. split; [exact H|]. split; [constructor|].
  intros x Hx. cbn in Hx. set_solver.
Qed.

Lemma fresh_step_same_set um um' r :
  processedCoins um = processedCoins um' -> fresh_step um' r -> fresh_step um r.
Proof. unfold fresh_step. now intros ->. Qed.

Lemma fresh_step_seq um r1 r2 :
  fresh_step um r1 -> fresh_step (fst r1) r2 ->
  fresh_step um (fst r2, snd r1 ++ snd r2).
Proof.
  intros (S1 & N1 & F1) (S2 & N2 & F2). unfold fresh_step. cbn [fst snd].
  rewrite queued_new_app. split; [set_solver|]. split.
  - apply NoDup_app. split; [assumption|]. split; [|assumption].
    intros x H1 H2. apply F1 in H1. apply F2 in H2. tauto.
  - intros x Hx. apply elem_of_app in Hx as [Hx | Hx].
    + apply F1 in Hx. set_solver.
    + apply F2 in Hx. set_solver.
Qed.

Lemma fresh_step_send coin um :
  coin ∉ processedCoins um ->
  fresh_step um (send_newCoin coin (markCoinAsProcessed coin um)).
Proof.
  intros Hnew. unfold send_newCoin.
  destruct (_ <? _)%nat; unfold fresh_step; cbn.
  - split; [set_solver|]. split; [apply NoDup_singleton|].
    intros x Hx. set_solver.
  - split; [set_solver|]. split; [constructor|].
    intros x Hx. set_solver.
Qed.

Lemma fresh_step_process_coin coin um : fresh_step um (process_coin coin um).
Proof.
  unfold process_coin, isNewCoin.
  destruct (bool_decide_reflect (coin ∈ processedCoins um)); cbn [negb].
  - now apply fresh_step_silent.
  - now apply fresh_step_send.
Qed.

(** The mark is written whatever becomes of the push. *)
Lemma process_coin_marks coin um :
  coin ∈ processedCoins (fst (process_coin coin um)).
Proof.
  unfold process_coin, isNewCoin.
  destruct (bool_decide_reflect (coin ∈ processedCoins um)); cbn [negb fst];
    [assumption|].
  unfold send_newCoin. destruct (_ <? _)%nat; cbn; set_solver.
Qed.

Lemma fresh_step_process_coins coins : forall um,
  fresh_step um (process_coins coins um).
Proof.
  induction coins as [|coin rest IH]; intros um; cbn [process_coins].
  - now apply fresh_step_silent.
  - pose proof (fresh_step_process_coin coin um) as H1.
    destruct (process_coin coin um) as [um1 out1].
    pose proof (IH um1) as H2.
    destruct (process_coins rest um1) as [um2 out2].
    exact (fresh_step_seq um (um1, out1) (um2, out2) H1 H2).
Qed.

Lemma fresh_step_InjectTestCoin coin um : fresh_step um (InjectTestCoin coin um).
Proof.
  unfold InjectTestCoin.
  destruct (bool_decide_reflect (coin ∈ processedCoins um)).
  - now apply fresh_step_silent.
  - now apply fresh_step_send.
Qed.

(** The injection for one user leaves the dedup set and the production
    queue alone: its item goes to the test queue. *)
Lemma InjectTestCoinForUser_frame coin uid um :
  processedCoins (fst (InjectTestCoinForUser coin uid um)) = processedCoins um /\
  newCoinChannel (fst (InjectTestCoinForUser coin uid um)) = newCoinChannel um /\
  queued_new (snd (InjectTestCoinForUser coin uid um)) = [].
Proof.
  unfold InjectTestCoinForUser, send_testCoin.
  destruct (_ <? _)%nat; repeat split.
Qed.

Lemma fresh_step_InjectForUser coin uid um :
  fresh_step um (InjectTestCoinForUser coin uid um).
Proof.
  destruct (InjectTestCoinForUser_frame coin uid um) as (Hp & _ & Hq).
  unfold fresh_step. rewrite Hp, Hq.
  split; [set_solver|]. split; [constructor|]. intros x Hx. set_solver.
Qed.

Lemma processedCoins_handleError now um :
  processedCoins (handleError now um) = processedCoins um.
Proof. unfold handleError. now destruct (3 <=? _). Qed.

Lemma processedCoins_applyBackoff now um :
  processedCoins (applyBackoff now um) = processedCoins um.
Proof. reflexivity. Qed.

Lemma processedCoins_rate_limited now value um :
  processedCoins (rate_limited now value um) = processedCoins um.
Proof.
  unfold rate_limited. destruct (negb _); [|reflexivity].
  destruct (Atoi value) as [n|]; [|reflexivity].
  now destruct (0 <? n).
Qed.

Lemma on_production_queue_nil : on_production_queue [].
Proof. intros q payload H. now apply elem_of_nil in H. Qed.

Lemma on_production_queue_app a b :
  on_production_queue a -> on_production_queue b -> on_production_queue (a ++ b).
Proof.
  intros Ha Hb q payload H. apply elem_of_app in H as [H | H]; eauto.
Qed.

Lemma on_production_queue_process_coin coin um :
  on_production_queue (snd (process_coin coin um)).
Proof.
  unfold process_coin, send_newCoin.
  destruct (isNewCoin coin um); [|apply on_production_queue_nil].
  destruct (_ <? _)%nat; intros q payload H; cbn in H;
    apply list_elem_of_singleton in H; congruence.
Qed.

Lemma on_production_queue_process_coins coins : forall um,
  on_production_queue (snd (process_coins coins um)).
Proof.
  induction coins as [|coin rest IH]; intros um; cbn [process_coins].
  - apply on_production_queue_nil.
  - pose proof (on_production_queue_process_coin coin um) as H1.
    destruct (process_coin coin um) as [um1 out1].
    pose proof (IH um1) as H2.
    destruct (process_coins rest um1) as [um2 out2].
    now apply on_production_queue_app.
Qed.

Section PollerFacts.

Variable cls : string -> bool.

Lemma fresh_step_parse_title title um : fresh_step um (parse_title cls title um).
Proof.
  unfold parse_title.
  destruct (String.eqb title ""); [now apply fresh_step_silent|].
  destruct (cls title); [apply fresh_step_process_coins | now apply fresh_step_silent].
Qed.

Lemma fresh_step_parseAnnouncements titles : forall um,
  fresh_step um (parseAnnouncements cls titles um).
Proof.
  induction titles as [|title rest IH]; intros um; cbn [parseAnnouncements].
  - now apply fresh_step_silent.
  - pose proof (fresh_step_parse_title title um) as H1.
    destruct (parse_title cls title um) as [um1 out1].
    pose proof (IH um1) as H2.
    destruct (parseAnnouncements cls rest um1) as [um2 out2].
    exact (fresh_step_seq um (um1, out1) (um2, out2) H1 H2).
Qed.

Lemma fresh_step_checkAnnouncements now at_ f um :
  fresh_step um (checkAnnouncements cls now at_ f um).
Proof.
  unfold checkAnnouncements.
  destruct (now <? backoffUntil um); [now apply fresh_step_silent|].
  destruct f as [|resp].
  { apply fresh_step_silent. now rewrite processedCoins_handleError. }
  destruct (StatusCode resp =? 200).
  { destruct (Titles resp) as [titles|].
    - eapply fresh_step_same_set; [|apply (fresh_step_parseAnnouncements titles)].
      reflexivity.
    - apply fresh_step_silent. now rewrite processedCoins_handleError. }
  destruct (StatusCode resp =? 304); [now apply fresh_step_silent|].
  destruct (StatusCode resp =? 429).
  { apply fresh_step_silent. now rewrite processedCoins_rate_limited. }
  destruct (StatusCode resp =? 403); [now apply fresh_step_silent|].
  apply fresh_step_silent. now rewrite processedCoins_handleError.
Qed.

Lemma on_production_queue_parseAnnouncements titles : forall um,
  on_production_queue (snd (parseAnnouncements cls titles um)).
Proof.
  induction titles as [|title rest IH]; intros um; cbn [parseAnnouncements].
  - apply on_production_queue_nil.
  - assert (H1 : on_production_queue (snd (parse_title cls title um))).
    { unfold parse_title. destruct (String.eqb title ""); [apply on_production_queue_nil|].
      destruct (cls title);
        [apply on_production_queue_process_coins | apply on_production_queue_nil]. }
    destruct (parse_title cls title um) as [um1 out1].
    pose proof (IH um1) as H2.
    destruct (parseAnnouncements cls rest um1) as [um2 out2].
    now apply on_production_queue_app.
Qed.

Lemma on_production_queue_checkAnnouncements now at_ f um :
  on_production_queue (snd (checkAnnouncements cls now at_ f um)).
Proof.
  unfold checkAnnouncements.
  destruct (now <? backoffUntil um); [apply on_production_queue_nil|].
  destruct f as [|resp]; [apply on_production_queue_nil|].
  destruct (StatusCode resp =? 200).
  { destruct (Titles resp);
      [apply on_production_queue_parseAnnouncements | apply on_production_queue_nil]. }
  repeat (match goal with |- context [if ?b then _ else _] => destruct b end);
    apply on_production_queue_nil.
Qed.

Lemma fresh_step_operation o um :
  is_clear o = false -> fresh_step um (apply_operation cls o um).
Proof.
  destruct o as [now at_ f | coin | coin uid | q |]; cbn [apply_operation is_clear];
    intros Hc; try discriminate Hc.
  - apply fresh_step_checkAnnouncements.
  - apply fresh_step_InjectTestCoin.
  - apply fresh_step_InjectForUser.
  - apply fresh_step_silent. now destruct q.
Qed.

Lemma fresh_step_session ops : forall um,
  forallb (fun o => negb (is_clear o)) ops = true ->
  fresh_step um (session cls ops um).
Proof.
  induction ops as [|o rest IH]; intros um Hops; cbn [session].
  - now apply fresh_step_silent.
  - cbn [forallb] in Hops. apply andb_true_iff in Hops as [Ho Hrest].
    apply negb_true_iff in Ho.
    pose proof (fresh_step_operation o um Ho) as H1.
    destruct (apply_operation cls o um) as [um1 out1].
    pose proof (IH um1 Hrest) as H2.
    destruct (session cls rest um1) as [um2 out2].
    exact (fresh_step_seq um (um1, out1) (um2, out2) H1 H2).
Qed.

(** In a session without a clear no symbol is put on the production
    queue twice, whatever state the session starts in. *)
Lemma session_queues_once ops um :
  forallb (fun o => negb (is_clear o)) ops = true ->
  NoDup (queued_new (snd (session cls ops um))).
Proof. intros H. now destruct (fresh_step_session ops um H) as (_ & ? & _). Qed.

(** Only the injection for one user sends on the test queue. *)
Lemma test_queue_operation o um payload :
  Queued TestCoinQueue payload ∈ snd (apply_operation cls o um) ->
  exists coin uid,
    o = InjectForUser coin uid /\ payload = (coin ++ ":" ++ pretty uid)%string.
Proof.
  destruct o as [now at_ f | coin | coin uid | q |]; cbn [apply_operation snd]; intros H.
  - now pose proof (on_production_queue_checkAnnouncements now at_ f um _ _ H).
  - unfold InjectTestCoin in H.
    destruct (bool_decide (coin ∈ processedCoins um)); [now apply elem_of_nil in H|].
    unfold send_newCoin in H.
    destruct (_ <? _)%nat; cbn in H; apply list_elem_of_singleton in H; discriminate H.
  - exists coin, uid. split; [reflexivity|].
    unfold InjectTestCoinForUser, send_testCoin in H.
    destruct (_ <? _)%nat; cbn in H; apply list_elem_of_singleton in H.
    + now injection H.
    + discriminate H.
  - now apply elem_of_nil in H.
  - now apply elem_of_nil in H.
Qed.

Lemma test_queue_session ops : forall um payload,
  Queued TestCoinQueue payload ∈ snd (session cls ops um) ->
  exists coin uid,
    InjectForUser coin uid ∈ ops /\ payload = (coin ++ ":" ++ pretty uid)%string.
Proof.
  induction ops as [|o rest IH]; intros um payload H; cbn [session] in H.
  - now apply elem_of_nil in H.
  - pose proof (test_queue_operation o um payload) as H1.
    destruct (apply_operation cls o um) as [um1 out1].
    specialize (IH um1 payload).
    destruct (session cls rest um1) as [um2 out2]. cbn [snd] in *.
    apply elem_of_app in H as [H | H].
    + destruct (H1 H) as (coin & uid & -> & ->).
      exists coin, uid. split; [apply list_elem_of_here | reflexivity].
    + destruct (IH H) as (coin & uid & Hin & ->).
      exists coin, uid. split; [now apply list_elem_of_further | reflexivity].
Qed.

(** C7, as amended: once a symbol is in the dedup set, no sequence of
    polls, injections and receives removes it, only the administrative
    clear does, and none of them puts it on the production queue again;
    a poll puts it on neither queue.  The mark is written before the
    push and whatever the push does: a symbol extracted for the first
    time is in the set after its iteration even when the queue was full
    and its event dropped, so its next extraction emits nothing.  The
    only emission of a marked symbol onto the event bus is a test
    injection for one user, which goes to the test queue without
    consulting the set. *)
Theorem dedup_is_permanent (ops : list operation) (um : Monitor) (symbol : string) :
  forallb (fun o => negb (is_clear o)) ops = true ->
  symbol ∈ processedCoins um ->
  symbol ∈ processedCoins (fst (session cls ops um)) /\
  (Queued NewCoinQueue symbol ∉ snd (session cls ops um)) /\
  (forall now at_ f q,
     Queued q symbol ∉ snd (checkAnnouncements cls now at_ f um)) /\
  (forall coin um0,
     coin ∈ processedCoins (fst (process_coin coin um0)) /\
     process_coin coin (fst (process_coin coin um0))
       = (fst (process_coin coin um0), [])) /\
  (symbol ∉ processedCoins (ClearProcessedCoins um)) /\
  (forall e, e ∈ snd (session cls ops um) -> emits symbol e ->
     exists coin uid,
       InjectForUser coin uid ∈ ops /\
       e = Queued TestCoinQueue (coin ++ ":" ++ pretty uid)%string).
Proof.
  intros Hops Hin.
  destruct (fresh_step_session ops um Hops) as (Hsub & _ & Hfresh).
  assert (Hnew : Queued NewCoinQueue symbol ∉ snd (session cls ops um)).
  { rewrite <- queued_new_In. intros Hq. apply Hfresh in Hq. tauto. }
  split; [set_solver|]. split; [exact Hnew|].
  split.
  { intros now at_ f q Hq.
    pose proof (on_production_queue_checkAnnouncements now at_ f um _ _ Hq) as ->.
    destruct (fresh_step_checkAnnouncements now at_ f um) as (_ & _ & Hf).
    apply queued_new_In, Hf in Hq. tauto. }
  split.
  { intros coin um0. pose proof (process_coin_marks coin um0) as Hm.
    split; [assumption|].
    unfold process_coin at 1, isNewCoin.
    now rewrite bool_decide_true. }
  split; [cbn; set_solver|].
  intros e He [-> | [userID ->]]; [contradiction|].
  destruct (test_queue_session ops um _ He) as (coin & uid & Ho & Hp).
  exists coin, uid. split; [exact Ho | now rewrite Hp].
Qed.

End PollerFacts.

(** A title listing [TOSHI] polled three times, the first time with the
    production queue full: the event is dropped, the symbol is marked,
    and the later polls emit nothing although the queue has room again. *)
Lemma dedup_is_permanent_witness :
  let first := checkAnnouncements any_title 0 0
                 (listing_page "Market Support for Toshi(TOSHI)") congested in
  let later := session any_title
                 [Receive NewCoinQueue;
                  Poll 1 1 (listing_page "Market Support for Toshi(TOSHI)");
                  InjectForUser "TOSHI" 1001;
                  Poll 2 2 (listing_page "Market Support for Toshi(TOSHI)")]
                 (fst first) in
  snd first = [Dropped NewCoinQueue "TOSHI"] /\
  "TOSHI"%string ∈ processedCoins (fst later) /\
  (Queued NewCoinQueue "TOSHI" ∉ snd later).
Proof.
  cbv zeta. split; [vm_compute; reflexivity|].
  refine (let H := dedup_is_permanent any_title _ _ "TOSHI"%string _ _ in
          conj (proj1 H) (proj1 (proj2 H))).
  - reflexivity.
  - refine (bool_decide_unpack _ _). vm_compute. exact I.
Defined.

(** C7, as stated, fails: [TOSHI] is in the dedup set after the first
    poll, yet an injection for user 1001 puts it on the test queue of the
    event bus, from where it is traded. *)
Lemma marked_symbol_reaches_the_test_queue :
  ~ never_reemitted_as_specified any_title [InjectForUser "TOSHI" 1001]
      toshi_seen "TOSHI".
Proof.
  intros H.
  assert (Hin : "TOSHI"%string ∈ processedCoins toshi_seen).
  { refine (bool_decide_unpack _ _). vm_compute. exact I. }
  destruct (H eq_refl Hin) as [_ Hnone].
  apply (Hnone (Queued TestCoinQueue "TOSHI:1001")).
  - assert (Hout : snd (session any_title [InjectForUser "TOSHI" 1001] toshi_seen)
                   = [Queued TestCoinQueue "TOSHI:1001"]) by (vm_compute; reflexivity).
    rewrite Hout. apply list_elem_of_here.
  - right. exists 1001. reflexivity.
Qed.

(** *** More on the backoff *)

(** X3: the light backoff of [handleError].  Every generic failure adds
    one to the failure count; the first two in a row leave
    [backoffUntil] alone, and from the third on it is set to the time of
    the failure plus 30 seconds per failure counted. *)
Theorem handleError_light_backoff (now : Z) (um : Monitor) :
  0 <= failureCount um <= 307445733 ->
  failureCount (handleError now um) = failureCount um + 1 /\
  backoffUntil (handleError now um)
  = (if failureCount um + 1 <? 3 then backoffUntil um
     else now + (failureCount um + 1) * 30 * Second) /\
  processedCoins (handleError now um) = processedCoins um /\
  newCoinChannel (handleError now um) = newCoinChannel um.
Proof.
  intros H. unfold handleError. cbn [failureCount set_failureCount].
  rewrite wrap64_small by (unfold MinInt64, MaxInt64; lia).
  destruct (3 <=? failureCount um + 1) eqn:H3.
  - apply Z.leb_le in H3.
    destruct (failureCount um + 1 <? 3) eqn:H3'; [apply Z.ltb_lt in H3'; lia|].
    cbn. rewrite (wrap64_small (_ * 30)) by (unfold MinInt64, MaxInt64; lia).
    rewrite wrap64_small by (unfold MinInt64, MaxInt64, Second; lia).
    repeat split.
  - apply Z.leb_gt in H3.
    destruct (failureCount um + 1 <? 3) eqn:H3'; [|apply Z.ltb_ge in H3'; lia].
    repeat split.
Qed.

Lemma handleError_light_backoff_witness :
  backoffUntil (handleError 50 (set_failureCount 1 NewUpbitMonitor)) = 0 /\
  backoffUntil (handleError 50 (set_failureCount 2 NewUpbitMonitor))
  = 50 + 90 * Second.
Proof.
  split.
  - exact (proj1 (proj2 (handleError_light_backoff 50
             (set_failureCount 1 NewUpbitMonitor) ltac:(cbn; lia)))).
  - exact (proj1 (proj2 (handleError_light_backoff 50
             (set_failureCount 2 NewUpbitMonitor) ltac:(cbn; lia)))).
Defined.

Lemma timers_process_coins coins : forall um,
  failureCount (fst (process_coins coins um)) = failureCount um /\
  backoffUntil (fst (process_coins coins um)) = backoffUntil um.
Proof.
  induction coins as [|coin rest IH]; intros um; cbn [process_coins]; [now split|].
  assert (H1 : failureCount (fst (process_coin coin um)) = failureCount um /\
               backoffUntil (fst (process_coin coin um)) = backoffUntil um).
  { unfold process_coin, send_newCoin. destruct (isNewCoin coin um); [|now split].
    now destruct (_ <? _)%nat. }
  destruct (process_coin coin um) as [um1 out1].
  specialize (IH um1). destruct (process_coins rest um1) as [um2 out2].
  cbn [fst] in *. destruct H1 as [Ha Hb], IH as [Hc Hd]. split; congruence.
Qed.

Lemma timers_parseAnnouncements cls titles : forall um,
  failureCount (fst (parseAnnouncements cls titles um)) = failureCount um /\
  backoffUntil (fst (parseAnnouncements cls titles um)) = backoffUntil um.
Proof.
  induction titles as [|title rest IH]; intros um; cbn [parseAnnouncements];
    [now split|].
  assert (H1 : failureCount (fst (parse_title cls title um)) = failureCount um /\
               backoffUntil (fst (parse_title cls title um)) = backoffUntil um).
  { unfold parse_title. destruct (String.eqb title ""); [now split|].
    destruct (cls title); [apply timers_process_coins | now split]. }
  destruct (parse_title cls title um) as [um1 out1].
  specialize (IH um1). destruct (parseAnnouncements cls rest um1) as [um2 out2].
  cbn [fst] in *. destruct H1 as [Ha Hb], IH as [Hc Hd]. split; congruence.
Qed.

(** X4: a [Retry-After] of [seconds] (1 to 9223372036) closes the
    poller for exactly that long: the response changes nothing but
    [backoffUntil], and until [seconds] seconds after it every poll,
    whatever the feed would answer, returns at once with the monitor
    unchanged and nothing emitted. *)
Theorem retry_after_closes_the_poller (cls : string -> bool)
    (value : string) (seconds t0 t now at_ : Z) (f : fetch) (um : Monitor) :
  Atoi value = Some seconds ->
  0 < seconds <= 9223372036 ->
  backoffUntil um <= t0 ->
  now < t + seconds * Second ->
  let um1 := fst (checkAnnouncements cls t0 t (Fetched (retry_after value)) um) in
  um1 = set_backoffUntil (t + seconds * Second) um /\
  checkAnnouncements cls now at_ f um1 = (um1, []).
Proof.
  intros Ha Hs Hb Hnow. cbv zeta.
  assert (H1 : fst (checkAnnouncements cls t0 t (Fetched (retry_after value)) um)
               = set_backoffUntil (t + seconds * Second) um).
  { unfold checkAnnouncements.
    destruct (t0 <? backoffUntil um) eqn:Hlt; [apply Z.ltb_lt in Hlt; lia|].
    cbn. now apply rate_limited_honours. }
  rewrite H1. split; [reflexivity|].
  unfold checkAnnouncements. cbn [backoffUntil set_backoffUntil].
  destruct (now <? t + seconds * Second) eqn:Hlt; [reflexivity|].
  apply Z.ltb_ge in Hlt. lia.
Qed.

Lemma retry_after_closes_the_poller_witness :
  checkAnnouncements any_title (119 * Second) (119 * Second)
    (listing_page "Market Support for Toshi(TOSHI)")
    (fst (checkAnnouncements any_title 0 0 (Fetched (retry_after "120"))
            NewUpbitMonitor))
  = (set_backoffUntil (120 * Second) NewUpbitMonitor, []).
Proof.
  pose proof (retry_after_closes_the_poller any_title "120" 120 0 0
                (119 * Second) (119 * Second)
                (listing_page "Market Support for Toshi(TOSHI)") NewUpbitMonitor
                eq_refl ltac:(lia) ltac:(cbn; lia) ltac:(unfold Second; lia))
    as [H1 H2].
  rewrite H2. now rewrite H1.
Defined.

(** X5: a success starts the backoff sequence afresh.  A poll answered
    200 (with a document that parses) or 304 sets the failure count to
    0, whatever it was, and leaves [backoffUntil] where it was; the next
    rate-limit response without a retry value then backs off 1 minute. *)
Theorem success_resets_the_backoff (cls : string -> bool) (now at_ now' at' : Z)
    (resp : response) (um : Monitor) :
  StatusCode resp = 304 \/ (StatusCode resp = 200 /\ Titles resp <> None) ->
  backoffUntil um <= now ->
  backoffUntil um <= now' ->
  let um1 := fst (checkAnnouncements cls now at_ (Fetched resp) um) in
  let um2 := fst (checkAnnouncements cls now' at' (Fetched too_many_requests) um1) in
  failureCount um1 = 0 /\ backoffUntil um1 = backoffUntil um /\
  failureCount um2 = 1 /\ backoffUntil um2 = at' + 1 * Minute.
Proof.
  intros Hok Hb Hb'. cbv zeta.
  assert (H1 : failureCount (fst (checkAnnouncements cls now at_ (Fetched resp) um)) = 0 /\
               backoffUntil (fst (checkAnnouncements cls now at_ (Fetched resp) um))
               = backoffUntil um).
  { unfold checkAnnouncements.
    destruct (now <? backoffUntil um) eqn:Hlt; [apply Z.ltb_lt in Hlt; lia|].
    destruct Hok as [H304 | [H200 Ht]].
    - rewrite H304. cbn. now split.
    - rewrite H200. cbn. destruct (Titles resp) as [titles|]; [|congruence].
      match goal with
      | |- context [parseAnnouncements cls titles ?u] =>
        destruct (timers_parseAnnouncements cls titles u) as [Hc Hu]
      end.
      rewrite Hc, Hu. now split. }
  destruct H1 as [Hc Hu]. split; [exact Hc|]. split; [exact Hu|].
  rewrite checkAnnouncements_429 by lia. cbn [fst].
  destruct (applyBackoff_in_range at'
              (fst (checkAnnouncements cls now at_ (Fetched resp) um))
              ltac:(lia)) as [Hc2 Hu2].
  rewrite Hc2, Hu2, Hc. split; reflexivity.
Qed.

Lemma success_resets_the_backoff_witness :
  let um := set_failureCount 7 NewUpbitMonitor in
  let um1 := fst (checkAnnouncements any_title 0 0
                    (Fetched (mkResponse 304 "" "" "" None)) um) in
  backoffUntil
    (fst (checkAnnouncements any_title 1 2 (Fetched too_many_requests) um1))
  = 2 + 1 * Minute.
Proof.
  cbv zeta.
  exact (proj2 (proj2 (proj2 (success_resets_the_backoff any_title 0 0 1 2
    (mkResponse 304 "" "" "" None) (set_failureCount 7 NewUpbitMonitor)
    (or_introl eq_refl) ltac:(cbn; lia) ltac:(cbn; lia))))).
Defined.

(** *** The bounded queues *)

Lemma channels_send_newCoin coin um :
  newCoinChannel (fst (send_newCoin coin um))
  = newCoinChannel um ++ queued_new (snd (send_newCoin coin um)) /\
  testCoinChannel (fst (send_newCoin coin um)) = testCoinChannel um /\
  (length (newCoinChannel um) <= newCoinCapacity ->
   length (newCoinChannel (fst (send_newCoin coin um))) <= newCoinCapacity)%nat.
Proof.
  unfold send_newCoin.
  destruct (length (newCoinChannel um) <? newCoinCapacity)%nat eqn:Hroom; cbn.
  - apply Nat.ltb_lt in Hroom. rewrite length_app. cbn. repeat split. lia.
  - rewrite app_nil_r. repeat split. lia.
Qed.

Lemma channel_step_silent um um' :
  newCoinChannel um' = newCoinChannel um ->
  testCoinChannel um' = testCoinChannel um ->
  channel_step um (um', []).
Proof.
  intros H1 H2. unfold channel_step, within_capacity. cbn.
  rewrite H1, H2, app_nil_r. tauto.
Qed.

Lemma channel_step_same_channels um um' r :
  newCoinChannel um = newCoinChannel um' ->
  testCoinChannel um = testCoinChannel um' ->
  channel_step um' r -> channel_step um r.
Proof. unfold channel_step, within_capacity. now intros -> ->. Qed.

Lemma channel_step_seq um r1 r2 :
  channel_step um r1 -> channel_step (fst r1) r2 ->
  channel_step um (fst r2, snd r1 ++ snd r2).
Proof.
  intros (A1 & B1 & C1) (A2 & B2 & C2). unfold channel_step. cbn [fst snd].
  rewrite queued_new_app, A2, A1, B2, B1, app_assoc. tauto.
Qed.

Lemma channel_step_process_coin coin um : channel_step um (process_coin coin um).
Proof.
  unfold process_coin.
  destruct (isNewCoin coin um); [|now apply channel_step_silent].
  destruct (channels_send_newCoin coin (markCoinAsProcessed coin um)) as (A & B & C).
  unfold channel_step, within_capacity. rewrite A, B. cbn in *.
  split; [reflexivity|]. split; [reflexivity|].
  intros [H1 H2]. rewrite <- A. split; [now apply C | assumption].
Qed.

Lemma channel_step_process_coins coins : forall um,
  channel_step um (process_coins coins um).
Proof.
  induction coins as [|coin rest IH]; intros um; cbn [process_coins].
  - now apply channel_step_silent.
  - pose proof (channel_step_process_coin coin um) as H1.
    destruct (process_coin coin um) as [um1 out1].
    pose proof (IH um1) as H2.
    destruct (process_coins rest um1) as [um2 out2].
    exact (channel_step_seq um (um1, out1) (um2, out2) H1 H2).
Qed.

Lemma channel_step_parseAnnouncements cls titles : forall um,
  channel_step um (parseAnnouncements cls titles um).
Proof.
  induction titles as [|title rest IH]; intros um; cbn [parseAnnouncements].
  - now apply channel_step_silent.
  - assert (H1 : channel_step um (parse_title cls title um)).
    { unfold parse_title. destruct (String.eqb title "");
        [now apply channel_step_silent|].
      destruct (cls title);
        [apply channel_step_process_coins | now apply channel_step_silent]. }
    destruct (parse_title cls title um) as [um1 out1].
    pose proof (IH um1) as H2.
    destruct (parseAnnouncements cls rest um1) as [um2 out2].
    exact (channel_step_seq um (um1, out1) (um2, out2) H1 H2).
Qed.

Lemma channels_handleError now um :
  newCoinChannel (handleError now um) = newCoinChannel um /\
  testCoinChannel (handleError now um) = testCoinChannel um.
Proof. unfold handleError. now destruct (3 <=? _). Qed.

Lemma channels_rate_limited now value um :
  newCoinChannel (rate_limited now value um) = newCoinChannel um /\
  testCoinChannel (rate_limited now value um) = testCoinChannel um.
Proof.
  unfold rate_limited. destruct (negb _); [|now split].
  destruct (Atoi value) as [n|]; [|now split].
  now destruct (0 <? n).
Qed.

Lemma channel_step_checkAnnouncements cls now at_ f um :
  channel_step um (checkAnnouncements cls now at_ f um).
Proof.
  unfold checkAnnouncements.
  destruct (now <? backoffUntil um); [now apply channel_step_silent|].
  destruct f as [|resp].
  { apply channel_step_silent; apply channels_handleError. }
  destruct (StatusCode resp =? 200).
  { destruct (Titles resp) as [titles|].
    - eapply channel_step_same_channels;
        [| |apply (channel_step_parseAnnouncements cls titles)]; reflexivity.
    - apply channel_step_silent;
        [rewrite (proj1 (channels_handleError _ _)) |
         rewrite (proj2 (channels_handleError _ _))]; reflexivity. }
  destruct (StatusCode resp =? 304); [now apply channel_step_silent|].
  destruct (StatusCode resp =? 429).
  { apply channel_step_silent; apply channels_rate_limited. }
  destruct (StatusCode resp =? 403); [now apply channel_step_silent|].
  apply channel_step_silent; apply channels_handleError.
Qed.

Lemma within_capacity_operation cls o um :
  within_capacity um -> within_capacity (fst (apply_operation cls o um)).
Proof.
  destruct o as [now at_ f | coin | coin uid | q |]; cbn [apply_operation].
  - apply channel_step_checkAnnouncements.
  - unfold InjectTestCoin. destruct (bool_decide _); [easy|].
    intros [H1 H2].
    destruct (channels_send_newCoin coin (markCoinAsProcessed coin um)) as (_ & B & C).
    split; [now apply C | now rewrite B].
  - unfold InjectTestCoinForUser, send_testCoin, within_capacity.
    destruct (length (testCoinChannel um) <? testCoinCapacity)%nat eqn:Hroom; cbn;
      [|easy].
    apply Nat.ltb_lt in Hroom. rewrite length_app. cbn. lia.
  - unfold within_capacity. destruct q; cbn.
    + destruct (newCoinChannel um); cbn; lia.
    + destruct (testCoinChannel um); cbn; lia.
  - easy.
Qed.

(** X6: the two queues are bounded.  Whatever is polled, injected,
    received or cleared, in any order, the production queue never holds
    more than 100 symbols and the test queue never more than 10 items:
    a send on a full queue drops its value. *)
Theorem queues_stay_within_capacity (cls : string -> bool) (ops : list operation) :
  (length (newCoinChannel (fst (session cls ops NewUpbitMonitor))) <= 100)%nat /\
  (length (testCoinChannel (fst (session cls ops NewUpbitMonitor))) <= 10)%nat.
Proof.
  assert (H : forall um, within_capacity um ->
                within_capacity (fst (session cls ops um))).
  { induction ops as [|o rest IH]; intros um Hum; cbn [session]; [exact Hum|].
    pose proof (within_capacity_operation cls o um Hum) as H1.
    destruct (apply_operation cls o um) as [um1 out1].
    specialize (IH um1 H1). now destruct (session cls rest um1). }
  apply (H NewUpbitMonitor). split; cbn; lia.
Qed.

Lemma delivery_operation cls o um :
  delivered o um ++ newCoinChannel (fst (apply_operation cls o um))
  = newCoinChannel um ++ queued_new (snd (apply_operation cls o um)).
Proof.
  destruct o as [now at_ f | coin | coin uid | q |]; cbn [apply_operation delivered].
  - now destruct (channel_step_checkAnnouncements cls now at_ f um) as [-> _].
  - unfold InjectTestCoin. destruct (bool_decide _); [cbn; now rewrite app_nil_r|].
    now destruct (channels_send_newCoin coin (markCoinAsProcessed coin um)) as [-> _].
  - destruct (InjectTestCoinForUser_frame coin uid um) as (_ & -> & ->).
    now rewrite app_nil_r.
  - destruct q; cbn; rewrite app_nil_r; [|reflexivity].
    now destruct (newCoinChannel um).
  - cbn. now rewrite app_nil_r.
Qed.

(** X7: the production queue is first-in first-out and loses nothing it
    accepted: what the dispatcher has received over a session, followed
    by what is still queued, is what the queue held at the start
    followed by every symbol queued since, in the order of queuing. *)
Theorem production_queue_is_fifo (cls : string -> bool) (ops : list operation)
    (um : Monitor) :
  deliveries cls ops um ++ newCoinChannel (fst (session cls ops um))
  = newCoinChannel um ++ queued_new (snd (session cls ops um)).
Proof.
  revert um. induction ops as [|o rest IH]; intros um; cbn [session deliveries].
  - cbn. now rewrite app_nil_r.
  - pose proof (delivery_operation cls o um) as H1.
    destruct (apply_operation cls o um) as [um1 out1]. cbn [fst snd] in *.
    specialize (IH um1). destruct (session cls rest um1) as [um2 out2].
    cbn [fst snd] in *.
    rewrite queued_new_app, <- app_assoc, IH, !app_assoc. now rewrite H1.
Qed.

(** *** What the extraction finds *)

Lemma upper_is_word c : is_upper c = true -> is_word c = true.
Proof. unfold is_word. now intros ->. Qed.

Lemma first_down_top ok lo k :
  (lo <= k)%nat -> ok k = true -> first_down ok lo k = Some k.
Proof.
  intros Hlo Hok. destruct k; simpl.
  - destruct lo; [|lia]. simpl. now rewrite Hok.
  - destruct (S k <? lo)%nat eqn:H; [apply Nat.ltb_lt in H; lia|].
    now rewrite Hok.
Qed.

Lemma first_down_ok ok lo k : forall j,
  first_down ok lo k = Some j -> ok j = true.
Proof.
  induction k as [|k IH]; intros j; simpl.
  - destruct lo; simpl; [|discriminate].
    destruct (ok O) eqn:H; [|discriminate]. now intros [= <-].
  - destruct (S k <? lo)%nat; [discriminate|].
    destruct (ok (S k)) eqn:H; [now intros [= <-] | apply IH].
Qed.

Lemma length_append a b :
  String.length (a ++ b) = (String.length a + String.length b)%nat.
Proof. induction a as [|c a IH]; simpl; [reflexivity | now rewrite IH]. Qed.

Lemma get_append_end a c r : String.get (String.length a) (a ++ String c r) = Some c.
Proof. induction a as [|x a IH]; simpl; [reflexivity | exact IH]. Qed.

Lemma get_append_last a x t :
  String.get (String.length a) (String x a ++ t) = last_byte (Some x) a.
Proof.
  revert x. induction a as [|y a IH]; intros x; simpl; [reflexivity|].
  apply IH.
Qed.

Lemma get_append_empty a : String.get (String.length a) (a ++ "") = None.
Proof. induction a as [|x a IH]; simpl; [reflexivity | exact IH]. Qed.

Lemma take_append a t : take (String.length a) (a ++ t) = a.
Proof. induction a as [|c a IH]; simpl; [now destruct t | now rewrite IH]. Qed.

(** A run of capitals stops where the text goes on with another byte. *)
Lemma upper_run_append_stop a t :
  all_chars is_upper a = true -> get_is is_upper 0 t = false ->
  upper_run (a ++ t) = String.length a.
Proof.
  intros Ha Ht. induction a as [|c a IH]; simpl in *.
  - destruct t as [|d t]; [reflexivity|]. unfold get_is in Ht. simpl in Ht.
    simpl. now rewrite Ht.
  - apply andb_true_iff in Ha as [Hc Ha]. rewrite Hc. now rewrite IH.
Qed.

Lemma upper_run_append_le a c t :
  is_upper c = false -> (upper_run (a ++ String c t) <= String.length a)%nat.
Proof.
  intros Hc. induction a as [|x a IH]; simpl.
  - now rewrite Hc.
  - destruct (is_upper x); lia.
Qed.

Lemma all_upper_weaken symbol :
  all_chars is_upper symbol = true ->
  all_chars (fun c => is_upper c || is_digit c) symbol = true.
Proof.
  induction symbol as [|c r IH]; simpl; [reflexivity|].
  intros H. apply andb_true_iff in H as [Hc Hr]. now rewrite Hc, IH.
Qed.

(** The validity test accepts every word of 2 to 10 capitals. *)
Lemma capitals_are_valid symbol :
  all_chars is_upper symbol = true ->
  (2 <= String.length symbol <= 10)%nat ->
  isValidCoinSymbol symbol = true.
Proof.
  intros Hup Hlen. unfold isValidCoinSymbol.
  destruct (String.length symbol <? 2)%nat eqn:H2; [apply Nat.ltb_lt in H2; lia|].
  destruct (10 <? String.length symbol)%nat eqn:H10; [apply Nat.ltb_lt in H10; lia|].
  cbn [orb]. rewrite (all_upper_weaken _ Hup), (all_upper_count _ Hup).
  apply Nat.leb_le. apply Nat.Div0.div_le_upper_bound. lia.
Qed.

(** A match of pattern 1 that starts before a later [(] ends before it. *)
Lemma match_paren_fits c r t cap :
  match_paren (String c (r ++ String "(" t)) = Some cap ->
  (String.length cap + 1 <= String.length r)%nat.
Proof.
  unfold match_paren. destruct (nat_of_ascii c =? 40)%nat; [|discriminate].
  destruct (first_down _ 1 _) as [k|] eqn:Hk; [|discriminate].
  intros [= <-].
  pose proof (first_down_bounds _ _ _ _ Hk) as Hb.
  apply first_down_ok in Hk.
  pose proof (upper_run_append_le r "(" t eq_refl) as Hrun.
  rewrite take_length by (rewrite length_append; simpl; lia).
  destruct (Nat.eq_dec k (String.length r)) as [-> | Hne]; [|lia].
  unfold get_is in Hk. rewrite get_append_end in Hk. discriminate Hk.
Qed.

Lemma find_paren_prefix t pre : forall skip,
  (skip <= String.length pre)%nat ->
  exists found,
    find_paren skip (pre ++ String "(" t) = found ++ find_paren O (String "(" t).
Proof.
  induction pre as [|c r IH]; intros skip Hskip.
  - simpl in Hskip. assert (skip = O) as -> by lia. now exists [].
  - change (String c r ++ String "(" t)%string
      with (String c (r ++ String "(" t)%string).
    cbn [find_paren]. simpl in Hskip. destruct skip as [|k].
    + destruct (match_paren (String c (r ++ String "(" t))) as [cap|] eqn:Hm.
      * apply match_paren_fits in Hm.
        destruct (IH (String.length cap + 1)%nat Hm) as [found Hf].
        exists (cap :: found). now rewrite Hf.
      * apply IH. lia.
    + apply IH. lia.
Qed.

Lemma find_paren_token symbol post :
  all_chars is_upper symbol = true -> (1 <= String.length symbol)%nat ->
  exists rest,
    find_paren O (String "(" (symbol ++ String ")" post)) = symbol :: rest.
Proof.
  intros Hup Hlen. cbn [find_paren].
  assert (Hm : match_paren (String "(" (symbol ++ String ")" post)) = Some symbol).
  { unfold match_paren. cbn [nat_of_ascii]. change (_ =? 40)%nat with true. cbn iota.
    rewrite (upper_run_append_stop symbol (String ")" post) Hup eq_refl).
    rewrite first_down_top; [now rewrite take_append | assumption |].
    unfold get_is. now rewrite get_append_end. }
  rewrite Hm. now eexists.
Qed.

(** X8: a parenthesized token is always found.  Wherever a title holds
    [(SYMBOL)], with [SYMBOL] 2 to 10 capital letters, [SYMBOL] is in
    the list [extractCoinSymbols] returns, whatever surrounds the token
    and whether or not the word is on the stoplist. *)
Theorem parenthesized_symbol_is_extracted (pre symbol post : string) :
  all_chars is_upper symbol = true ->
  (2 <= String.length symbol <= 10)%nat ->
  In symbol (extractCoinSymbols (pre ++ "(" ++ symbol ++ ")" ++ post)).
Proof.
  intros Hup Hlen. unfold extractCoinSymbols.
  apply removeDuplicates_In, in_or_app. left.
  unfold paren_symbols. apply filter_In. split; [|now apply capitals_are_valid].
  apply in_map_iff. exists symbol. split; [now apply symbol_of_upper|].
  change ("(" ++ symbol ++ ")" ++ post)%string
    with (String "(" (symbol ++ String ")" post)%string).
  destruct (find_paren_prefix (symbol ++ String ")" post) pre O ltac:(lia))
    as [found ->].
  destruct (find_paren_token symbol post Hup ltac:(lia)) as [rest ->].
  apply in_or_app. right. now left.
Qed.

Lemma parenthesized_symbol_is_extracted_witness :
  In "BTC"%string (extractCoinSymbols "Trading support (x) for Bitcoin(BTC), soon").
Proof.
  exact (parenthesized_symbol_is_extracted "Trading support (x) for Bitcoin"
           "BTC" ", soon" eq_refl ltac:(cbn; lia)).
Defined.

Lemma not_word_not_upper c : is_word c = false -> is_upper c = false.
Proof.
  intros H. destruct (is_upper c) eqn:Hc; [|reflexivity].
  now rewrite (upper_is_word _ Hc) in H.
Qed.

Lemma upper_run_before_break a : forall x t,
  from_option is_word false (last_byte (Some x) a) = false ->
  (upper_run (String x a ++ t) <= String.length a)%nat.
Proof.
  induction a as [|y a IH]; intros x t H; cbn [last_byte] in H.
  - cbn [from_option] in H. apply not_word_not_upper in H.
    change (upper_run (String x t) <= 0)%nat. cbn [upper_run]. now rewrite H.
  - specialize (IH y t H).
    change (upper_run (String x (String y a ++ t)) <= S (String.length a))%nat.
    cbn [upper_run]. destruct (is_upper x); lia.
Qed.

Lemma last_byte_all f a : forall x,
  all_chars f (String x a) = true ->
  exists c, last_byte (Some x) a = Some c /\ f c = true.
Proof.
  induction a as [|y a IH]; intros x H; cbn [all_chars] in H;
    apply andb_true_iff in H as [Hx Ha].
  - now exists x.
  - apply (IH y Ha).
Qed.

(** A match of pattern 2 that starts in a text ending outside a word
    ends within that text. *)
Lemma match_word_fits prev c r t cap :
  from_option is_word false (last_byte (Some c) r) = false ->
  match_word prev (String c (r ++ t)) = Some cap ->
  (String.length cap - 1 <= String.length r)%nat.
Proof.
  intros Hlast. unfold match_word.
  destruct (word_boundary prev _); [|discriminate].
  destruct (first_down _ 2 _) as [k|] eqn:Hk; [|discriminate].
  intros [= <-]. apply first_down_bounds in Hk.
  pose proof (upper_run_before_break r c t Hlast) as Hrun.
  change (String c r ++ t)%string with (String c (r ++ t)%string) in Hrun.
  rewrite take_length by (cbn [String.length]; rewrite length_append; lia).
  lia.
Qed.

Lemma find_word_prefix t pre : forall prev skip,
  (skip <= String.length pre)%nat ->
  from_option is_word false (last_byte prev pre) = false ->
  exists found,
    find_word prev skip (pre ++ t) = found ++ find_word (last_byte prev pre) O t.
Proof.
  induction pre as [|c r IH]; intros prev skip Hskip Hlast.
  - simpl in Hskip. assert (skip = O) as -> by lia. now exists [].
  - change (String c r ++ t)%string with (String c (r ++ t)%string).
    cbn [find_word last_byte] in *. simpl in Hskip. destruct skip as [|k].
    + destruct (match_word prev (String c (r ++ t))) as [cap|] eqn:Hm.
      * apply (match_word_fits _ _ _ _ _ Hlast) in Hm.
        destruct (IH (Some c) (String.length cap - 1)%nat Hm Hlast) as [found Hf].
        exists (cap :: found). now rewrite Hf.
      * apply IH; [lia | assumption].
    + apply IH; [lia | assumption].
Qed.

Lemma find_word_token prev symbol post :
  from_option is_word false prev = false ->
  all_chars is_upper symbol = true ->
  (2 <= String.length symbol <= 10)%nat ->
  starts_outside_word post ->
  exists rest, find_word prev O (symbol ++ post) = symbol :: rest.
Proof.
  intros Hprev Hup Hlen Hpost.
  destruct symbol as [|s0 sr]; [simpl in Hlen; lia|].
  assert (Hstop : get_is is_upper 0 post = false).
  { unfold starts_outside_word in Hpost. unfold get_is.
    destruct (String.get 0 post) as [d|]; [|reflexivity].
    now apply not_word_not_upper. }
  assert (Hm : match_word prev (String s0 sr ++ post) = Some (String s0 sr)).
  { unfold match_word.
    pose proof Hup as Hs0. cbn [all_chars] in Hs0.
    apply andb_true_iff in Hs0 as [Hs0 _].
    change (String.get 0 (String s0 sr ++ post)) with (Some s0).
    unfold word_boundary at 1. rewrite Hprev. cbn [from_option].
    rewrite (upper_is_word _ Hs0). cbn [xorb].
    rewrite (upper_run_append_stop _ post Hup Hstop).
    rewrite Nat.min_l by lia.
    rewrite first_down_top; [now rewrite take_append | lia |].
    cbn [String.length]. rewrite Nat.sub_succ, Nat.sub_0_r.
    rewrite get_append_last.
    destruct (last_byte_all is_upper sr s0 Hup) as (c & -> & Hc).
    unfold word_boundary. cbn [from_option]. rewrite (upper_is_word _ Hc).
    change (S (String.length sr)) with (String.length (String s0 sr)).
    destruct post as [|d post'].
    - now rewrite get_append_empty.
    - rewrite get_append_end. cbn [from_option].
      unfold starts_outside_word in Hpost. cbn in Hpost. now rewrite Hpost. }
  change (String s0 sr ++ post)%string with (String s0 (sr ++ post)%string) in *.
  cbn [find_word]. rewrite Hm. now eexists.
Qed.

(** X9: a bare symbol is always found.  Wherever a title holds a word
    of 2 to 10 capital letters that is not on the stoplist, standing by
    itself (the text before it is empty or ends in a byte that is not a
    letter, digit or underscore, and likewise the text after it), the
    word is in the list [extractCoinSymbols] returns. *)
Theorem bare_symbol_is_extracted (pre symbol post : string) :
  ends_outside_word pre ->
  starts_outside_word post ->
  all_chars is_upper symbol = true ->
  (2 <= String.length symbol <= 10)%nat ->
  isCommonWord symbol = false ->
  In symbol (extractCoinSymbols (pre ++ symbol ++ post)).
Proof.
  intros Hpre Hpost Hup Hlen Hstop. unfold extractCoinSymbols.
  apply removeDuplicates_In, in_or_app. right.
  unfold word_symbols. apply filter_In. split.
  - apply in_map_iff. exists symbol. split; [now apply symbol_of_upper|].
    destruct (find_word_prefix (symbol ++ post) pre None O ltac:(lia) Hpre)
      as [found ->].
    destruct (find_word_token (last_byte None pre) symbol post Hpre Hup Hlen Hpost)
      as [rest ->].
    apply in_or_app. right. now left.
  - now rewrite (capitals_are_valid _ Hup Hlen), Hstop.
Qed.

Lemma bare_symbol_is_extracted_witness :
  In "TOSHI"%string (extractCoinSymbols "[Notice] TOSHI listing").
Proof.
  exact (bare_symbol_is_extracted "[Notice] " "TOSHI" " listing"
           eq_refl eq_refl eq_refl ltac:(cbn; lia) eq_refl).
Defined.

(** *** Validation and deduplication, once more *)

Lemma upper_not_digit c : is_upper c = true -> is_digit c = false.
Proof.
  unfold is_upper, is_digit. cbv zeta. generalize (nat_of_ascii c). intros n H.
  apply andb_true_iff in H as [H1 H2]. apply Nat.leb_le in H1, H2.
  apply andb_false_iff. right. apply Nat.leb_gt. lia.
Qed.

Lemma letters_and_digits symbol :
  all_chars (fun c => is_upper c || is_digit c) symbol = true ->
  (count_chars is_upper symbol + count_chars is_digit symbol
   = String.length symbol)%nat.
Proof.
  induction symbol as [|c r IH]; cbn [all_chars count_chars String.length];
    [reflexivity|].
  intros H. apply andb_true_iff in H as [Hc Hr]. specialize (IH Hr).
  destruct (is_upper c) eqn:Hu.
  - rewrite (upper_not_digit _ Hu). lia.
  - cbn in Hc. rewrite Hc. lia.
Qed.

(** X10: what the validity test lets through.  A symbol it accepts has
    2 to 10 characters, each a capital letter or a digit, and at least
    one of them a letter: a token of digits only is always rejected.
    The letters may fall short of half the characters, by one at most,
    because the half is rounded down. *)
Theorem valid_symbol_has_a_letter (symbol : string) :
  isValidCoinSymbol symbol = true ->
  (1 <= count_chars is_upper symbol)%nat /\
  (String.length symbol <= 2 * count_chars is_upper symbol + 1)%nat /\
  (count_chars is_upper symbol + count_chars is_digit symbol
   = String.length symbol)%nat /\
  (count_chars is_digit symbol < String.length symbol)%nat.
Proof.
  intros Hv.
  pose proof (isValidCoinSymbol_length _ Hv) as Hlen.
  pose proof (letters_and_digits _ (isValidCoinSymbol_chars _ Hv)) as Hsum.
  assert (Hhalf : (String.length symbol / 2 <= count_chars is_upper symbol)%nat).
  { unfold isValidCoinSymbol in Hv.
    destruct (_ || _); [discriminate|].
    destruct (all_chars _ symbol); [|discriminate].
    now apply Nat.leb_le in Hv. }
  pose proof (Nat.div_mod_eq (String.length symbol) 2) as Hdm.
  pose proof (Nat.mod_upper_bound (String.length symbol) 2 ltac:(lia)) as Hm.
  assert (1 <= String.length symbol / 2)%nat
    by (apply Nat.div_le_lower_bound; lia).
  lia.
Qed.

Lemma valid_symbol_has_a_letter_witness :
  (1 <= count_chars is_upper "A12")%nat /\
  (String.length "A12" <= 2 * count_chars is_upper "A12" + 1)%nat /\
  isValidCoinSymbol "123" = false.
Proof.
  destruct (valid_symbol_has_a_letter "A12" eq_refl) as (H1 & H2 & _).
  repeat split; assumption.
Defined.

Lemma removeDuplicates_from_fixed symbols : forall seen,
  NoDup symbols -> (forall x, x ∈ symbols -> x ∉ seen) ->
  removeDuplicates_from seen symbols = symbols.
Proof.
  induction symbols as [|a rest IH]; intros seen Hnd Hseen; [reflexivity|].
  apply NoDup_cons in Hnd as [Ha Hnd]. cbn [removeDuplicates_from].
  destruct (decide (a ∈ seen)) as [Hin|_].
  - exfalso. apply (Hseen a); [left | assumption].
  - f_equal. apply IH; [assumption|].
    intros x Hx. specialize (Hseen x ltac:(now right)). set_solver.
Qed.

Lemma removeDuplicates_from_sublist symbols : forall seen,
  sublist (removeDuplicates_from seen symbols) symbols.
Proof.
  induction symbols as [|a rest IH]; intros seen; cbn [removeDuplicates_from];
    [constructor|].
  destruct (decide (a ∈ seen)); [apply sublist_cons | apply sublist_skip]; apply IH.
Qed.

(** X11: [removeDuplicates] keeps the first occurrence of every symbol
    and the order of the list: its result is a subsequence of its
    argument with the same members and no repetition, a list without
    repetition comes back unchanged, and a second pass changes nothing. *)
Theorem removeDuplicates_keeps_first_occurrences (symbols : list string) :
  sublist (removeDuplicates symbols) symbols /\
  (forall x, In x (removeDuplicates symbols) <-> In x symbols) /\
  NoDup (removeDuplicates symbols) /\
  (NoDup symbols -> removeDuplicates symbols = symbols) /\
  removeDuplicates (removeDuplicates symbols) = removeDuplicates symbols /\
  hd_error (removeDuplicates symbols) = hd_error symbols.
Proof.
  assert (Hfix : forall l : list string, NoDup l -> removeDuplicates l = l).
  { intros l Hl. apply removeDuplicates_from_fixed; [assumption | set_solver]. }
  split; [apply removeDuplicates_from_sublist|].
  split; [intros x; apply removeDuplicates_In|].
  split; [apply removeDuplicates_from_NoDup|].
  split; [apply Hfix|].
  split; [apply Hfix, removeDuplicates_from_NoDup|].
  destruct symbols as [|a rest]; [reflexivity|].
  unfold removeDuplicates. cbn [removeDuplicates_from].
  destruct (decide (a ∈ (∅ : gset string))) as [H|_]; [set_solver | reflexivity].
Qed.

(** *** Decimal integers *)

Lemma pretty_N_char_digit d :
  (d < 10)%N ->
  is_digit (pretty_N_char d) = true /\
  Z.of_nat (nat_of_ascii (pretty_N_char d)) - 48 = Z.of_N d.
Proof.
  intros H.
  assert (d = 0 \/ d = 1 \/ d = 2 \/ d = 3 \/ d = 4 \/ d = 5 \/ d = 6 \/
          d = 7 \/ d = 8 \/ d = 9)%N as Hd by lia.
  repeat (destruct Hd as [-> | Hd]; [split; reflexivity|]).
  subst d. split; reflexivity.
Qed.

(** Reading the digits [pretty_N_go] writes in front of [s]. *)
Lemma digits_value_pretty_N_go x :
  exists p, forall s acc,
    digits_value acc (pretty_N_go x s) = digits_value (acc * p + Z.of_N x) s.
Proof.
  induction (N.lt_wf_0 x) as [x _ IH].
  destruct (decide (x = 0)%N) as [-> | Hx].
  - exists 1. intros s acc. rewrite pretty_N_go_0. f_equal. lia.
  - destruct (IH (x `div` 10)%N) as [p Hp]; [apply N.div_lt; lia|].
    exists (10 * p). intros s acc.
    rewrite pretty_N_go_step by lia. rewrite Hp. cbn [digits_value].
    destruct (pretty_N_char_digit (x `mod` 10)%N) as [-> ->];
      [apply N.mod_lt; lia|].
    f_equal. pose proof (N.div_mod x 10 ltac:(lia)). lia.
Qed.

Lemma pretty_N_go_length x : forall s,
  (String.length s <= String.length (pretty_N_go x s))%nat.
Proof.
  induction (N.lt_wf_0 x) as [x _ IH]. intros s.
  destruct (decide (x = 0)%N) as [-> | Hx]; [now rewrite pretty_N_go_0|].
  rewrite pretty_N_go_step by lia.
  etransitivity; [|apply IH; apply N.div_lt; lia]. simpl. lia.
Qed.

Lemma digits_value_pretty_positive (q : positive) :
  digits_value 0 (pretty (N.pos q)) = Some (Z.pos q) /\
  pretty (N.pos q) <> ""%string.
Proof.
  unfold pretty, pretty_N. destruct (decide (N.pos q = 0)%N) as [H|_];
    [discriminate H|].
  split.
  - destruct (digits_value_pretty_N_go (N.pos q)) as [p Hp].
    rewrite Hp. reflexivity.
  - rewrite pretty_N_go_step by lia.
    pose proof (pretty_N_go_length (N.pos q `div` 10)
                  (String (pretty_N_char (N.pos q `mod` 10)) "")) as Hl.
    intros Heq. rewrite Heq in Hl. simpl in Hl. lia.
Qed.

Lemma Atoi_of_digits s v :
  s <> ""%string -> digits_value 0 s = Some v ->
  Atoi s = if (MinInt64 <=? v) && (v <=? MaxInt64) then Some v else None.
Proof.
  intros Hs Hv. destruct s as [|c r]; [contradiction|].
  assert (Hc : is_digit c = true).
  { cbn [digits_value] in Hv. now destruct (is_digit c). }
  assert (Hsign : (nat_of_ascii c =? 45)%nat = false /\
                  (nat_of_ascii c =? 43)%nat = false).
  { unfold is_digit in Hc. cbv zeta in Hc.
    apply andb_true_iff in Hc as [H1 H2]. apply Nat.leb_le in H1, H2.
    split; apply Nat.eqb_neq; lia. }
  unfold Atoi. destruct Hsign as [-> ->]. cbn [orb]. now rewrite Hv.
Qed.

(** The decimal rendering of a number parses to the number when it is an
    [int64], and to an error when it is not. *)
Lemma Atoi_pretty (n : Z) :
  Atoi (pretty n) = if (MinInt64 <=? n) && (n <=? MaxInt64) then Some n else None.
Proof.
  destruct n as [|q|q].
  - reflexivity.
  - destruct (digits_value_pretty_positive q) as [Hv Hne].
    now apply Atoi_of_digits.
  - destruct (digits_value_pretty_positive q) as [Hv Hne].
    change (pretty (Z.neg q)) with (String "-" (pretty (N.pos q))).
    unfold Atoi.
    destruct (pretty (N.pos q)) as [|c r] eqn:Hp; [contradiction|].
    change (nat_of_ascii "-" =? 45)%nat with true. cbn [orb].
    cbv iota. rewrite Hv. reflexivity.
Qed.

Lemma Atoi_pretty_int64 (n : Z) :
  MinInt64 <= n <= MaxInt64 -> Atoi (pretty n) = Some n.
Proof.
  intros [H1 H2]. rewrite Atoi_pretty.
  apply Z.leb_le in H1, H2. now rewrite H1, H2.
Qed.

(** X12: [strconv.Atoi] reads back the decimal rendering of a number
    exactly when the number is an [int64]: the digits, after a minus
    sign when it is negative, parse to the number itself, and the
    rendering of a number outside the 64-bit range is refused. *)
Theorem Atoi_reads_decimal (n : Z) :
  Atoi (pretty n) = Some n <-> MinInt64 <= n <= MaxInt64.
Proof.
  rewrite Atoi_pretty. split.
  - destruct (MinInt64 <=? n) eqn:H1; [|discriminate].
    destruct (n <=? MaxInt64) eqn:H2; [|discriminate].
    intros _. apply Z.leb_le in H1, H2. lia.
  - intros [H1 H2]. apply Z.leb_le in H1, H2. now rewrite H1, H2.
Qed.

End UpbitMonitor.

(** ** The dispatcher and the reconciliation loop
       ([services/trading_engine.go]) *)

Module TradingEngine.

Import Models.

(** *** One reconciliation task: [updatePositionPNL]

    The collaborators are outside the core; what each of them answers
    during one pass is given.  Every one is called at most once on any
    path through the function. *)

(** The answer of [bitgetAPI.GetPosition]: an error, a nil position, or a
    position with its [Size]. *)
Inductive position_reply : Set :=
| QueryError
| NoPosition
| LivePosition (size : string).

Record venue : Set := mkVenue {
  credentials_ok : bool;             (* GetAPICredentials returns no error *)
  live_position : position_reply;    (* GetPosition *)
  close_save_ok : bool;              (* db.Save in the no-longer-exists branch *)
  price_reply : option float;        (* GetSymbolPrice, None on error *)
  update_save_ok : bool;             (* db.Save of the recomputed position *)
  close_order_ok : bool;             (* ClosePosition in executeTakeProfit *)
  final_save_ok : bool;              (* db.Save in executeTakeProfit *)
  clock : Z                          (* time.Now() *)
}.

(** What a task does to the world, in order. *)
Inductive action : Set :=
| GetCredentials
| GetPosition (symbol : string)
| GetSymbolPrice (symbol : string)
| Save (p : Position) (ok : bool)    (* db.Save(&position) and whether it took *)
| ClosePosition (symbol : string) (quantity : float)
| NotifyClosed (user : Z)            (* "... was automatically closed ..." *)
| NotifyCloseFailed (user : Z)       (* the take-profit close was refused *)
| NotifyTakeProfit (user : Z)        (* "TAKE PROFIT EXECUTED" *)
| SendPNLUpdate (user : Z) (p : Position).

(** [err != nil || bitgetPosition == nil || bitgetPosition.Size == "0"]. *)
Definition treated_as_gone (r : position_reply) : bool :=
  match r with
  | QueryError => true
  | NoPosition => true
  | LivePosition size => String.eqb size "0"
  end.

(** [executeTakeProfit]. *)
Definition executeTakeProfit (v : venue) (position : Position) : list action :=
  ClosePosition (Symbol position) (Quantity position) ::
  if close_order_ok v
  then [Save (close_at (clock v) position) (final_save_ok v);
        NotifyTakeProfit (TelegramID (Owner position))]
  else [NotifyCloseFailed (TelegramID (Owner position))].

(** [updatePositionPNL]. *)
Definition updatePositionPNL (v : venue) (position : Position) : list action :=
  GetCredentials ::
  if negb (credentials_ok v) then []
  else
    GetPosition (Symbol position) ::
    if treated_as_gone (live_position v) then
      Save (close_at (clock v) position) (close_save_ok v) ::
      if close_save_ok v then [NotifyClosed (TelegramID (Owner position))] else []
    else
      GetSymbolPrice (Symbol position) ::
      match price_reply v with
      | None => []
      | Some currentPrice =>
        let position1 := CalculatePNL (set_CurrentPrice currentPrice position) in
        Save position1 (update_save_ok v) ::
        if negb (update_save_ok v) then []
        else if ShouldTakeProfit position1
             then executeTakeProfit v position1
             else [SendPNLUpdate (TelegramID (Owner position1)) position1]
      end.

(** The persisted record after a list of actions: the last value a
    successful save wrote, else the record as it was. *)
Fixpoint persisted (before : Position) (acts : list action) : Position :=
  match acts with
  | [] => before
  | Save p true :: rest => persisted p rest
  | _ :: rest => persisted before rest
  end.

(** The venue reports the position as no longer existing. *)
Definition reported_gone (v : venue) : Prop :=
  live_position v = NoPosition \/ live_position v = LivePosition "0".

(** The current price has reached the take-profit target. *)
Definition target_reached (v : venue) (position : Position) : Prop :=
  exists currentPrice,
    price_reply v = Some currentPrice /\
    (TakeProfitPrice position <=? currentPrice)%float = true.

(** The transition to Closed as the specification words it. *)
Definition closes_as_specified (v : venue) (position : Position) : Prop :=
  Status position = PositionOpen ->
  (Status (persisted position (updatePositionPNL v position)) = PositionClosed
   <-> reported_gone v \/ target_reached v position).

(** The answers of [v] with the venue query failing: the credentials
    decrypt, [GetPosition] returns an error, the save works; the price
    and the rest are as in [v]. *)
Definition with_query_error (v : venue) : venue :=
  mkVenue true QueryError true (price_reply v) (update_save_ok v)
    (close_order_ok v) (final_save_ok v) (clock v).

(** The notices "... was automatically closed (no longer exists on
    Bitget)" among the actions. *)
Fixpoint closed_notices (acts : list action) : nat :=
  match acts with
  | [] => O
  | NotifyClosed _ :: rest => S (closed_notices rest)
  | _ :: rest => closed_notices rest
  end.

(** The venue query times out; everything else would work, and the
    price is below the target. *)
Definition timed_out : venue := mkVenue true QueryError true (Some 110%float) true true true 5.

(** The venue reports size "0". *)
Definition flat : venue := mkVenue true (LivePosition "0") true (Some 110%float) true true true 5.

(** *** One reconciliation cycle: [updateAllPositions] *)

(** A unit of work handed to [safeGoTE]: which entry point made it and
    for which actor ([TelegramID]). *)
Inductive route : Set :=
| Pooled      (* the closures of handleNewCoin and updateAllPositions *)
| Direct.     (* handleTestCoin calling processUserTrade itself *)

Inductive cycle_event : Set :=
| TryLock (ok : bool)          (* te.updating.TryLock() *)
| QueryOpenPositions           (* db ... Where("status = ?", open).Find *)
| Launch (p : Position)        (* safeGoTE("updatePositionPNL", ...) *)
| Unlock.                      (* the deferred te.updating.Unlock() *)

Inductive query_reply : Set :=
| QueryFailed
| Positions (ps : list Position).

(** [updateAllPositions], given whether the database is connected, what
    the query answers and whether [te.updating] is held when the cycle
    starts: the events of the cycle, whether [te.updating] is held when
    it returns, and the tasks it has started. *)
Definition updateAllPositions (connected : bool) (q : query_reply) (updating : bool)
  : list cycle_event * bool * list Position :=
  if negb connected then ([], updating, [])
  else if updating then ([TryLock false], updating, [])
  else
    match q with
    | QueryFailed => ([TryLock true; QueryOpenPositions; Unlock], false, [])
    | Positions ps =>
      ([TryLock true; QueryOpenPositions] ++ map Launch ps ++ [Unlock], false, ps)
    end.

Definition is_query (e : cycle_event) : bool :=
  match e with QueryOpenPositions => true | _ => false end.

Definition is_launch (e : cycle_event) : bool :=
  match e with Launch _ => true | _ => false end.

(** *** The worker pool and the per-user locks

    The interleavings of the engine's units of work.  A pooled unit is
    the closure [handleNewCoin] and [updateAllPositions] hand to
    [safeGoTE]:

      te.apiWorkerPool <- struct{}{}          Idle     -> HasSlot
      userMutex.Lock()                        HasSlot  -> Working
      processUserTrade / updatePositionPNL    (the external calls)
      userMutex.Unlock()       (deferred)     Working  -> Unlocked
      <-te.apiWorkerPool       (deferred)     Unlocked -> Idle

    and [safeGoTE] then calls the closure again (see [Supervisor]).  A
    direct unit is [handleTestCoin], which calls [processUserTrade] in
    the dispatcher's own goroutine with neither send nor lock. *)

Inductive pc : Set := Idle | HasSlot | Working | Unlocked | Done.

Record worker : Set := mkWorker { via : route; actor : Z; at_pc : pc }.

Record engine : Type := mkEngine {
  apiWorkerPool : nat;          (* len(te.apiWorkerPool), capacity 10 *)
  locked : gset Z;              (* the users whose mutex is held *)
  workers : list worker
}.

Definition poolCapacity : nat := 10.

(** [NewTradingEngine]: an empty pool, no lock held, nothing running. *)
Definition NewTradingEngine : engine := mkEngine 0 ∅ [].

Definition put (i : nat) (w : worker) (pool : nat) (held : gset Z) (e : engine) : engine :=
  mkEngine pool held (<[i := w]> (workers e)).

(** Worker [i] takes its next step, if it can: a send on a full pool and
    a [Lock] on a held mutex block, and the state stays as it is. *)
Definition advance (i : nat) (e : engine) : engine :=
  match workers e !! i with
  | None => e
  | Some w =>
    match via w, at_pc w with
    | Pooled, Idle =>
      if (apiWorkerPool e <? poolCapacity)%nat
      then put i (mkWorker Pooled (actor w) HasSlot) (S (apiWorkerPool e)) (locked e) e
      else e
    | Pooled, HasSlot =>
      if bool_decide (actor w ∈ locked e) then e
      else put i (mkWorker Pooled (actor w) Working) (apiWorkerPool e)
             ({[actor w]} ∪ locked e) e
    | Pooled, Working =>
      put i (mkWorker Pooled (actor w) Unlocked) (apiWorkerPool e)
        (locked e ∖ {[actor w]}) e
    | Pooled, Unlocked =>
      put i (mkWorker Pooled (actor w) Idle) (Nat.pred (apiWorkerPool e)) (locked e) e
    | Pooled, Done => e
    | Direct, Idle =>
      put i (mkWorker Direct (actor w) Working) (apiWorkerPool e) (locked e) e
    | Direct, Working =>
      put i (mkWorker Direct (actor w) Done) (apiWorkerPool e) (locked e) e
    | Direct, _ => e
    end
  end.

(** A move of the scheduler: a unit of work is created, or one takes a step. *)
Inductive move : Set :=
| Start (r : route) (user : Z)
| Advance (i : nat).

Definition make (m : move) (e : engine) : engine :=
  match m with
  | Start r user =>
    mkEngine (apiWorkerPool e) (locked e) (workers e ++ [mkWorker r user Idle])
  | Advance i => advance i e
  end.

(** The engine after a schedule, from its initial state. *)
Definition run (schedule : list move) : engine :=
  fold_left (fun e m => make m e) schedule NewTradingEngine.

Fixpoint count (f : worker -> bool) (ws : list worker) : nat :=
  match ws with
  | [] => O
  | w :: rest => ((if f w then 1 else 0) + count f rest)%nat
  end.

(** The worker is inside the external call sequence. *)
Definition in_call (w : worker) : bool :=
  match at_pc w with Working => true | _ => false end.

Definition in_call_for (user : Z) (w : worker) : bool :=
  in_call w && bool_decide (actor w = user).

Definition holds_slot (w : worker) : bool :=
  match via w, at_pc w with
  | Pooled, (HasSlot | Working | Unlocked) => true
  | _, _ => false
  end.

Definition pooled_call (w : worker) : bool :=
  match via w, at_pc w with
  | Pooled, Working => true
  | _, _ => false
  end.

Definition pooled_call_for (user : Z) (w : worker) : bool :=
  pooled_call w && bool_decide (actor w = user).

(** The bound as the specification words it, over every path. *)
Definition bounded_as_specified (schedule : list move) : Prop :=
  (count in_call (workers (run schedule)) <= 10)%nat /\
  forall user, (count (in_call_for user) (workers (run schedule)) <= 1)%nat.

(** Ten dispatch tasks, for users 1 to 10, reach their external calls;
    a test injection for user 1 is then handled. *)
Definition ten_and_a_test : list move :=
  map (fun u => Start Pooled u) [1; 2; 3; 4; 5; 6; 7; 8; 9; 10]
  ++ [Start Direct 1]
  ++ flat_map (fun i => [Advance i; Advance i]) (seq 0 10)
  ++ [Advance 10%nat].

(** What holds in every reachable state. *)
Definition pool_invariant (e : engine) : Prop :=
  count holds_slot (workers e) = apiWorkerPool e /\
  (apiWorkerPool e <= poolCapacity)%nat /\
  forall user,
    count (pooled_call_for user) (workers e)
    = if bool_decide (user ∈ locked e) then 1%nat else 0%nat.

(** *** The test injection, as [handleTestCoin] reads it *)

Definition is_colon (c : ascii) : bool := (nat_of_ascii c =? 58)%nat.

(** [strings.Split(s, ":")]: the pieces between the colons, one more
    than there are colons. *)
Fixpoint Split (s : string) : list string :=
  match s with
  | EmptyString => [EmptyString]
  | String c r =>
    if is_colon c then EmptyString :: Split r
    else match Split r with
         | piece :: pieces => String c piece :: pieces
         | [] => [String c EmptyString]
         end
  end.

(** [strconv.ParseInt(s, 10, 64)]: [strconv.Atoi] is this function on a
    64-bit platform. *)
Definition ParseInt64 (s : string) : option Z := UpbitMonitor.Atoi s.

(** The head of [handleTestCoin]: the coin symbol and the user the test
    data names, or [None] where the function logs the data as invalid
    and returns. *)
Definition parse_test_data (testData : string) : option (string * Z) :=
  match Split testData with
  | [coinSymbol; userIDStr] =>
    match ParseInt64 userIDStr with
    | Some userID => Some (coinSymbol, userID)
    | None => None
    end
  | _ => None
  end.

(** *** One dispatch task: [processUserTrade] *)

(** What the collaborators answer during one trade. *)
Record market : Set := mkMarket {
  trader_credentials_ok : bool;     (* GetAPICredentials returns no error *)
  symbol_listed : bool;              (* IsSymbolValid *)
  quote : option float;              (* GetSymbolPrice, None on error *)
  order_reply : option string;       (* OpenLongPosition: the order id, None on error *)
  position_saved : bool;             (* db.Create took *)
  opened_at : Z                      (* time.Now() in the BeforeCreate hook *)
}.

Inductive trade_step : Set :=
| ReadCredentials
| IsSymbolValid (symbol : string)
| QuotePrice (symbol : string)
| OpenLongPosition (symbol : string) (amount : float) (leverage : Z)
| NotifyOpenFailed (user : Z)
| Create (p : Position) (ok : bool)
| SendTradeNotification (user : Z) (coin orderID : string)
    (entry takeProfit : float) (leverage : Z) (amount : float).

(** The zero value of [models.User], the [User] field of a [Position]
    built without one. *)
Definition no_user : User := mkUser 0 0 0 0 0 false.

(** The [models.Position] literal of [processUserTrade], as it reaches
    the database: [ID] still zero, [OpenedAt] set by the hook. *)
Definition new_position (m : market) (user : User) (coinSymbol symbol orderID : string)
    (currentPrice : float) : Position :=
  mkPosition 0 orderID (UserKey user) coinSymbol symbol
    currentPrice currentPrice
    ((TradeAmount user * float64_of_int (UserLeverage user)) / currentPrice)%float
    (UserLeverage user)
    (currentPrice * (1 + TakeProfitPercentage user / 100))%float
    0 0 PositionOpen (opened_at m) None no_user.

Section Dispatch.

(** [BitgetAPI.FormatSymbol], whose source is not part of the core
    ("TOSHI -> TOSHIUSDT"). *)
Variable FormatSymbol : string -> string.

(** [processUserTrade]. *)
Definition processUserTrade (m : market) (user : User) (coinSymbol : string)
  : list trade_step :=
  ReadCredentials ::
  if negb (trader_credentials_ok m) then []
  else
    let symbol := FormatSymbol coinSymbol in
    IsSymbolValid symbol ::
    if negb (symbol_listed m) then []
    else
      QuotePrice symbol ::
      match quote m with
      | None => []
      | Some currentPrice =>
        OpenLongPosition symbol (TradeAmount user) (UserLeverage user) ::
        match order_reply m with
        | None => [NotifyOpenFailed (TelegramID user)]
        | Some orderID =>
          [Create (new_position m user coinSymbol symbol orderID currentPrice)
                  (position_saved m);
           SendTradeNotification (TelegramID user) coinSymbol orderID currentPrice
             (currentPrice * (1 + TakeProfitPercentage user / 100))%float
             (UserLeverage user) (TradeAmount user)]
        end
      end.

(** The users table, as the two queries of the dispatcher see it. *)
Definition active_users (table : list User) : list User :=
  List.filter IsActive table.

Definition active_user (table : list User) (userID : Z) : option User :=
  List.find (fun u => (TelegramID u =? userID) && IsActive u) table.

(** [handleNewCoin]: the users it starts a pooled task for, in order. *)
Definition handleNewCoin (connected : bool) (table : option (list User))
  : list User :=
  if negb connected then []
  else match table with
       | None => []                      (* the query failed *)
       | Some users => active_users users
       end.

(** [handleTestCoin]: what it does itself, in the dispatcher's
    goroutine. *)
Definition handleTestCoin (m : market) (table : option (list User))
    (testData : string) : list trade_step :=
  match parse_test_data testData with
  | None => []
  | Some (coinSymbol, userID) =>
    match table with
    | None => []                         (* database not available *)
    | Some users =>
      match active_user users userID with
      | None => []
      | Some user => processUserTrade m user coinSymbol
      end
    end
  end.

End Dispatch.

Definition is_order (a : trade_step) : bool :=
  match a with OpenLongPosition _ _ _ => true | _ => false end.

(** The opening orders among the steps. *)
Definition orders (steps : list trade_step) : nat :=
  length (List.filter is_order steps).

(** What a supervised closure does over the supervisor's trace: its
    body, once for every call. *)
Definition supervised {A : Type} (evs : list Supervisor.event) (body : list A) : list A :=
  flat_map (fun e => match e with Supervisor.Run _ => body | _ => [] end) evs.

(** A venue that answers every call. *)
Definition open_market : market :=
  mkMarket true true (Some 2%float) (Some "ord-7"%string) true 9.

(** *** The lock registry: [getUserMutex]

    A mutex is known by its address; the [n]-th [&sync.Mutex{}] the
    registry allocates is mutex [n].  A call has two critical sections:
    the lookup under the read lock and, after a miss, the second lookup
    and the insertion under the write lock.  Other calls may run between
    the two. *)

Inductive phase : Set :=
| Calling                (* before the lookup under RLock *)
| Missed                 (* the lookup found nothing; Lock() is next *)
| Holding (mutex : nat). (* the call has returned this mutex *)

Record call : Set := mkCall { who : Z; stage : phase }.

Record registry : Type := mkRegistry {
  userMutexes : gmap Z nat;
  allocated : nat;               (* mutexes created so far *)
  calls : list call
}.

Definition empty_registry : registry := mkRegistry ∅ 0 [].

(** The critical section under the read lock. *)
Definition read_section (userID : Z) (r : registry) : phase :=
  match userMutexes r !! userID with
  | Some mutex => Holding mutex
  | None => Missed
  end.

(** The critical section under the write lock: the map and the
    allocation count after it, and the mutex returned. *)
Definition write_section (userID : Z) (r : registry) : gmap Z nat * nat * nat :=
  match userMutexes r !! userID with
  | Some mutex => (userMutexes r, allocated r, mutex)
  | None => (<[userID := allocated r]> (userMutexes r), S (allocated r), allocated r)
  end.

(** Call [i] runs its next critical section. *)
Definition proceed (i : nat) (r : registry) : registry :=
  match calls r !! i with
  | None => r
  | Some c =>
    match stage c with
    | Calling =>
      mkRegistry (userMutexes r) (allocated r)
        (<[i := mkCall (who c) (read_section (who c) r)]> (calls r))
    | Missed =>
      let '(map, count, mutex) := write_section (who c) r in
      mkRegistry map count (<[i := mkCall (who c) (Holding mutex)]> (calls r))
    | Holding _ => r
    end
  end.

Inductive registry_move : Set :=
| Enter (userID : Z)     (* some goroutine calls getUserMutex(userID) *)
| Proceed (i : nat).

Definition registry_make (m : registry_move) (r : registry) : registry :=
  match m with
  | Enter userID =>
    mkRegistry (userMutexes r) (allocated r) (calls r ++ [mkCall userID Calling])
  | Proceed i => proceed i r
  end.

Definition registry_run (schedule : list registry_move) : registry :=
  fold_left (fun r m => registry_make m r) schedule empty_registry.

(** What holds of the registry in every reachable state. *)
Definition registry_invariant (r : registry) : Prop :=
  (forall u m, userMutexes r !! u = Some m -> (m < allocated r)%nat) /\
  (forall u u' m, userMutexes r !! u = Some m -> userMutexes r !! u' = Some m -> u = u') /\
  Forall (fun c => forall m, stage c = Holding m -> userMutexes r !! who c = Some m)
         (calls r).

(** *** Progress of the pooled tasks *)

(** The task holds a lock or has just released it: its next step is a
    deferred call that cannot block. *)
Definition releasing (w : worker) : bool :=
  match via w, at_pc w with
  | Pooled, (Working | Unlocked) => true
  | _, _ => false
  end.

Definition awaits_lock (w : worker) : bool :=
  match via w, at_pc w with
  | Pooled, HasSlot => true
  | _, _ => false
  end.

(** Two users race for their locks with a third call for the first. *)
Definition racing_calls : list registry_move :=
  [Enter 7; Enter 7; Enter 8; Proceed 0; Proceed 1; Proceed 1; Proceed 2;
   Proceed 0; Proceed 2]%nat.

(** *** What a reconciliation pass leaves alone *)

(** The terms of the trade: everything of a record but its current
    price, its profit figures, its status and its closing time. *)
Definition same_terms (a b : Position) : Prop :=
  ID a = ID b /\ PositionID a = PositionID b /\ UserID a = UserID b /\
  CoinSymbol a = CoinSymbol b /\ Symbol a = Symbol b /\
  EntryPrice a = EntryPrice b /\ Quantity a = Quantity b /\
  Leverage a = Leverage b /\ TakeProfitPrice a = TakeProfitPrice b /\
  OpenedAt a = OpenedAt b /\ Owner a = Owner b.

(** The price is past the target and the venue closes the position, but
    the save of the closed record fails. *)
Definition unsaved_close : venue :=
  mkVenue true (LivePosition "2") true (Some 310%float) true true false 4.

(** *** Frame facts for the recomputation inside a task *)

Lemma ShouldTakeProfit_after_update position currentPrice :
  Status position = PositionOpen ->
  ShouldTakeProfit (CalculatePNL (set_CurrentPrice currentPrice position))
  = (TakeProfitPrice position <=? currentPrice)%float.
Proof.
  intros Hopen. unfold ShouldTakeProfit.
  destruct (CalculatePNL_frame (set_CurrentPrice currentPrice position))
    as (_ & _ & _ & _ & _ & _ & Hc & _ & _ & Ht & Hs & _).
  cbv zeta in *. rewrite Hc, Ht, Hs. cbn. now rewrite Hopen.
Qed.

Lemma Status_after_update position currentPrice :
  Status (CalculatePNL (set_CurrentPrice currentPrice position)) = Status position.
Proof.
  now destruct (CalculatePNL_frame (set_CurrentPrice currentPrice position))
    as (_ & _ & _ & _ & _ & _ & _ & _ & _ & _ & Hs & _).
Qed.

(** A failed venue query closes the record like a vanished position. *)
Lemma query_error_closes position :
  updatePositionPNL timed_out position
  = [GetCredentials; GetPosition (Symbol position);
     Save (close_at 5 position) true;
     NotifyClosed (TelegramID (Owner position))].
Proof. reflexivity. Qed.

(** X25: when the venue query returns without error, one call of
    [updatePositionPNL] persists an open position's record as Closed if
    and only if the credentials were read and either the venue reports
    no position or size "0" and the save succeeds, or the price fetch and
    the save of the update succeed, the price has reached the target, the
    closing action succeeds and the save of the closed record succeeds.
    When the venue reports the position gone, the record is marked
    Closed and saved, the actor is notified if the save succeeded, and
    the call does nothing else. *)
Theorem reconciliation_closes (v : venue) (position : Position) :
  Status position = PositionOpen ->
  live_position v <> QueryError ->
  (Status (persisted position (updatePositionPNL v position)) = PositionClosed
   <-> credentials_ok v = true /\
       ((reported_gone v /\ close_save_ok v = true) \/
        (~ reported_gone v /\ target_reached v position /\
         update_save_ok v = true /\ close_order_ok v = true /\
         final_save_ok v = true))) /\
  (credentials_ok v = true -> reported_gone v ->
   updatePositionPNL v position
   = [GetCredentials; GetPosition (Symbol position);
      Save (close_at (clock v) position) (close_save_ok v)]
     ++ (if close_save_ok v then [NotifyClosed (TelegramID (Owner position))] else [])).
Proof.
  intros Hopen Hq.
  assert (Hgone : treated_as_gone (live_position v) = true <-> reported_gone v).
  { unfold reported_gone. destruct (live_position v) as [| |size]; cbn.
    - tauto.
    - split; [now left | reflexivity].
    - rewrite String.eqb_eq. split; [intros ->; now right|].
      intros [H | [= ->]]; [discriminate H | reflexivity]. }
  split.
  - unfold updatePositionPNL, target_reached.
    destruct (credentials_ok v); cbn [negb persisted];
      [|rewrite Hopen; split; [discriminate | intros [H _]; discriminate H]].
    destruct (treated_as_gone (live_position v)) eqn:Hg.
    + pose proof (proj1 Hgone eq_refl) as Hr.
      destruct (close_save_ok v); cbn [persisted close_at Status].
      * split; [intros _; split; [reflexivity | left; tauto] | reflexivity].
      * rewrite Hopen. split; [discriminate|].
        intros [_ [[_ H] | [H _]]]; [discriminate H | contradiction].
    + assert (Hng : ~ reported_gone v)
        by (intros Hr; apply Hgone in Hr; discriminate Hr).
      destruct (price_reply v) as [c|]; cbn [persisted].
      2:{ rewrite Hopen. split; [discriminate|].
          intros [_ [[H _] | (_ & (c & Hc & _) & _)]]; [contradiction | discriminate Hc]. }
      destruct (update_save_ok v); cbn [negb persisted].
      2:{ rewrite Hopen. split; [discriminate|].
          intros [_ [[H _] | (_ & _ & H & _)]]; [contradiction | discriminate H]. }
      rewrite (ShouldTakeProfit_after_update _ _ Hopen).
      destruct (TakeProfitPrice position <=? c)%float eqn:Htp.
      * unfold executeTakeProfit.
        destruct (close_order_ok v); cbn [persisted].
        -- destruct (final_save_ok v); cbn [persisted close_at Status].
           ++ split; [|reflexivity]. intros _. split; [reflexivity|]. right.
              repeat split; try assumption. now exists c.
           ++ rewrite Status_after_update, Hopen. split; [discriminate|].
              intros [_ [[H _] | (_ & _ & _ & _ & H)]]; [contradiction | discriminate H].
        -- rewrite Status_after_update, Hopen. split; [discriminate|].
           intros [_ [[H _] | (_ & _ & _ & H & _)]]; [contradiction | discriminate H].
      * cbn [persisted]. rewrite Status_after_update, Hopen. split; [discriminate|].
        intros [_ [[H _] | (_ & (c' & [= <-] & Hc') & _)]]; [contradiction|].
        rewrite Htp in Hc'. discriminate Hc'.
  - intros Hc Hr. apply Hgone in Hr. unfold updatePositionPNL.
    rewrite Hc, Hr. reflexivity.
Qed.

Lemma reconciliation_closes_witness :
  Status (persisted sample_position (updatePositionPNL flat sample_position))
  = PositionClosed /\
  updatePositionPNL flat sample_position
  = [GetCredentials; GetPosition "TOSHIUSDT";
     Save (close_at 5 sample_position) true; NotifyClosed 1001].
Proof.
  destruct (reconciliation_closes flat sample_position) as [H1 H2];
    [reflexivity | discriminate |].
  split.
  - apply H1. split; [reflexivity|]. left. split; [right|]; reflexivity.
  - apply H2; [reflexivity | right; reflexivity].
Defined.

(** The transition as the specification words it fails on a query
    error: the record is persisted as Closed and the actor told so,
    although the venue has not reported the position gone and the price
    (110) is below the target (300). *)
Lemma closed_on_query_error : ~ closes_as_specified timed_out sample_position.
Proof.
  intros H. destruct (H eq_refl) as [H1 _].
  destruct (H1 eq_refl) as [[H2 | H2] | (c & [= <-] & H2)]; discriminate H2.
Qed.

(** C2: the code closes a position on a failed venue query.  Whenever
    [GetPosition] returns an error, with the credentials read and the
    save working, [updatePositionPNL] asks for no price: whatever the
    price and the target are, it marks the record Closed with the time
    of the pass, saves it, and tells the actor that the position no
    longer exists on the venue.  For the open position bought at 100
    with target 300 and price 110, this is a transition to Closed that
    neither of the two conditions of the specification allows. *)
Theorem query_error_closes_the_record (v : venue) (position : Position) :
  updatePositionPNL (with_query_error v) position
  = [GetCredentials; GetPosition (Symbol position);
     Save (close_at (clock v) position) true;
     NotifyClosed (TelegramID (Owner position))] /\
  Status (persisted position (updatePositionPNL (with_query_error v) position))
  = PositionClosed /\
  ClosedAt (persisted position (updatePositionPNL (with_query_error v) position))
  = Some (clock v) /\
  ~ reported_gone (with_query_error v) /\
  (Status sample_position = PositionOpen /\
   ~ target_reached (with_query_error timed_out) sample_position /\
   ~ closes_as_specified (with_query_error timed_out) sample_position).
Proof.
  assert (Hrun : updatePositionPNL (with_query_error v) position
                 = [GetCredentials; GetPosition (Symbol position);
                    Save (close_at (clock v) position) true;
                    NotifyClosed (TelegramID (Owner position))]) by reflexivity.
  split; [exact Hrun|]. rewrite Hrun. cbn [persisted].
  split; [reflexivity|]. split; [reflexivity|].
  split; [intros [H | H]; discriminate H|].
  assert (Hbelow : ~ target_reached (with_query_error timed_out) sample_position).
  { intros (c & [= <-] & H). discriminate H. }
  split; [reflexivity|]. split; [exact Hbelow|].
  intros H. destruct (H eq_refl) as [H1 _].
  destruct (H1 eq_refl) as [[H2 | H2] | H2]; [discriminate H2 | discriminate H2 | tauto].
Qed.

(** C8: a cycle that starts while the overlap guard is held queries no
    position and launches no task, and leaves the guard held: with the
    database connected its one event is the failed try-lock.  A cycle
    that takes the guard releases it as its last event, after the launch
    of every per-position task, and waits for none of them: it returns
    with the guard free and the tasks started. *)
Theorem overlapping_cycle_is_skipped (connected : bool) (q : query_reply)
    (ps : list Position) :
  existsb is_query (fst (fst (updateAllPositions connected q true))) = false /\
  existsb is_launch (fst (fst (updateAllPositions connected q true))) = false /\
  snd (updateAllPositions connected q true) = [] /\
  snd (fst (updateAllPositions connected q true)) = true /\
  updateAllPositions true q true = ([TryLock false], true, []) /\
  updateAllPositions true (Positions ps) false
  = ([TryLock true; QueryOpenPositions] ++ map Launch ps ++ [Unlock], false, ps).
Proof.
  unfold updateAllPositions. destruct connected; repeat split.
Qed.

(** *** The pool bounds the pooled tasks *)

Lemma count_app f a b : count f (a ++ b) = (count f a + count f b)%nat.
Proof. induction a as [|w a IH]; simpl; [reflexivity | rewrite IH; lia]. Qed.

Lemma count_insert f ws : forall i w w',
  ws !! i = Some w ->
  (count f (<[i := w']> ws) + (if f w then 1 else 0)
   = count f ws + (if f w' then 1 else 0))%nat.
Proof.
  induction ws as [|x ws IH]; intros [|i] w w' H; simpl in *; try discriminate.
  - injection H as ->. lia.
  - specialize (IH i w w' H). lia.
Qed.

Lemma count_le f g ws :
  (forall w, f w = true -> g w = true) -> (count f ws <= count g ws)%nat.
Proof.
  intros H. induction ws as [|w ws IH]; simpl; [lia|].
  destruct (f w) eqn:Hf; [rewrite (H _ Hf)|]; destruct (g w); lia.
Qed.

Lemma count_pos f ws w : w ∈ ws -> f w = true -> (1 <= count f ws)%nat.
Proof.
  induction 1 as [w ws | w x ws _ IH]; intros Hf; simpl.
  - rewrite Hf. lia.
  - specialize (IH Hf). lia.
Qed.

Lemma pool_invariant_boot : pool_invariant NewTradingEngine.
Proof.
  split; [reflexivity|]. split; [unfold poolCapacity; cbn; lia|].
  intros user. cbn. case_bool_decide; [set_solver | reflexivity].
Qed.

Lemma pool_invariant_start r user e :
  pool_invariant e -> pool_invariant (make (Start r user) e).
Proof.
  intros (Hs & Hc & Hl). unfold pool_invariant. cbn.
  rewrite count_app. cbn. split; [destruct r; cbn; lia|]. split; [assumption|].
  intros u. rewrite count_app, Hl. cbn. destruct r; cbn; lia.
Qed.

Lemma pool_invariant_advance i e :
  pool_invariant e -> pool_invariant (advance i e).
Proof.
  intros (Hs & Hc & Hl). unfold advance.
  destruct (workers e !! i) as [[r a p]|] eqn:Hw; [|now repeat split].
  pose proof (fun w' => count_insert holds_slot _ _ _ w' Hw) as Cs.
  pose proof (fun u w' => count_insert (pooled_call_for u) _ _ _ w' Hw) as Cl.
  unfold pool_invariant.
  destruct r, p; cbn [via at_pc actor]; try (now repeat split).
  - (* the send on the pool *)
    destruct (apiWorkerPool e <? poolCapacity)%nat eqn:Hfree; [|now repeat split].
    apply Nat.ltb_lt in Hfree. cbn.
    specialize (Cs (mkWorker Pooled a HasSlot)). cbn in Cs.
    split; [lia|]. split; [lia|]. intros u.
    specialize (Cl u (mkWorker Pooled a HasSlot)). cbn in Cl. rewrite <- Hl. lia.
  - (* Lock *)
    destruct (bool_decide_reflect (a ∈ locked e)) as [Hheld|Hfree];
      [now repeat split|]. cbn.
    specialize (Cs (mkWorker Pooled a Working)). cbn in Cs.
    split; [lia|]. split; [lia|]. intros u.
    specialize (Cl u (mkWorker Pooled a Working)).
    change (pooled_call_for u (mkWorker Pooled a HasSlot)) with false in Cl.
    change (pooled_call_for u (mkWorker Pooled a Working))
      with (bool_decide (a = u)) in Cl.
    specialize (Hl u).
    repeat case_bool_decide; try lia; exfalso; set_solver.
  - (* Unlock *)
    cbn. specialize (Cs (mkWorker Pooled a Unlocked)). cbn in Cs.
    split; [lia|]. split; [lia|]. intros u.
    specialize (Cl u (mkWorker Pooled a Unlocked)).
    change (pooled_call_for u (mkWorker Pooled a Unlocked)) with false in Cl.
    change (pooled_call_for u (mkWorker Pooled a Working))
      with (bool_decide (a = u)) in Cl.
    specialize (Hl u).
    repeat case_bool_decide; try lia; exfalso; set_solver.
  - (* the receive from the pool *)
    cbn. specialize (Cs (mkWorker Pooled a Idle)). cbn in Cs.
    split; [lia|]. split; [lia|]. intros u.
    specialize (Cl u (mkWorker Pooled a Idle)). cbn in Cl. rewrite <- Hl. lia.
  - (* the direct call starts *)
    cbn. specialize (Cs (mkWorker Direct a Working)). cbn in Cs.
    split; [lia|]. split; [lia|]. intros u.
    specialize (Cl u (mkWorker Direct a Working)). cbn in Cl. rewrite <- Hl. lia.
  - (* the direct call ends *)
    cbn. specialize (Cs (mkWorker Direct a Done)). cbn in Cs.
    split; [lia|]. split; [lia|]. intros u.
    specialize (Cl u (mkWorker Direct a Done)). cbn in Cl. rewrite <- Hl. lia.
Qed.

Lemma pool_invariant_make m e : pool_invariant e -> pool_invariant (make m e).
Proof.
  destruct m; [apply pool_invariant_start | apply pool_invariant_advance].
Qed.

Lemma pool_invariant_fold schedule : forall e,
  pool_invariant e -> pool_invariant (fold_left (fun e m => make m e) schedule e).
Proof.
  induction schedule as [|m rest IH]; intros e He; [assumption|].
  apply IH. now apply pool_invariant_make.
Qed.

Lemma pool_invariant_run schedule : pool_invariant (run schedule).
Proof. apply pool_invariant_fold, pool_invariant_boot. Qed.

(** X26: the pooled paths are bounded.  In every state the engine
    reaches, the units of work that go through the worker pool (the
    tasks of [handleNewCoin] and of [updateAllPositions]) hold as many
    slots as the pool records, at most 10; so at most 10 of them are
    inside their external calls, at most one per actor, and each of
    those holds its actor's lock. *)
Theorem pooled_calls_are_bounded (schedule : list move) :
  count holds_slot (workers (run schedule)) = apiWorkerPool (run schedule) /\
  (apiWorkerPool (run schedule) <= 10)%nat /\
  (count pooled_call (workers (run schedule)) <= 10)%nat /\
  (forall user, (count (pooled_call_for user) (workers (run schedule)) <= 1)%nat) /\
  (forall w, w ∈ workers (run schedule) -> pooled_call w = true ->
     holds_slot w = true /\ actor w ∈ locked (run schedule)).
Proof.
  destruct (pool_invariant_run schedule) as (Hs & Hc & Hl).
  unfold poolCapacity in Hc.
  assert (Himp : forall w, pooled_call w = true -> holds_slot w = true).
  { intros [[] a []]; cbn; congruence. }
  split; [assumption|]. split; [assumption|]. split.
  { pose proof (count_le pooled_call holds_slot (workers (run schedule)) Himp). lia. }
  split.
  { intros u. rewrite Hl. case_bool_decide; lia. }
  intros w Hw Hcall. split; [now apply Himp|].
  pose proof (count_pos (pooled_call_for (actor w)) _ w Hw) as Hpos.
  unfold pooled_call_for in Hpos at 1. rewrite Hcall, bool_decide_true in Hpos by reflexivity.
  specialize (Hpos eq_refl). rewrite Hl in Hpos.
  case_bool_decide; [assumption | lia].
Qed.

(** C3: the test-injection path takes neither a slot nor the lock.
    [handleTestCoin] calls [processUserTrade] directly, so when ten
    pooled tasks, for users 1 to 10, are inside their external calls
    (the pool is full and ten locks are held) and a test injection for
    user 1 is handled, an eleventh call sequence runs at the same time,
    and user 1 has two at once: neither bound of the specification
    holds. *)
Theorem test_path_exceeds_the_pool :
  apiWorkerPool (run ten_and_a_test) = 10%nat /\
  count pooled_call (workers (run ten_and_a_test)) = 10%nat /\
  count in_call (workers (run ten_and_a_test)) = 11%nat /\
  count (in_call_for 1) (workers (run ten_and_a_test)) = 2%nat /\
  1 ∈ locked (run ten_and_a_test) /\
  ~ bounded_as_specified ten_and_a_test.
Proof.
  split; [vm_compute; reflexivity|]. split; [vm_compute; reflexivity|].
  split; [vm_compute; reflexivity|]. split; [vm_compute; reflexivity|].
  split; [refine (bool_decide_unpack _ _); vm_compute; exact I|].
  intros [H _]. vm_compute in H. lia.
Qed.

Example test_path_shares_an_actor :
  count (in_call_for 1) (workers (run ten_and_a_test)) = 2%nat /\
  count in_call (workers (run ten_and_a_test)) = 11%nat /\
  apiWorkerPool (run ten_and_a_test) = 10%nat.
Proof. repeat split; vm_compute; reflexivity. Qed.

(** *** The test injection round trip *)

Lemma Split_length s :
  length (Split s) = S (UpbitMonitor.count_chars is_colon s).
Proof.
  induction s as [|c r IH]; [reflexivity|].
  cbn [Split UpbitMonitor.count_chars]. destruct (is_colon c).
  - cbn. now rewrite IH.
  - destruct (Split r); cbn in *; lia.
Qed.

Lemma Split_no_colon s :
  UpbitMonitor.count_chars is_colon s = O -> Split s = [s].
Proof.
  induction s as [|c r IH]; [reflexivity|].
  cbn [Split UpbitMonitor.count_chars]. destruct (is_colon c); [discriminate|].
  intros H. now rewrite IH.
Qed.

Lemma Split_append a b :
  UpbitMonitor.count_chars is_colon a = O ->
  Split (a ++ String ":" b) = a :: Split b.
Proof.
  induction a as [|c r IH]; [reflexivity|].
  cbn [UpbitMonitor.count_chars]. intros H.
  change (String c r ++ String ":" b)%string
    with (String c (r ++ String ":" b)%string).
  cbn [Split]. destruct (is_colon c); [discriminate|].
  now rewrite IH.
Qed.

Lemma count_chars_append f a b :
  UpbitMonitor.count_chars f (a ++ b)
  = (UpbitMonitor.count_chars f a + UpbitMonitor.count_chars f b)%nat.
Proof.
  induction a as [|c r IH]; [reflexivity|].
  change (String c r ++ b)%string with (String c (r ++ b)%string).
  cbn [UpbitMonitor.count_chars]. rewrite IH. lia.
Qed.

Lemma digits_have_no_colon s : forall acc v,
  UpbitMonitor.digits_value acc s = Some v ->
  UpbitMonitor.count_chars is_colon s = O.
Proof.
  induction s as [|c r IH]; intros acc v; [reflexivity|].
  cbn [UpbitMonitor.digits_value UpbitMonitor.count_chars].
  destruct (UpbitMonitor.is_digit c) eqn:Hc; [|discriminate].
  intros H. rewrite (IH _ _ H).
  assert (is_colon c = false) as ->; [|reflexivity].
  unfold UpbitMonitor.is_digit in Hc. cbv zeta in Hc. unfold is_colon.
  apply andb_true_iff in Hc as [H1 H2]. apply Nat.leb_le in H1, H2.
  apply Nat.eqb_neq. lia.
Qed.

Lemma decimal_has_no_colon (n : Z) :
  UpbitMonitor.count_chars is_colon (pretty n) = O.
Proof.
  destruct n as [|q|q]; [reflexivity| |].
  - destruct (UpbitMonitor.digits_value_pretty_positive q) as [Hv _].
    exact (digits_have_no_colon _ _ _ Hv).
  - destruct (UpbitMonitor.digits_value_pretty_positive q) as [Hv _].
    change (pretty (Z.neg q)) with (String "-" (pretty (N.pos q))).
    cbn [UpbitMonitor.count_chars]. now rewrite (digits_have_no_colon _ _ _ Hv).
Qed.

Lemma parse_test_data_formatted (coinSymbol : string) (userID : Z) :
  UpbitMonitor.count_chars is_colon coinSymbol = O ->
  MinInt64 <= userID <= MaxInt64 ->
  parse_test_data (coinSymbol ++ ":" ++ pretty userID) = Some (coinSymbol, userID).
Proof.
  intros Hc Hid. unfold parse_test_data.
  change (":" ++ pretty userID)%string with (String ":" (pretty userID)).
  rewrite (Split_append _ _ Hc), (Split_no_colon _ (decimal_has_no_colon userID)).
  unfold ParseInt64. now rewrite UpbitMonitor.Atoi_pretty_int64.
Qed.

(** X13: the test injection arrives as it was sent.  The item
    [InjectTestCoinForUser] puts on the test queue for a symbol without
    a colon and a user id is read back by [handleTestCoin] as that
    symbol and that user; for a symbol that holds a colon the same item
    is rejected as invalid test data, and no trade is attempted. *)
Theorem test_injection_round_trip (coinSymbol : string) (userID : Z)
    (um : UpbitMonitor.Monitor) :
  MinInt64 <= userID <= MaxInt64 ->
  (length (UpbitMonitor.testCoinChannel um) < 10)%nat ->
  exists testData,
    snd (UpbitMonitor.InjectTestCoinForUser coinSymbol userID um)
    = [UpbitMonitor.Queued UpbitMonitor.TestCoinQueue testData] /\
    UpbitMonitor.testCoinChannel
      (fst (UpbitMonitor.InjectTestCoinForUser coinSymbol userID um))
    = UpbitMonitor.testCoinChannel um ++ [testData] /\
    parse_test_data testData
    = if (UpbitMonitor.count_chars is_colon coinSymbol =? 0)%nat
      then Some (coinSymbol, userID) else None.
Proof.
  intros Hid Hroom.
  exists (coinSymbol ++ ":" ++ pretty userID)%string.
  unfold UpbitMonitor.InjectTestCoinForUser, UpbitMonitor.send_testCoin.
  apply Nat.ltb_lt in Hroom. unfold UpbitMonitor.testCoinCapacity. rewrite Hroom.
  split; [reflexivity|]. split; [reflexivity|].
  unfold parse_test_data.
  destruct (UpbitMonitor.count_chars is_colon coinSymbol =? 0)%nat eqn:Hc.
  - apply Nat.eqb_eq in Hc. fold (parse_test_data (coinSymbol ++ ":" ++ pretty userID)).
    exact (parse_test_data_formatted _ _ Hc Hid).
  - apply Nat.eqb_neq in Hc.
    pose proof (Split_length (coinSymbol ++ ":" ++ pretty userID)) as Hl.
    rewrite count_chars_append in Hl.
    change (":" ++ pretty userID)%string with (String ":" (pretty userID)) in *.
    cbn [UpbitMonitor.count_chars] in Hl. change (is_colon ":") with true in Hl.
    destruct (Split (coinSymbol ++ String ":" (pretty userID))) as [|a [|b [|c l]]];
      try reflexivity; cbn in Hl; lia.
Qed.

Lemma test_injection_round_trip_witness :
  parse_test_data "SOL:1001" = Some ("SOL"%string, 1001) /\
  parse_test_data "SOL:USDT:1001" = None.
Proof.
  destruct (test_injection_round_trip "SOL" 1001 UpbitMonitor.NewUpbitMonitor)
    as (d1 & Hq1 & _ & Hp1); [unfold MinInt64, MaxInt64; lia | cbn; lia |].
  destruct (test_injection_round_trip "SOL:USDT" 1001 UpbitMonitor.NewUpbitMonitor)
    as (d2 & Hq2 & _ & Hp2); [unfold MinInt64, MaxInt64; lia | cbn; lia |].
  injection Hq1 as <-. injection Hq2 as <-.
  split; [exact Hp1 | exact Hp2].
Defined.

(** *** Dispatch *)

Section DispatchFacts.

Variable fs : string -> string.

Lemma orders_processUserTrade m user coin :
  orders (processUserTrade fs m user coin)
  = if trader_credentials_ok m && symbol_listed m
       && match quote m with Some _ => true | None => false end
    then 1%nat else 0%nat.
Proof.
  unfold processUserTrade, orders.
  destruct (trader_credentials_ok m), (symbol_listed m), (quote m), (order_reply m);
    reflexivity.
Qed.

(** X14: a trade is all or nothing up to the order.  [processUserTrade]
    submits at most one opening order, and submits it exactly when the
    credentials decrypt, the venue lists the symbol and quotes a price.
    A refused order is reported to the user and nothing is stored.  An
    accepted order is followed by the creation of its record and then by
    the notification of the user, whether or not the record could be
    saved: the steps are then the credentials, the listing check, the
    quote, the order, the creation and the notification, in this order
    and nothing else.  The record created is an open position entered
    at the quoted price, with zero profit and return, under the user's
    key and leverage, of quantity [TradeAmount * Leverage / price] and
    take-profit target [price * (1 + TakeProfitPercentage / 100)]. *)
Theorem processUserTrade_gates_the_order (m : market) (user : User) (coin : string) :
  let steps := processUserTrade fs m user coin in
  (orders steps <= 1)%nat /\
  (orders steps = 1%nat <->
   trader_credentials_ok m = true /\ symbol_listed m = true /\ quote m <> None) /\
  (forall p ok, In (Create p ok) steps ->
     orders steps = 1%nat /\ order_reply m = Some (PositionID p) /\
     ok = position_saved m /\ Status p = PositionOpen /\
     quote m = Some (EntryPrice p) /\ CurrentPrice p = EntryPrice p /\
     CurrentPNL p = 0%float /\ ROE p = 0%float /\ ClosedAt p = None /\
     UserID p = UserKey user /\ Leverage p = UserLeverage user /\
     CoinSymbol p = coin /\ Symbol p = fs coin) /\
  (orders steps = 1%nat -> order_reply m = None ->
   In (NotifyOpenFailed (TelegramID user)) steps /\
   forall p ok, ~ In (Create p ok) steps) /\
  (forall orderID price, orders steps = 1%nat ->
     order_reply m = Some orderID -> quote m = Some price ->
     In (SendTradeNotification (TelegramID user) coin orderID price
           (price * (1 + TakeProfitPercentage user / 100))%float
           (UserLeverage user) (TradeAmount user)) steps) /\
  (forall orderID price, orders steps = 1%nat ->
     order_reply m = Some orderID -> quote m = Some price ->
     steps
     = [ReadCredentials; IsSymbolValid (fs coin); QuotePrice (fs coin);
        OpenLongPosition (fs coin) (TradeAmount user) (UserLeverage user);
        Create (new_position m user coin (fs coin) orderID price) (position_saved m);
        SendTradeNotification (TelegramID user) coin orderID price
          (price * (1 + TakeProfitPercentage user / 100))%float
          (UserLeverage user) (TradeAmount user)] /\
     Quantity (new_position m user coin (fs coin) orderID price)
     = (TradeAmount user * float64_of_int (UserLeverage user) / price)%float /\
     TakeProfitPrice (new_position m user coin (fs coin) orderID price)
     = (price * (1 + TakeProfitPercentage user / 100))%float).
Proof.
  cbv zeta. rewrite orders_processUserTrade.
  split.
  { destruct (_ && _ && _); lia. }
  split.
  { destruct (trader_credentials_ok m), (symbol_listed m), (quote m); cbn;
      (split; [intros H; try discriminate H; repeat split; discriminate
              | intros (H1 & H2 & H3); congruence]). }
  split.
  { intros p ok. unfold processUserTrade.
    destruct (trader_credentials_ok m), (symbol_listed m), (quote m),
      (order_reply m); cbn; intros Hin;
      repeat (destruct Hin as [Hin | Hin]; try discriminate Hin);
      try contradiction.
    injection Hin as <- <-. repeat split. }
  split.
  { intros Hone Hrefused. unfold processUserTrade.
    destruct (trader_credentials_ok m), (symbol_listed m), (quote m);
      try discriminate Hone.
    rewrite Hrefused. cbn. split; [tauto|].
    intros p ok Hin.
    repeat (destruct Hin as [Hin | Hin]; try discriminate Hin). contradiction. }
  split.
  { intros orderID price Hone Haccepted Hquote. unfold processUserTrade.
    destruct (trader_credentials_ok m), (symbol_listed m); try discriminate Hone;
      rewrite Hquote, Haccepted; cbn; tauto. }
  intros orderID price Hone Haccepted Hquote. unfold processUserTrade.
  destruct (trader_credentials_ok m), (symbol_listed m); try discriminate Hone.
  rewrite Hquote, Haccepted. cbn [negb]. repeat split.
Qed.

Lemma supervised_completed_rounds {A : Type} (body : list A) n : forall k,
  supervised (Supervisor.completed_rounds n k) body = concat (repeat body n).
Proof.
  induction n as [|n IH]; intros k; [reflexivity|].
  unfold supervised in *. cbn. now rewrite IH.
Qed.

Lemma orders_app a b : orders (a ++ b) = (orders a + orders b)%nat.
Proof. unfold orders. now rewrite List.filter_app, length_app. Qed.

Lemma orders_repeat body n : orders (concat (repeat body n)) = (n * orders body)%nat.
Proof.
  induction n as [|n IH]; [reflexivity|].
  change (concat (repeat body (S n))) with (body ++ concat (repeat body n)).
  rewrite orders_app, IH. lia.
Qed.

(** X15: a dispatch task does not stop at one trade.  [handleNewCoin]
    hands its closure to [safeGoTE], which calls it again after every
    normal return: over [n] iterations of the supervisor's loop
    [processUserTrade] runs [n] times and submits [n] times the orders
    of one run, where [safeGo] would have run it once. *)
Theorem supervised_trade_repeats (n : nat) (m : market) (user : User) (coin : string) :
  orders (supervised (fst (Supervisor.safeGoTE n Supervisor.returning_task 0))
            (processUserTrade fs m user coin))
  = (n * orders (processUserTrade fs m user coin))%nat /\
  supervised (fst (Supervisor.safeGo (S n) Supervisor.returning_task 0))
    (processUserTrade fs m user coin)
  = processUserTrade fs m user coin.
Proof.
  rewrite Supervisor.safeGoTE_returning. cbn [fst].
  rewrite supervised_completed_rounds, orders_repeat.
  split; [reflexivity|].
  rewrite Supervisor.safeGo_return by reflexivity.
  unfold supervised. cbn. now rewrite app_nil_r.
Qed.

(** X16: the dispatcher trades for active users only.  [handleNewCoin]
    starts a task for every active user of the table, in table order,
    and for no one else, and for no one when the database is down or the
    query fails; [handleTestCoin] submits at most one order, and only
    for an active user whose Telegram id is the one the test data
    names. *)
Theorem dispatch_reaches_active_users_only (m : market) (connected : bool)
    (table : option (list User)) (testData : string) :
  (forall u, In u (handleNewCoin connected table) <->
     connected = true /\ exists users,
       table = Some users /\ In u users /\ IsActive u = true) /\
  (forall users, sublist (handleNewCoin true (Some users)) users) /\
  (orders (handleTestCoin fs m table testData) <= 1)%nat /\
  (orders (handleTestCoin fs m table testData) = 1%nat ->
   exists coin userID users user,
     parse_test_data testData = Some (coin, userID) /\
     table = Some users /\ In user users /\
     TelegramID user = userID /\ IsActive user = true /\
     handleTestCoin fs m table testData = processUserTrade fs m user coin).
Proof.
  split.
  { intros u. unfold handleNewCoin, active_users.
    destruct connected; cbn [negb].
    - destruct table as [users|].
      + rewrite filter_In. split.
        * intros [H1 H2]. split; [reflexivity|]. now exists users.
        * intros (_ & users' & [= <-] & H1 & H2). now split.
      + split; [intros [] | intros (_ & users & H & _); discriminate H].
    - split; [intros [] | intros [H _]; discriminate H]. }
  split.
  { intros users. unfold handleNewCoin, active_users. cbn [negb].
    induction users as [|u users IH]; cbn [List.filter]; [constructor|].
    destruct (IsActive u); [now apply sublist_skip | now apply sublist_cons]. }
  unfold handleTestCoin.
  destruct (parse_test_data testData) as [[coin userID]|]; [|split; [cbn; lia | discriminate]].
  destruct table as [users|]; [|split; [cbn; lia | discriminate]].
  destruct (active_user users userID) as [user|] eqn:Hu;
    [|split; [cbn; lia | discriminate]].
  split.
  { rewrite orders_processUserTrade. destruct (_ && _); lia. }
  intros _. exists coin, userID, users, user.
  unfold active_user in Hu. apply find_some in Hu as [Hin Hc].
  apply andb_true_iff in Hc as [Hid Hact]. apply Z.eqb_eq in Hid.
  repeat split; assumption.
Qed.

End DispatchFacts.

Lemma processUserTrade_gates_the_order_witness :
  orders (processUserTrade (fun c => (c ++ "USDT")%string) open_market
            sample_user "TOSHI") = 1%nat.
Proof.
  apply (proj2 (proj1 (proj2 (processUserTrade_gates_the_order
           (fun c => (c ++ "USDT")%string) open_market sample_user "TOSHI")))).
  repeat split; discriminate.
Defined.

(** *** Reconciliation: what is kept, and the repair of a lost save *)

Lemma same_terms_refl p : same_terms p p.
Proof. now repeat split. Qed.

Lemma same_terms_close_at now p q : same_terms p q -> same_terms (close_at now p) q.
Proof. intros H. exact H. Qed.

Lemma same_terms_update currentPrice p :
  same_terms (CalculatePNL (set_CurrentPrice currentPrice p)) p.
Proof.
  destruct (CalculatePNL_frame (set_CurrentPrice currentPrice p))
    as (H1 & H2 & H3 & H4 & H5 & H6 & _ & H8 & H9 & H10 & _ & H12 & _ & H14).
  cbv zeta in *. unfold same_terms.
  rewrite H1, H2, H3, H4, H5, H6, H8, H9, H10, H12, H14. now repeat split.
Qed.

Lemma same_terms_sym p q : same_terms p q -> same_terms q p.
Proof. unfold same_terms. intuition congruence. Qed.

Lemma same_terms_trans p q r : same_terms p q -> same_terms q r -> same_terms p r.
Proof. unfold same_terms. intuition congruence. Qed.

(** The persisted record is the one before or a row a save stored. *)
Lemma persisted_cases acts : forall record,
  persisted record acts = record \/
  exists p, In (Save p true) acts /\ persisted record acts = p.
Proof.
  induction acts as [|a rest IH]; intros record; [now left|].
  destruct a as [| | |p ok| | | | |]; cbn [persisted];
    try (destruct (IH record) as [H | (p' & Hin & H)];
         [now left | right; exists p'; split; [now right | exact H]]).
  destruct ok.
  - destruct (IH p) as [H | (p' & Hin & H)].
    + right. exists p. split; [now left | exact H].
    + right. exists p'. split; [now right | exact H].
  - destruct (IH record) as [H | (p' & Hin & H)];
      [now left | right; exists p'; split; [now right | exact H]].
Qed.

(** X19: a reconciliation pass never rewrites the terms of a trade.
    Whatever the collaborators answer, every row [updatePositionPNL]
    (with [executeTakeProfit]) hands to [db.Save] has the identifiers,
    owner, symbols, entry price, quantity, leverage, take-profit target
    and opening time of the copy the task was given, and the status of
    that copy or Closed; so a stored record that agrees with the task's
    copy on these terms still has them after the pass, whatever else was
    written to it meanwhile.  Only the current price, the profit
    figures, the status and the closing time are written. *)
Theorem reconciliation_keeps_the_terms (v : venue) (position : Position) :
  (forall p ok, In (Save p ok) (updatePositionPNL v position) ->
     same_terms p position /\
     (Status p = Status position \/ Status p = PositionClosed)) /\
  (forall record, same_terms record position ->
     same_terms (persisted record (updatePositionPNL v position)) record).
Proof.
  assert (Hsaves : forall p ok, In (Save p ok) (updatePositionPNL v position) ->
            same_terms p position /\
            (Status p = Status position \/ Status p = PositionClosed)).
  { intros p ok. unfold updatePositionPNL, executeTakeProfit.
    pose proof (same_terms_update) as Hu.
    pose proof (Status_after_update) as Hs.
    destruct (credentials_ok v); cbn [negb In];
      [|intros [H|[]]; discriminate H].
    destruct (treated_as_gone (live_position v)).
    { destruct (close_save_ok v); cbn [In]; intros H;
        repeat (destruct H as [H|H]; try discriminate H); try contradiction;
        injection H as <- _; (split; [apply same_terms_close_at, same_terms_refl
                                     | now right]). }
    destruct (price_reply v) as [currentPrice|]; cbn [In];
      [|intros H; repeat (destruct H as [H|H]; try discriminate H); contradiction].
    destruct (update_save_ok v); cbn [negb].
    2:{ cbn [In]. intros H.
        repeat (destruct H as [H|H]; try discriminate H); try contradiction.
        injection H as <- _. split; [apply Hu | left; apply Hs]. }
    destruct (ShouldTakeProfit _); [destruct (close_order_ok v)|]; cbn [In]; intros H;
      repeat (destruct H as [H|H]; try discriminate H); try contradiction;
      injection H as <- _;
      first [ split; [apply Hu | left; apply Hs]
            | split; [apply same_terms_close_at, Hu | now right] ]. }
  split; [exact Hsaves|].
  intros record Hrec.
  destruct (persisted_cases (updatePositionPNL v position) record)
    as [-> | (p & Hin & ->)]; [apply same_terms_refl|].
  destruct (Hsaves p true Hin) as [Hp _].
  exact (same_terms_trans _ _ _ Hp (same_terms_sym _ _ Hrec)).
Qed.

Lemma closed_notices_repeat body n :
  closed_notices (concat (repeat body n)) = (n * closed_notices body)%nat.
Proof.
  assert (Happ : forall a b,
            closed_notices (a ++ b) = (closed_notices a + closed_notices b)%nat).
  { induction a as [|x a IH]; intros b; [reflexivity|].
    destruct x; cbn; rewrite ?IH; reflexivity. }
  induction n as [|n IH]; [reflexivity|].
  change (concat (repeat body (S n))) with (body ++ concat (repeat body n)).
  rewrite Happ, IH. lia.
Qed.

(** The task of a position the venue reports gone does not stop after
    its notice: [safeGoTE] calls the closure again after every return,
    with the copy of the position it captured, so over [n] iterations
    the record is saved as Closed and the actor told so [n] times. *)
Lemma gone_position_is_renotified (n : nat) (position : Position) :
  closed_notices
    (supervised (fst (Supervisor.safeGoTE n Supervisor.returning_task 0))
       (updatePositionPNL flat position))
  = n.
Proof.
  rewrite Supervisor.safeGoTE_returning. cbn [fst].
  rewrite supervised_completed_rounds, closed_notices_repeat.
  change (closed_notices (updatePositionPNL flat position)) with 1%nat. lia.
Qed.

(** X20: a take-profit close whose save is lost is repaired by the next
    pass.  When the price has reached the target and the venue accepts
    the closing order but the save of the closed record fails, the
    order has been placed while the persisted record is still Open, so
    the next cycle selects it again; in that pass the venue reports the
    position gone, and the record is persisted as Closed with that
    pass's time. *)
Theorem lost_close_is_repaired_by_next_pass (v1 v2 : venue) (position : Position)
    (currentPrice : float) :
  Status position = PositionOpen ->
  credentials_ok v1 = true ->
  treated_as_gone (live_position v1) = false ->
  price_reply v1 = Some currentPrice ->
  update_save_ok v1 = true ->
  (TakeProfitPrice position <=? currentPrice)%float = true ->
  close_order_ok v1 = true ->
  final_save_ok v1 = false ->
  credentials_ok v2 = true ->
  treated_as_gone (live_position v2) = true ->
  close_save_ok v2 = true ->
  let saved := persisted position (updatePositionPNL v1 position) in
  In (ClosePosition (Symbol position) (Quantity position))
     (updatePositionPNL v1 position) /\
  Status saved = PositionOpen /\
  CurrentPrice saved = currentPrice /\
  Status (persisted saved (updatePositionPNL v2 saved)) = PositionClosed /\
  ClosedAt (persisted saved (updatePositionPNL v2 saved)) = Some (clock v2).
Proof.
  intros Hopen Hc1 Hg1 Hp1 Hu1 Htp Ho1 Hf1 Hc2 Hg2 Hs2.
  assert (Hrun : updatePositionPNL v1 position
    = let position1 := CalculatePNL (set_CurrentPrice currentPrice position) in
      [GetCredentials; GetPosition (Symbol position); GetSymbolPrice (Symbol position);
       Save position1 true;
       ClosePosition (Symbol position1) (Quantity position1);
       Save (close_at (clock v1) position1) false;
       NotifyTakeProfit (TelegramID (Owner position1))]).
  { unfold updatePositionPNL, executeTakeProfit.
    rewrite Hc1, Hg1, Hp1, Hu1. cbn [negb].
    rewrite (ShouldTakeProfit_after_update _ _ Hopen), Htp, Ho1, Hf1. reflexivity. }
  destruct (same_terms_update currentPrice position)
    as (_ & _ & _ & _ & Hsym & _ & Hq & _).
  destruct (CalculatePNL_frame (set_CurrentPrice currentPrice position))
    as (_ & _ & _ & _ & _ & _ & Hcp & _).
  cbv zeta in *. rewrite Hrun. cbn [persisted].
  split; [rewrite Hsym, Hq; cbn; tauto|].
  split; [now rewrite Status_after_update|].
  split; [exact Hcp|].
  unfold updatePositionPNL. rewrite Hc2, Hg2, Hs2. cbn [negb persisted].
  split; reflexivity.
Qed.

Lemma lost_close_is_repaired_by_next_pass_witness :
  let saved := persisted sample_position (updatePositionPNL unsaved_close sample_position) in
  In (ClosePosition "TOSHIUSDT" 2%float) (updatePositionPNL unsaved_close sample_position) /\
  Status saved = PositionOpen /\
  CurrentPrice saved = 310%float /\
  Status (persisted saved (updatePositionPNL flat saved)) = PositionClosed /\
  ClosedAt (persisted saved (updatePositionPNL flat saved)) = Some 5.
Proof.
  apply (lost_close_is_repaired_by_next_pass unsaved_close flat sample_position 310%float);
    reflexivity.
Defined.

(** *** No deadlock between the pool and the locks *)

Lemma count_pos_inv f ws :
  (0 < count f ws)%nat -> exists i w, ws !! i = Some w /\ f w = true.
Proof.
  induction ws as [|x ws IH]; cbn [count]; [lia|].
  destruct (f x) eqn:Hx.
  - intros _. now exists O, x.
  - intros H. destruct (IH ltac:(lia)) as (i & w & Hi & Hw).
    now exists (S i), w.
Qed.

Lemma count_zero f ws w : count f ws = O -> w ∈ ws -> f w = false.
Proof.
  intros H0 Hin. destruct (f w) eqn:Hf; [|reflexivity].
  pose proof (count_pos f ws w Hin Hf). lia.
Qed.

Lemma count_orb_le f g ws :
  (count (fun w => f w || g w) ws <= count f ws + count g ws)%nat.
Proof.
  induction ws as [|w ws IH]; cbn [count]; [lia|].
  destruct (f w), (g w); cbn; lia.
Qed.

(** A pooled task is never finished: after its slot is returned the
    supervisor calls it again. *)
Lemma pooled_never_done schedule :
  Forall (fun w => via w = Pooled -> at_pc w <> Done) (workers (run schedule)).
Proof.
  unfold run.
  assert (H : forall e,
    Forall (fun w => via w = Pooled -> at_pc w <> Done) (workers e) ->
    Forall (fun w => via w = Pooled -> at_pc w <> Done)
      (workers (fold_left (fun e m => make m e) schedule e))).
  { induction schedule as [|m rest IH]; intros e He; [exact He|].
    apply IH. destruct m as [r u | i]; cbn [make].
    - cbn. apply Forall_app. split; [exact He|].
      constructor; [|constructor]. cbn. discriminate.
    - unfold advance. destruct (workers e !! i) as [[r a p]|] eqn:Hw; [|exact He].
      destruct r, p; cbn [via at_pc actor]; try exact He;
        repeat match goal with
        | |- context [if ?b then _ else _] => destruct b
        end; try exact He;
        unfold put; cbn [workers]; apply Forall_insert; try exact He;
        cbn; discriminate. }
  apply H. constructor.
Qed.

Lemma put_moves i w w' pool held e :
  workers e !! i = Some w -> w' <> w -> put i w' pool held e <> e.
Proof.
  intros Hw Hne Heq.
  assert (Hl : workers (put i w' pool held e) !! i = Some w').
  { unfold put. cbn [workers]. apply list_lookup_insert_eq.
    now apply lookup_lt_Some in Hw. }
  rewrite Heq, Hw in Hl. congruence.
Qed.

(** X17: the pool and the user locks cannot deadlock.  In every state
    the engine reaches, if any pooled task exists then some pooled task
    can take its next step: a task past its [Lock] has its call and its
    deferred releases left, none of which waits for the pool or a lock
    (the call itself is taken to return); failing such a task no lock is
    held, so a task holding a slot can lock; failing that too the pool
    is empty, so a task can take a slot. *)
Theorem pooled_tasks_never_deadlock (schedule : list move) :
  (exists i w, workers (run schedule) !! i = Some w /\ via w = Pooled) ->
  exists j w', workers (run schedule) !! j = Some w' /\ via w' = Pooled /\
               advance j (run schedule) <> run schedule.
Proof.
  intros (i & w & Hw & Hvia).
  destruct (pool_invariant_run schedule) as (Hs & Hc & Hl).
  pose proof (pooled_never_done schedule) as Halive.
  set (e := run schedule) in *.
  destruct (Nat.eq_dec (count releasing (workers e)) 0%nat) as [Hrel | Hrel].
  2:{ (* a task past its Lock goes on *)
      destruct (count_pos_inv releasing (workers e) ltac:(lia))
        as (j & [r a p] & Hj & Hr).
      exists j, (mkWorker r a p).
      destruct r, p; try discriminate Hr; (split; [exact Hj|]);
        (split; [reflexivity|]); unfold advance; rewrite Hj; cbn [via at_pc actor];
        apply (put_moves _ _ _ _ _ _ Hj); discriminate. }
  assert (Hfree : forall a, a ∉ locked e).
  { intros a Ha. specialize (Hl a). rewrite bool_decide_true in Hl by exact Ha.
    assert (Hle : (count (pooled_call_for a) (workers e)
                   <= count releasing (workers e))%nat).
    { apply count_le. intros [[] x []]; cbn; congruence. }
    lia. }
  destruct (Nat.eq_dec (count awaits_lock (workers e)) 0%nat) as [Hwait | Hwait].
  2:{ (* no lock is held: a task with a slot locks *)
      destruct (count_pos_inv awaits_lock (workers e) ltac:(lia))
        as (j & [r a p] & Hj & Hr).
      exists j, (mkWorker r a p).
      destruct r, p; try discriminate Hr. split; [exact Hj|]. split; [reflexivity|].
      unfold advance. rewrite Hj. cbn [via at_pc actor].
      rewrite bool_decide_false by apply Hfree.
      apply (put_moves _ _ _ _ _ _ Hj). discriminate. }
  (* every pooled task is idle and the pool is empty *)
  assert (Hin : w ∈ workers e) by (eapply list_elem_of_lookup_2; exact Hw).
  pose proof (count_zero _ _ _ Hrel Hin) as Hr.
  pose proof (count_zero _ _ _ Hwait Hin) as Ha.
  rewrite Forall_forall in Halive. specialize (Halive w Hin Hvia).
  assert (Hpool : apiWorkerPool e = O).
  { pose proof (count_orb_le releasing awaits_lock (workers e)) as Hor.
    pose proof (count_le holds_slot (fun w => releasing w || awaits_lock w)
                  (workers e)) as Hle.
    assert (forall x, holds_slot x = true -> releasing x || awaits_lock x = true)
      as Himp by (intros [[] x []]; cbn; congruence).
    specialize (Hle Himp). lia. }
  exists i, w. split; [exact Hw|]. split; [exact Hvia|].
  destruct w as [r a p]. cbn in Hvia, Halive. subst r.
  destruct p; try discriminate Hr; try discriminate Ha; try contradiction.
  unfold advance. rewrite Hw. cbn [via at_pc actor]. rewrite Hpool.
  change (0 <? poolCapacity)%nat with true. cbv iota.
  apply (put_moves _ _ _ _ _ _ Hw). discriminate.
Qed.

Lemma pooled_tasks_never_deadlock_witness :
  exists j w', workers (run ten_and_a_test) !! j = Some w' /\ via w' = Pooled /\
               advance j (run ten_and_a_test) <> run ten_and_a_test.
Proof.
  apply (pooled_tasks_never_deadlock ten_and_a_test).
  exists O, (mkWorker Pooled 1 Working). split; [vm_compute|]; reflexivity.
Defined.

(** *** One mutex per user *)

Lemma registry_invariant_empty : registry_invariant empty_registry.
Proof.
  split; [intros u m H; cbn in H; now rewrite lookup_empty in H|].
  split; [intros u u' m H; cbn in H; now rewrite lookup_empty in H | constructor].
Qed.

Lemma registry_invariant_make m r :
  registry_invariant r -> registry_invariant (registry_make m r).
Proof.
  intros (Hfresh & Hinj & Hheld). destruct m as [u | i]; cbn [registry_make].
  - split; [exact Hfresh|]. split; [exact Hinj|]. cbn.
    apply Forall_app. split; [exact Hheld|].
    constructor; [|constructor]. cbn. discriminate.
  - unfold proceed. destruct (calls r !! i) as [[u st]|] eqn:Hc;
      [|now repeat split].
    destruct st as [| |m0]; cbn [stage who]; [| |now repeat split].
    + split; [exact Hfresh|]. split; [exact Hinj|]. cbn.
      apply Forall_insert; [exact Hheld|]. cbn. unfold read_section.
      destruct (userMutexes r !! u) as [m1|] eqn:Hu; [|discriminate].
      now intros m [= <-].
    + unfold write_section.
      destruct (userMutexes r !! u) as [m1|] eqn:Hu.
      * split; [exact Hfresh|]. split; [exact Hinj|]. cbn.
        apply Forall_insert; [exact Hheld|]. cbn. now intros m [= <-].
      * split; [|split]; cbn [userMutexes allocated calls].
        -- intros v m. rewrite lookup_insert. case_decide.
           ++ intros [= <-]. lia.
           ++ intros H'. apply Hfresh in H'. lia.
        -- intros v v' m. rewrite !lookup_insert. repeat case_decide; subst.
           ++ reflexivity.
           ++ intros [= <-] H'. apply Hfresh in H'. lia.
           ++ intros H' [= <-]. apply Hfresh in H'. lia.
           ++ apply Hinj.
        -- apply Forall_insert.
           ++ eapply Forall_impl; [exact Hheld|]. cbn. intros c Hcm m Hm.
              specialize (Hcm m Hm). rewrite lookup_insert. case_decide; [|exact Hcm].
              subst. congruence.
           ++ cbn. intros m [= <-]. now rewrite lookup_insert_eq.
Qed.

Lemma registry_invariant_run schedule : registry_invariant (registry_run schedule).
Proof.
  unfold registry_run.
  assert (H : forall r, registry_invariant r ->
                registry_invariant (fold_left (fun r m => registry_make m r) schedule r)).
  { induction schedule as [|m rest IH]; intros r Hr; [exact Hr|].
    apply IH. now apply registry_invariant_make. }
  apply H, registry_invariant_empty.
Qed.

(** X18: one mutex per user.  However the calls of [getUserMutex]
    interleave, two calls that have returned hold the same mutex exactly
    when they were made for the same user, and that mutex is the one the
    registry maps the user to: the second lookup under the write lock
    keeps a call that lost the race from installing a second mutex. *)
Theorem getUserMutex_gives_one_mutex_per_user (schedule : list registry_move)
    (i j : nat) (u u' : Z) (m m' : nat) :
  calls (registry_run schedule) !! i = Some (mkCall u (Holding m)) ->
  calls (registry_run schedule) !! j = Some (mkCall u' (Holding m')) ->
  (u = u' <-> m = m') /\
  userMutexes (registry_run schedule) !! u = Some m.
Proof.
  intros Hi Hj.
  destruct (registry_invariant_run schedule) as (_ & Hinj & Hheld).
  rewrite Forall_forall in Hheld.
  pose proof (Hheld _ (list_elem_of_lookup_2 _ _ _ Hi) m eq_refl) as Hm.
  pose proof (Hheld _ (list_elem_of_lookup_2 _ _ _ Hj) m' eq_refl) as Hm'.
  cbn in Hm, Hm'. split; [|exact Hm]. split.
  - intros <-. congruence.
  - intros <-. exact (Hinj _ _ _ Hm Hm').
Qed.

Lemma getUserMutex_gives_one_mutex_per_user_witness :
  calls (registry_run racing_calls)
  = [mkCall 7 (Holding 0); mkCall 7 (Holding 0); mkCall 8 (Holding 1)] /\
  ((7 = 7 <-> 0%nat = 0%nat) /\
   userMutexes (registry_run racing_calls) !! 7 = Some 0%nat) /\
  ((7 = 8 <-> 0%nat = 1%nat) /\
   userMutexes (registry_run racing_calls) !! 7 = Some 0%nat).
Proof.
  split; [vm_compute; reflexivity|]. split.
  - apply (getUserMutex_gives_one_mutex_per_user racing_calls 0 1);
      vm_compute; reflexivity.
  - apply (getUserMutex_gives_one_mutex_per_user racing_calls 0 2);
      vm_compute; reflexivity.
Defined.

End TradingEngine.

(** ** The chat front end (telegram_bot.go) *)

Module TelegramBot.

Import Models.

(** *** Routing *)

(** [strings.HasPrefix(s, prefix)] and [strings.TrimPrefix(s, prefix)]. *)
Definition HasPrefix (s prefix : string) : bool := String.prefix prefix s.

Fixpoint drop_bytes (n : nat) (s : string) : string :=
  match n, s with
  | S n', String _ r => drop_bytes n' r
  | _, _ => s
  end.

Definition TrimPrefix (s prefix : string) : string :=
  if HasPrefix s prefix then drop_bytes (String.length prefix) s else s.

(** The handler [handleCallbackQuery] calls, with its argument. *)
Inductive callback_route : Set :=
| ClosePositionCallback (positionID : string)
| ConfirmCloseCallback
| CancelCloseCallback
| TradeAmountCallback
| LeverageCallback
| TakeProfitCallback
| AmountSelectionCallback (amount : string)
| LeverageSelectionCallback (leverage : string)
| TakeProfitSelectionCallback (takeProfit : string)
| TestCoinCallback (coinSymbol : string)
| ConfirmTestCallback (coinSymbol : string)
| CancelTest
| ToggleActiveCallback
| NoCallback.                      (* no case of the switch applies *)

(** The [switch] of [handleCallbackQuery]. *)
Definition handleCallbackQuery (data : string) : callback_route :=
  if HasPrefix data "close_position_"
  then ClosePositionCallback (TrimPrefix data "close_position_")
  else if String.eqb data "confirm_close" then ConfirmCloseCallback
  else if String.eqb data "cancel_close" then CancelCloseCallback
  else if String.eqb data "set_trade_amount" then TradeAmountCallback
  else if String.eqb data "set_leverage" then LeverageCallback
  else if String.eqb data "set_take_profit" then TakeProfitCallback
  else if HasPrefix data "amount_"
  then AmountSelectionCallback (TrimPrefix data "amount_")
  else if HasPrefix data "leverage_"
  then LeverageSelectionCallback (TrimPrefix data "leverage_")
  else if HasPrefix data "tp_"
  then TakeProfitSelectionCallback (TrimPrefix data "tp_")
  else if HasPrefix data "test_"
  then TestCoinCallback (TrimPrefix data "test_")
  else if HasPrefix data "confirm_test_"
  then ConfirmTestCallback (TrimPrefix data "confirm_test_")
  else if String.eqb data "cancel_test" then CancelTest
  else if String.eqb data "toggle_active" then ToggleActiveCallback
  else NoCallback.

(** The handler [handleMessage] calls. *)
Inductive message_route : Set :=
| StartCommand
| RegisterCommand
| SettingsCommand
| UpdateAPICommand
| StatusCommand
| BalanceCommand
| TestCommand
| HelpCommand
| DatabaseUnavailable              (* the reply of a command that needs the database *)
| APIKeyInput
| APISecretInput
| PassphraseInput
| UpdateAPIKeyInput
| UpdateAPISecretInput
| UpdatePassphraseInput
| TradeAmountInput
| LeverageInput
| TakeProfitInput
| UnknownCommand.

(** The state [getUserState] makes for a user that has none. *)
Definition no_state : string := "none".

(** The [switch] of [handleMessage]; [state] is [state.State] and
    [connected] what [database.IsConnected] answers. *)
Definition handleMessage (connected : bool) (text state : string) : message_route :=
  if String.eqb text "/start" || String.eqb text "🏠 Ana Sayfa" then StartCommand
  else if String.eqb text "/register" || String.eqb text "📝 Kayıt Ol"
  then if negb connected then DatabaseUnavailable else RegisterCommand
  else if String.eqb text "/settings" || String.eqb text "⚙️ Ayarlar"
  then if negb connected then DatabaseUnavailable else SettingsCommand
  else if String.eqb text "/update_api" || String.eqb text "🔑 API Güncelle"
  then UpdateAPICommand
  else if String.eqb text "/status" || String.eqb text "📊 Pozisyonlar"
  then if negb connected then DatabaseUnavailable else StatusCommand
  else if String.eqb text "/balance" || String.eqb text "💰 Bakiye" then BalanceCommand
  else if String.eqb text "/test" || String.eqb text "🧪 Test" then TestCommand
  else if String.eqb text "/help" || String.eqb text "❓ Yardım" then HelpCommand
  else if String.eqb state "awaiting_api_key" then APIKeyInput
  else if String.eqb state "awaiting_api_secret" then APISecretInput
  else if String.eqb state "awaiting_passphrase" then PassphraseInput
  else if String.eqb state "awaiting_update_api_key" then UpdateAPIKeyInput
  else if String.eqb state "awaiting_update_api_secret" then UpdateAPISecretInput
  else if String.eqb state "awaiting_update_passphrase" then UpdatePassphraseInput
  else if String.eqb state "awaiting_trade_amount" then TradeAmountInput
  else if String.eqb state "awaiting_leverage" then LeverageInput
  else if String.eqb state "awaiting_take_profit" then TakeProfitInput
  else UnknownCommand.

(** *** The test flow *)

(** What a handler does, in order. *)
Inductive bot_action : Set :=
| SendMessage
| ShowKeyboard (buttons : list string)        (* the callback data of the buttons *)
| SetUserState (state : string)
| Inject (coinSymbol : string) (userID : Z).  (* upbitMonitor.InjectTestCoinForUser *)

(** The callback data of the keyboard of [handleTestCommand]. *)
Definition test_keyboard : list string :=
  ["test_BTC"; "test_ETH"; "test_SOL"; "test_DOGE"; "test_custom"]%string.

(** [executeTestTrade]; [monitor] tells whether [tb.upbitMonitor] is set. *)
Definition executeTestTrade (monitor : bool) (coinSymbol : string) : list bot_action :=
  if negb monitor then [SendMessage]
  else [ShowKeyboard [("confirm_test_" ++ coinSymbol)%string; "cancel_test"%string]].

(** [handleTestCoinCallback]. *)
Definition handleTestCoinCallback (monitor : bool) (coinSymbol : string)
  : list bot_action :=
  if String.eqb coinSymbol "custom"
  then [SendMessage; SetUserState "awaiting_test_coin"]
  else executeTestTrade monitor coinSymbol.

(** [handleConfirmTestCallback]. *)
Definition handleConfirmTestCallback (monitor : bool) (userID : Z) (coinSymbol : string)
  : list bot_action :=
  SendMessage ::
  if monitor then [Inject coinSymbol userID; SendMessage] else [SendMessage].

(** The state a handler leaves the user in, [before] being the state
    it found. *)
Fixpoint state_after (before : string) (acts : list bot_action) : string :=
  match acts with
  | [] => before
  | SetUserState s :: rest => state_after s rest
  | _ :: rest => state_after before rest
  end.

(** *** The leverage setting *)

Definition set_UserLeverage (v : Z) (u : User) : User :=
  mkUser (UserKey u) (TelegramID u) (TradeAmount u) v (TakeProfitPercentage u)
    (IsActive u).

(** What a settings handler does to the user's pending state. *)
Inductive state_change : Set :=
| Unchanged
| Cleared                          (* clearUserState *)
| Awaiting (state : string).       (* setUserState(userID, state, nil) *)

(** [written]: the row [database.DB.Save] stored, if it was called and
    took. *)
Record outcome : Set := mkOutcome { written : option User; change : state_change }.

(** The save at the end of both handlers; [row] is what [getUser]
    finds, [save_ok] whether the save takes. *)
Definition save_leverage (row : option User) (save_ok : bool) (leverageValue : Z)
    (on_exit : state_change) : outcome :=
  match row with
  | None => mkOutcome None on_exit
  | Some user =>
    if save_ok then mkOutcome (Some (set_UserLeverage leverageValue user)) on_exit
    else mkOutcome None on_exit
  end.

(** [handleLeverageSelectionCallback]. *)
Definition handleLeverageSelectionCallback (row : option User) (save_ok : bool)
    (leverage : string) : outcome :=
  if String.eqb leverage "custom" then mkOutcome None (Awaiting "awaiting_leverage")
  else if String.eqb leverage "5" then save_leverage row save_ok 5 Unchanged
  else if String.eqb leverage "10" then save_leverage row save_ok 10 Unchanged
  else if String.eqb leverage "20" then save_leverage row save_ok 20 Unchanged
  else if String.eqb leverage "50" then save_leverage row save_ok 50 Unchanged
  else mkOutcome None Unchanged.

(** [handleLeverageInput]. *)
Definition handleLeverageInput (row : option User) (save_ok : bool) (input : string)
  : outcome :=
  match UpbitMonitor.Atoi input with
  | None => mkOutcome None Unchanged
  | Some leverage =>
    if (leverage <? 1) || (125 <? leverage) then mkOutcome None Unchanged
    else save_leverage row save_ok leverage Cleared
  end.

(** The leverage of the orders among the steps of a trade. *)
Fixpoint order_leverages (steps : list TradingEngine.trade_step) : list Z :=
  match steps with
  | [] => []
  | TradingEngine.OpenLongPosition _ _ leverage :: rest => leverage :: order_leverages rest
  | _ :: rest => order_leverages rest
  end.

(** *** Facts on routing *)

Lemma HasPrefix_append prefix s : HasPrefix (prefix ++ s) prefix = true.
Proof.
  unfold HasPrefix. induction prefix as [|c r IH].
  - now destruct s.
  - change (String.prefix (String c r) (String c r ++ s))
      with (if ascii_dec c c then String.prefix r (r ++ s) else false).
    destruct (ascii_dec c c) as [_|Hne]; [exact IH | contradiction].
Qed.

Lemma TrimPrefix_append prefix s : TrimPrefix (prefix ++ s) prefix = s.
Proof.
  unfold TrimPrefix. rewrite HasPrefix_append.
  induction prefix as [|c r IH]; [reflexivity | exact IH].
Qed.

Section TestFlow.

Variable fs : string -> string.

(** X22: the test flow trades for the user who pressed the button, and
    for the coin of the button.  For a coin symbol without a colon, other
    than [custom]: the callback [test_<coin>] is routed to
    [handleTestCoinCallback], which offers the button
    [confirm_test_<coin>]; that callback is routed to
    [handleConfirmTestCallback], which injects the coin for the user who
    pressed; and the item the monitor queues for this injection makes
    [handleTestCoin] run [processUserTrade] for that coin and for the
    active user with that Telegram id, or do nothing when there is no
    such user. *)
Theorem test_button_trades_for_its_presser (coinSymbol : string) (userID : Z)
    (um : UpbitMonitor.Monitor) (m : TradingEngine.market)
    (users : list User) :
  UpbitMonitor.count_chars TradingEngine.is_colon coinSymbol = O ->
  coinSymbol <> "custom"%string ->
  MinInt64 <= userID <= MaxInt64 ->
  (length (UpbitMonitor.testCoinChannel um) < 10)%nat ->
  exists offered testData,
    handleCallbackQuery ("test_" ++ coinSymbol) = TestCoinCallback coinSymbol /\
    handleTestCoinCallback true coinSymbol
    = [ShowKeyboard [offered; "cancel_test"%string]] /\
    handleCallbackQuery offered = ConfirmTestCallback coinSymbol /\
    handleConfirmTestCallback true userID coinSymbol
    = [SendMessage; Inject coinSymbol userID; SendMessage] /\
    snd (UpbitMonitor.InjectTestCoinForUser coinSymbol userID um)
    = [UpbitMonitor.Queued UpbitMonitor.TestCoinQueue testData] /\
    TradingEngine.handleTestCoin fs m (Some users) testData
    = match TradingEngine.active_user users userID with
      | Some user => TradingEngine.processUserTrade fs m user coinSymbol
      | None => []
      end.
Proof.
  intros Hcolon Hcustom Hid Hroom.
  exists ("confirm_test_" ++ coinSymbol)%string,
         (coinSymbol ++ ":" ++ pretty userID)%string.
  split; [|split; [|split; [|split; [reflexivity|split]]]].
  - unfold handleCallbackQuery.
    change (HasPrefix ("test_" ++ coinSymbol) "close_position_") with false.
    change (String.eqb ("test_" ++ coinSymbol) "confirm_close") with false.
    change (String.eqb ("test_" ++ coinSymbol) "cancel_close") with false.
    change (String.eqb ("test_" ++ coinSymbol) "set_trade_amount") with false.
    change (String.eqb ("test_" ++ coinSymbol) "set_leverage") with false.
    change (String.eqb ("test_" ++ coinSymbol) "set_take_profit") with false.
    change (HasPrefix ("test_" ++ coinSymbol) "amount_") with false.
    change (HasPrefix ("test_" ++ coinSymbol) "leverage_") with false.
    change (HasPrefix ("test_" ++ coinSymbol) "tp_") with false.
    cbv iota. now rewrite HasPrefix_append, TrimPrefix_append.
  - unfold handleTestCoinCallback.
    destruct (String.eqb coinSymbol "custom") eqn:E;
      [apply String.eqb_eq in E; contradiction | reflexivity].
  - unfold handleCallbackQuery.
    change (HasPrefix ("confirm_test_" ++ coinSymbol) "close_position_") with false.
    change (String.eqb ("confirm_test_" ++ coinSymbol) "confirm_close") with false.
    change (String.eqb ("confirm_test_" ++ coinSymbol) "cancel_close") with false.
    change (String.eqb ("confirm_test_" ++ coinSymbol) "set_trade_amount") with false.
    change (String.eqb ("confirm_test_" ++ coinSymbol) "set_leverage") with false.
    change (String.eqb ("confirm_test_" ++ coinSymbol) "set_take_profit") with false.
    change (HasPrefix ("confirm_test_" ++ coinSymbol) "amount_") with false.
    change (HasPrefix ("confirm_test_" ++ coinSymbol) "leverage_") with false.
    change (HasPrefix ("confirm_test_" ++ coinSymbol) "tp_") with false.
    change (HasPrefix ("confirm_test_" ++ coinSymbol) "test_") with false.
    cbv iota. now rewrite HasPrefix_append, TrimPrefix_append.
  - unfold UpbitMonitor.InjectTestCoinForUser, UpbitMonitor.send_testCoin.
    apply Nat.ltb_lt in Hroom. unfold UpbitMonitor.testCoinCapacity.
    now rewrite Hroom.
  - unfold TradingEngine.handleTestCoin.
    now rewrite (TradingEngine.parse_test_data_formatted _ _ Hcolon Hid).
Qed.

End TestFlow.

Lemma test_button_trades_for_its_presser_witness :
  exists offered testData,
    handleCallbackQuery "test_SOL" = TestCoinCallback "SOL" /\
    handleTestCoinCallback true "SOL" = [ShowKeyboard [offered; "cancel_test"%string]] /\
    handleCallbackQuery offered = ConfirmTestCallback "SOL" /\
    handleConfirmTestCallback true 1001 "SOL"
    = [SendMessage; Inject "SOL" 1001; SendMessage] /\
    snd (UpbitMonitor.InjectTestCoinForUser "SOL" 1001 UpbitMonitor.NewUpbitMonitor)
    = [UpbitMonitor.Queued UpbitMonitor.TestCoinQueue testData] /\
    TradingEngine.handleTestCoin (fun c => (c ++ "USDT")%string)
      TradingEngine.open_market (Some [sample_user]) testData
    = match TradingEngine.active_user [sample_user] 1001 with
      | Some user =>
        TradingEngine.processUserTrade (fun c => (c ++ "USDT")%string)
          TradingEngine.open_market user "SOL"
      | None => []
      end.
Proof.
  apply (test_button_trades_for_its_presser (fun c => (c ++ "USDT")%string)
           "SOL" 1001 UpbitMonitor.NewUpbitMonitor TradingEngine.open_market
           [sample_user]).
  - reflexivity.
  - discriminate.
  - unfold MinInt64, MaxInt64. lia.
  - cbn. lia.
Defined.

(** X23: a custom test coin cannot be entered.  The button
    [test_custom] is routed to [handleTestCoinCallback], which leaves
    the user in a state of its own and asks for a symbol; but
    [handleMessage] has no case for that state, so every message is
    routed as if the user were in no state at all, and a message that
    is no command is answered as an unknown command; whereas the state
    the custom leverage button sets does route such a message to its
    input handler. *)
Theorem custom_test_coin_is_never_read (connected : bool) (text : string) :
  let state :=
    match handleCallbackQuery "test_custom" with
    | TestCoinCallback coinSymbol =>
      state_after no_state (handleTestCoinCallback true coinSymbol)
    | _ => no_state
    end in
  state = "awaiting_test_coin"%string /\
  handleMessage connected text state = handleMessage connected text no_state /\
  (handleMessage connected text no_state = UnknownCommand ->
   handleMessage connected text "awaiting_leverage" = LeverageInput).
Proof.
  cbv zeta. split; [reflexivity|].
  change (match handleCallbackQuery "test_custom" with
          | TestCoinCallback coinSymbol =>
            state_after no_state (handleTestCoinCallback true coinSymbol)
          | _ => no_state
          end) with "awaiting_test_coin"%string.
  unfold handleMessage, no_state.
  repeat match goal with
  | |- context [String.eqb text ?c] =>
    destruct (String.eqb text c);
    [ cbn [orb]; cbv iota;
      solve [ split; [reflexivity | destruct connected; discriminate] ]
    | cbn [orb]; cbv iota ]
  end.
  split; [reflexivity | intros _; reflexivity].
Qed.

(** *** Facts on the leverage setting *)

Lemma save_leverage_written row save_ok v on_exit u' :
  written (save_leverage row save_ok v on_exit) = Some u' ->
  exists user, row = Some user /\ save_ok = true /\ u' = set_UserLeverage v user.
Proof.
  unfold save_leverage. destruct row as [user|]; [|discriminate].
  destruct save_ok; [|discriminate]. cbn. intros [= <-]. now exists user.
Qed.

Section Leverage.

Variable fs : string -> string.

Lemma order_leverages_processUserTrade m user coin l :
  In l (order_leverages (TradingEngine.processUserTrade fs m user coin)) ->
  l = UserLeverage user.
Proof.
  unfold TradingEngine.processUserTrade.
  destruct (TradingEngine.trader_credentials_ok m); cbn; [|tauto].
  destruct (TradingEngine.symbol_listed m); cbn; [|tauto].
  destruct (TradingEngine.quote m); cbn; [|tauto].
  destruct (TradingEngine.order_reply m); cbn; intuition.
Qed.

(** X24: the leverage the bot stores lies between 1 and 125.  Whenever
    the leverage buttons or the typed leverage make the bot save the
    user's row, the row is the one found with only its leverage
    replaced, by a value between 1 and 125 that the typed text or the
    button denotes, and every order [processUserTrade] then submits for
    that row carries that leverage; a typed leverage that is saved is
    the number [strconv.Atoi] reads from the text, and the pending state
    is cleared with it. *)
Theorem stored_leverage_is_within_limits (row : option User) (save_ok : bool)
    (text : string) (stored : User) :
  written (handleLeverageInput row save_ok text) = Some stored \/
  written (handleLeverageSelectionCallback row save_ok text) = Some stored ->
  1 <= UserLeverage stored <= 125 /\
  (exists user, row = Some user /\ stored = set_UserLeverage (UserLeverage stored) user) /\
  (forall m coin l,
     In l (order_leverages (TradingEngine.processUserTrade fs m stored coin)) ->
     1 <= l <= 125) /\
  (written (handleLeverageInput row save_ok text) = Some stored ->
   UpbitMonitor.Atoi text = Some (UserLeverage stored) /\
   change (handleLeverageInput row save_ok text) = Cleared).
Proof.
  intros Hw.
  assert (Hin : written (handleLeverageInput row save_ok text) = Some stored ->
                1 <= UserLeverage stored <= 125 /\
                (exists user, row = Some user /\
                              stored = set_UserLeverage (UserLeverage stored) user) /\
                UpbitMonitor.Atoi text = Some (UserLeverage stored) /\
                change (handleLeverageInput row save_ok text) = Cleared).
  { unfold handleLeverageInput.
    destruct (UpbitMonitor.Atoi text) as [leverage|]; [|discriminate].
    destruct ((leverage <? 1) || (125 <? leverage)) eqn:Hr; [discriminate|].
    apply orb_false_iff in Hr as [H1 H2].
    apply Z.ltb_ge in H1, H2. intros H.
    destruct (save_leverage_written _ _ _ _ _ H) as (user & -> & -> & ->).
    cbn. split; [lia|]. split; [now exists user | now split]. }
  assert (Hsel : written (handleLeverageSelectionCallback row save_ok text) = Some stored ->
                 1 <= UserLeverage stored <= 125 /\
                 (exists user, row = Some user /\
                               stored = set_UserLeverage (UserLeverage stored) user)).
  { unfold handleLeverageSelectionCallback.
    repeat match goal with
    | |- context [String.eqb text ?c] => destruct (String.eqb text c)
    end; try discriminate; intros H;
      destruct (save_leverage_written _ _ _ _ _ H) as (user & -> & -> & ->);
      cbn; (split; [lia | now exists user]). }
  assert (Hrange : 1 <= UserLeverage stored <= 125 /\
                   (exists user, row = Some user /\
                                 stored = set_UserLeverage (UserLeverage stored) user)).
  { destruct Hw as [H|H]; [destruct (Hin H) as (? & ? & _); now split | exact (Hsel H)]. }
  destruct Hrange as [Hr Hu]. split; [exact Hr|]. split; [exact Hu|]. split.
  - intros m coin l Hl. apply order_leverages_processUserTrade in Hl. lia.
  - intros H. now destruct (Hin H) as (_ & _ & ? & ?).
Qed.

(** A text that is no leverage saves nothing, and the user is asked
    again. *)
Lemma rejected_leverage_is_asked_again row save_ok text :
  (forall n, 1 <= n <= 125 -> UpbitMonitor.Atoi text <> Some n) ->
  handleLeverageInput row save_ok text = mkOutcome None Unchanged.
Proof.
  intros Hn. unfold handleLeverageInput.
  destruct (UpbitMonitor.Atoi text) as [leverage|] eqn:Ha; [|reflexivity].
  destruct ((leverage <? 1) || (125 <? leverage)) eqn:Hr; [reflexivity|].
  apply orb_false_iff in Hr as [H1 H2]. apply Z.ltb_ge in H1, H2.
  now destruct (Hn leverage ltac:(lia)).
Qed.

End Leverage.

Lemma stored_leverage_is_within_limits_witness :
  written (handleLeverageInput (Some sample_user) true "25")
  = Some (set_UserLeverage 25 sample_user) /\
  1 <= 25 <= 125 /\
  UpbitMonitor.Atoi "25" = Some 25.
Proof.
  assert (H : written (handleLeverageInput (Some sample_user) true "25")
              = Some (set_UserLeverage 25 sample_user)) by reflexivity.
  split; [exact H|].
  destruct (stored_leverage_is_within_limits (fun c => c) (Some sample_user) true "25"
              (set_UserLeverage 25 sample_user) (or_introl H))
    as (Hr & _ & _ & Ha).
  split; [exact Hr | exact (proj1 (Ha H))].
Defined.

End TelegramBot.

(** * Package main: the start-up connection loop *)

Module Main.

(** What [main] does while it connects to the database, in order. *)
Inductive boot_event : Set :=
| TryConnect (attempt : Z)     (* database.Connect(cfg.DatabaseURL) *)
| Sleep (d : Z)                (* time.Sleep(sleepTime), nanoseconds *)
| StartReconnector             (* safeGo("DatabaseReconnector", ...) *)
| Connected.                   (* defer database.Close(); break *)

(** [for attempts := 1; attempts <= 5; attempts++ { ... }].  [Connect]
    tells for each attempt whether [database.Connect] returned no error.
    [None] when the fuel runs out before the loop ends. *)
Fixpoint connect_loop (fuel : nat) (attempts : Z) (Connect : Z -> bool)
  : option (list boot_event) :=
  match fuel with
  | O => None
  | S fuel' =>
    if attempts <=? 5 then
      if Connect attempts then Some [TryConnect attempts; Connected]
      else if attempts <? 5 then
        let sleepTime := wrap64 (wrap64 (attempts * 2) * Second) in
        option_map (fun rest => TryConnect attempts :: Sleep sleepTime :: rest)
                   (connect_loop fuel' (wrap64 (attempts + 1)) Connect)
      else
        option_map (fun rest => TryConnect attempts :: StartReconnector :: rest)
                   (connect_loop fuel' (wrap64 (attempts + 1)) Connect)
    else Some []
  end.

Definition connect_database (fuel : nat) (Connect : Z -> bool) : option (list boot_event) :=
  connect_loop fuel 1 Connect.

(** The attempts made, and the time slept between them. *)
Fixpoint tries (trace : list boot_event) : Z :=
  match trace with
  | [] => 0
  | TryConnect _ :: rest => 1 + tries rest
  | _ :: rest => tries rest
  end.

Fixpoint slept (trace : list boot_event) : Z :=
  match trace with
  | [] => 0
  | Sleep d :: rest => d + slept rest
  | _ :: rest => slept rest
  end.

(** The attempt numbers tried, in order. *)
Fixpoint attempted (trace : list boot_event) : list Z :=
  match trace with
  | [] => []
  | TryConnect attempt :: rest => attempt :: attempted rest
  | _ :: rest => attempted rest
  end.

(** The database comes up at the third attempt. *)
Definition up_at_third (attempt : Z) : bool := 3 <=? attempt.

(** X21: the start-up loop ends after at most five attempts.  Whatever
    [database.Connect] answers, the loop tries attempts 1, 2, ..., [n] in
    this order, all before the last failing, and stops at the first that
    succeeds or else at the fifth; after [n] attempts it has slept
    2 + 4 + ... + 2(n-1) = n(n-1) seconds, so never more than 20; the
    deferred close is registered exactly when the last attempt succeeded,
    that is when one of the five succeeds, and the reconnection
    supervisor is started exactly when all five failed. *)
Theorem connect_database_stops_within_five (Connect : Z -> bool) (fuel : nat) :
  (6 <= fuel)%nat ->
  exists trace,
    connect_database fuel Connect = Some trace /\
    let n := tries trace in
    1 <= n <= 5 /\
    attempted trace = map Z.of_nat (seq 1 (Z.to_nat n)) /\
    (forall k, 1 <= k < n -> Connect k = false) /\
    (Connect n = true \/ n = 5) /\
    slept trace = n * (n - 1) * Second /\
    (In Connected trace <-> Connect n = true) /\
    (In Connected trace <-> exists k, 1 <= k <= 5 /\ Connect k = true) /\
    (In StartReconnector trace <-> n = 5 /\ Connect 5 = false) /\
    (In StartReconnector trace <-> forall k, 1 <= k <= 5 -> Connect k = false).
Proof.
  intros Hfuel.
  do 6 (destruct fuel as [|fuel]; [lia|]). clear Hfuel.
  unfold connect_database.
  assert (Hsmall : forall k n, 1 <= k < n -> n <= 5 ->
            k = 1 \/ k = 2 \/ k = 3 \/ k = 4) by (intros; lia).
  assert (Hfive : forall k, 1 <= k <= 5 ->
            k = 1 \/ k = 2 \/ k = 3 \/ k = 4 \/ k = 5) by (intros; lia).
  cbn [connect_loop].
  change (1 <=? 5) with true. change (1 <? 5) with true.
  change (wrap64 (1 + 1)) with 2. change (2 <=? 5) with true. change (2 <? 5) with true.
  change (wrap64 (2 + 1)) with 3. change (3 <=? 5) with true. change (3 <? 5) with true.
  change (wrap64 (3 + 1)) with 4. change (4 <=? 5) with true. change (4 <? 5) with true.
  change (wrap64 (4 + 1)) with 5. change (5 <=? 5) with true. change (5 <? 5) with false.
  change (wrap64 (5 + 1)) with 6. change (6 <=? 5) with false.
  cbv iota.
  destruct (Connect 1) eqn:H1;
    [|destruct (Connect 2) eqn:H2;
      [|destruct (Connect 3) eqn:H3;
        [|destruct (Connect 4) eqn:H4;
          [|destruct (Connect 5) eqn:H5]]]];
    cbn [option_map]; eexists; (split; [reflexivity|]);
    cbn [tries]; cbv zeta;
    change (1 + 0) with 1; change (1 + 1) with 2;
    change (1 + 2) with 3; change (1 + 3) with 4; change (1 + 4) with 5;
    (split; [lia|]);
    (split; [reflexivity|]);
    (split; [intros k Hk;
             destruct (Hsmall k _ Hk ltac:(lia)) as [-> | [-> | [-> | ->]]];
             first [assumption | lia] |]);
    (split; [first [left; assumption | right; reflexivity]|]);
    (split; [vm_compute; reflexivity|]);
    cbn [In].
  (* the deferred close and the reconnector, case by case *)
  all: split; [split; intros H;
    first
      [ assumption
      | reflexivity
      | congruence
      | repeat (first [left; reflexivity | right]); fail
      | exfalso; repeat (destruct H as [H|H]; [discriminate H|]); contradiction ]|].
  all: split; [split;
    [ intros H;
      first
        [ (exists 1; split; [lia | assumption])
        | (exists 2; split; [lia | assumption])
        | (exists 3; split; [lia | assumption])
        | (exists 4; split; [lia | assumption])
        | (exists 5; split; [lia | assumption])
        | exfalso; repeat (destruct H as [H|H]; [discriminate H|]); contradiction ]
    | intros (k & Hk & Hc);
      first
        [ repeat (first [left; reflexivity | right]); fail
        | exfalso;
          destruct (Hfive k Hk) as [-> | [-> | [-> | [-> | ->]]]]; congruence ] ]|].
  all: split; [split; intros H;
    first
      [ split; [reflexivity | first [reflexivity | assumption]]
      | repeat (first [left; reflexivity | right]); fail
      | destruct H as [Hn Hf]; first [lia | congruence]
      | exfalso; repeat (destruct H as [H|H]; [discriminate H|]); contradiction ]|].
  all: split;
    [ intros H;
      first
        [ (intros k Hk;
           destruct (Hfive k Hk) as [-> | [-> | [-> | [-> | ->]]]]; assumption)
        | exfalso; repeat (destruct H as [H|H]; [discriminate H|]); contradiction ]
    | intros Hall;
      first
        [ repeat (first [left; reflexivity | right]); fail
        | exfalso;
          first [ rewrite (Hall 1 ltac:(lia)) in H1; discriminate H1
                | rewrite (Hall 2 ltac:(lia)) in H2; discriminate H2
                | rewrite (Hall 3 ltac:(lia)) in H3; discriminate H3
                | rewrite (Hall 4 ltac:(lia)) in H4; discriminate H4
                | rewrite (Hall 5 ltac:(lia)) in H5; discriminate H5 ] ] ].
Qed.

Lemma connect_database_stops_within_five_witness :
  exists trace,
    connect_database 6 up_at_third = Some trace /\
    let n := tries trace in
    1 <= n <= 5 /\
    attempted trace = map Z.of_nat (seq 1 (Z.to_nat n)) /\
    (forall k, 1 <= k < n -> up_at_third k = false) /\
    (up_at_third n = true \/ n = 5) /\
    slept trace = n * (n - 1) * Second /\
    (In Connected trace <-> up_at_third n = true) /\
    (In Connected trace <-> exists k, 1 <= k <= 5 /\ up_at_third k = true) /\
    (In StartReconnector trace <-> n = 5 /\ up_at_third 5 = false) /\
    (In StartReconnector trace <-> forall k, 1 <= k <= 5 -> up_at_third k = false).
Proof.
  apply (connect_database_stops_within_five up_at_third 6). lia.
Defined.

End Main.
